(** * ML-KEM (rank-1 K-PKE) reference implementation: shallow embedding

    The Python modules under [key-encapsulation/] are embedded function by
    function.  Python integers are [Z], [bytes] values are lists of
    [Byte.byte], Python lists of integers are [list Z].  A raised exception
    is a value of [result]; the only unbounded loop ([sample_ntt]) is run
    with fuel. *)

From Stdlib Require Import Strings.Ascii Strings.String Strings.Byte.
From Stdlib Require Import ZArith List Lia Bool Arith DecimalString.
Import ListNotations.
Local Open Scope Z_scope.

(* ------------------------------------------------------------------ *)
(** ** Exceptions *)

Inductive exn : Type :=
| ValueError (msg : string)
| IndexError
| RuntimeError (msg : string).

Inductive result (A : Type) : Type :=
| Ok (a : A)
| Raise (e : exn).

Arguments Ok {A} a.
Arguments Raise {A} e.

Definition bind {A B : Type} (m : result A) (k : A -> result B) : result B :=
  match m with
  | Ok a => k a
  | Raise e => Raise e
  end.

Notation "x <- m ;; k" := (bind m (fun x => k))
  (at level 61, m at next level, right associativity).

(** [for x in xs: s = body x s], stopping at the first exception. *)
Fixpoint for_each {X S : Type} (xs : list X) (body : X -> S -> result S)
  (s : S) : result S :=
  match xs with
  | [] => Ok s
  | x :: xs' => s' <- body x s ;; for_each xs' body s'
  end.

(** List comprehension [[g x for x in xs]] with a fallible [g]. *)
Fixpoint map_result {X Y : Type} (g : X -> result Y) (xs : list X)
  : result (list Y) :=
  match xs with
  | [] => Ok []
  | x :: xs' => y <- g x ;; ys <- map_result g xs' ;; Ok (y :: ys)
  end.

(** Computations that may also fail to terminate within their fuel. *)
Definition comp (A : Type) : Type := option (result A).

Definition ret {A : Type} (a : A) : comp A := Some (Ok a).

Definition lift {A : Type} (r : result A) : comp A := Some r.

Definition cbind {A B : Type} (m : comp A) (k : A -> comp B) : comp B :=
  match m with
  | None => None
  | Some (Raise e) => Some (Raise e)
  | Some (Ok a) => k a
  end.

Notation "x <~ m ;; k" := (cbind m (fun x => k))
  (at level 61, m at next level, right associativity).

(** [range(n)] and [range(start, stop, step)] for non-negative arguments
    and a positive step. *)
Definition range (n : nat) : list nat := seq 0 n.

Definition range_step (start stop step : nat) : list nat :=
  map (fun i => (start + i * step)%nat)
      (seq 0 ((stop - start + step - 1) / step)%nat).

(** [l[i]] and [l[i] = v] for a non-negative index: out of range raises. *)
Definition getitem (l : list Z) (i : nat) : result Z :=
  match nth_error l i with
  | Some x => Ok x
  | None => Raise IndexError
  end.

Fixpoint replace_nth {A : Type} (l : list A) (i : nat) (v : A) : list A :=
  match l, i with
  | [], _ => []
  | _ :: l', O => v :: l'
  | x :: l', S i' => x :: replace_nth l' i' v
  end.

Definition setitem (l : list Z) (i : nat) (v : Z) : result (list Z) :=
  if (i <? length l)%nat then Ok (replace_nth l i v) else Raise IndexError.

(** Slices [l[a:b]] with [0 <= a] and [0 <= b]: clipped, never raising. *)
Definition slice {A : Type} (l : list A) (a b : nat) : list A :=
  firstn (b - a) (skipn a l).

(* ------------------------------------------------------------------ *)
(** ** Bytes *)

Definition bytes := list byte.

Definition byte_val (b : byte) : Z := Z.of_N (Byte.to_N b).

Definition byte_of_Z (z : Z) : option byte :=
  if (0 <=? z) && (z <? 256) then Byte.of_N (Z.to_N z) else None.

Definition zero_bytes (n : nat) : bytes := repeat x00 n.

(* ------------------------------------------------------------------ *)
(** ** hashlib: SHA-3 and SHAKE (FIPS 202) *)

Module Keccak.

Definition mask64 : Z := 0xFFFFFFFFFFFFFFFF.

Definition rotl64 (x n : Z) : Z :=
  Z.lor (Z.land (Z.shiftl x n) mask64) (Z.shiftr x (64 - n)).

Definition round_constants : list Z :=
  [ 0x0000000000000001; 0x0000000000008082; 0x800000000000808A;
    0x8000000080008000; 0x000000000000808B; 0x0000000080000001;
    0x8000000080008081; 0x8000000000008009; 0x000000000000008A;
    0x0000000000000088; 0x0000000080008009; 0x000000008000000A;
    0x000000008000808B; 0x800000000000008B; 0x8000000000008089;
    0x8000000000008003; 0x8000000000008002; 0x8000000000000080;
    0x000000000000800A; 0x800000008000000A; 0x8000000080008081;
    0x8000000000008080; 0x0000000080000001; 0x8000000080008008 ].

(** Rotation offsets, lane (x, y) at position x + 5 y. *)
Definition rho_offsets : list Z :=
  [  0;  1; 62; 28; 27;
    36; 44;  6; 55; 20;
     3; 10; 43; 25; 39;
    41; 45; 15; 21;  8;
    18;  2; 61; 56; 14 ].

Definition lane (A : list Z) (x y : nat) : Z :=
  nth (x mod 5 + 5 * (y mod 5))%nat A 0.

Definition theta (A : list Z) : list Z :=
  let C := map (fun x => fold_left Z.lxor
                           (map (fun y => lane A x y) (seq 0 5)) 0)
               (seq 0 5) in
  let D := map (fun x => Z.lxor (nth ((x + 4) mod 5)%nat C 0)
                                (rotl64 (nth ((x + 1) mod 5)%nat C 0) 1))
               (seq 0 5) in
  map (fun i => Z.lxor (nth i A 0) (nth (i mod 5)%nat D 0)) (seq 0 25).

(** Target lane (X, Y) receives source lane (X + 3 Y, X), rotated. *)
Definition rho_pi (A : list Z) : list Z :=
  map (fun i =>
         let X := (i mod 5)%nat in
         let Y := (i / 5)%nat in
         let x := ((X + 3 * Y) mod 5)%nat in
         rotl64 (lane A x X) (nth (x + 5 * X)%nat rho_offsets 0))
      (seq 0 25).

Definition chi (B : list Z) : list Z :=
  map (fun i =>
         let x := (i mod 5)%nat in
         let y := (i / 5)%nat in
         Z.lxor (lane B x y)
                (Z.land (Z.lxor (lane B (x + 1) y) mask64)
                        (lane B (x + 2) y)))
      (seq 0 25).

Definition iota (rc : Z) (A : list Z) : list Z :=
  match A with
  | [] => []
  | a :: A' => Z.lxor a rc :: A'
  end.

Definition round (A : list Z) (rc : Z) : list Z :=
  iota rc (chi (rho_pi (theta A))).

Definition keccak_f (A : list Z) : list Z :=
  fold_left round round_constants A.

(** Little-endian bytes <-> 64-bit lanes. *)
Fixpoint le_int (bs : list Z) : Z :=
  match bs with
  | [] => 0
  | b :: bs' => b + 256 * le_int bs'
  end.

Fixpoint lanes_of_bytes (fuel : nat) (bs : list Z) : list Z :=
  match fuel, bs with
  | S fuel', _ :: _ => le_int (firstn 8 bs) :: lanes_of_bytes fuel' (skipn 8 bs)
  | _, _ => []
  end.

Definition bytes_of_lane (w : Z) : list Z :=
  map (fun j => Z.land (Z.shiftr w (8 * Z.of_nat j)) 255) (seq 0 8).

Definition bytes_of_lanes (A : list Z) : list Z :=
  flat_map bytes_of_lane A.

Fixpoint xor_lanes (st ls : list Z) : list Z :=
  match st, ls with
  | s :: st', l :: ls' => Z.lxor s l :: xor_lanes st' ls'
  | _, _ => st
  end.

(** pad10*1 with the domain-separation suffix folded into the first
    padding byte. *)
Definition pad (rate : nat) (suffix : Z) (msg : list Z) : list Z :=
  let zeros := (rate - 1 - (length msg) mod rate)%nat in
  match zeros with
  | O => msg ++ [Z.lor suffix 0x80]
  | S z => msg ++ [suffix] ++ repeat 0 z ++ [0x80]
  end.

Fixpoint absorb_blocks (fuel rate : nat) (st msg : list Z) : list Z :=
  match fuel, msg with
  | S fuel', _ :: _ =>
      absorb_blocks fuel' rate
        (keccak_f (xor_lanes st (lanes_of_bytes rate (firstn rate msg))))
        (skipn rate msg)
  | _, _ => st
  end.

Fixpoint squeeze_blocks (blocks rate : nat) (st : list Z) : list Z :=
  match blocks with
  | O => []
  | S n => firstn rate (bytes_of_lanes st)
             ++ squeeze_blocks n rate (keccak_f st)
  end.

Definition sponge (rate : nat) (suffix : Z) (msg : list Z) (outlen : nat)
  : list Z :=
  let padded := pad rate suffix msg in
  let st := absorb_blocks (length padded) rate (repeat 0 25) padded in
  firstn outlen (squeeze_blocks (outlen / rate + 1) rate st).

Definition to_bytes (zs : list Z) : bytes :=
  map (fun z => match byte_of_Z z with Some b => b | None => x00 end) zs.

Definition hash (rate : nat) (suffix : Z) (data : bytes) (outlen : nat)
  : bytes :=
  to_bytes (sponge rate suffix (map byte_val data) outlen).

End Keccak.

(** [hashlib.sha3_256(data).digest()] and friends.  For the SHAKE objects,
    [digest(length)] is the first [length] bytes of the output stream of
    the data absorbed so far; the call leaves the object unchanged. *)
Definition hashlib_sha3_256 (data : bytes) : bytes := Keccak.hash 136 0x06 data 32.
Definition hashlib_sha3_512 (data : bytes) : bytes := Keccak.hash 72 0x06 data 64.
Definition hashlib_shake_128 (data : bytes) (length : nat) : bytes :=
  Keccak.hash 168 0x1F data length.
Definition hashlib_shake_256 (data : bytes) (length : nat) : bytes :=
  Keccak.hash 136 0x1F data length.

(* ------------------------------------------------------------------ *)
(** ** auxiliary/cryptographic/functions.py *)

Definition sha3_256 (data : bytes) : bytes := hashlib_sha3_256 data.
Definition sha3_512 (data : bytes) : bytes := hashlib_sha3_512 data.
Definition shake128 (data : bytes) (output_length : nat) : bytes :=
  hashlib_shake_128 data output_length.
Definition shake256 (data : bytes) (output_length : nat) : bytes :=
  hashlib_shake_256 data output_length.

Definition PRF (eta : Z) (s b : bytes) : result bytes :=
  if negb ((eta =? 2) || (eta =? 3)) then
    Raise (ValueError "eta must be 2 or 3")
  else if negb (length s =? 32)%nat then
    Raise (ValueError "s must be 32 bytes")
  else if negb (length b =? 1)%nat then
    Raise (ValueError "b must be 1 byte")
  else Ok (shake256 (s ++ b) (Z.to_nat (64 * eta))).

Definition H (s : bytes) : bytes := sha3_256 s.

Definition J (s : bytes) : bytes := shake256 s 32.

Definition G (c : bytes) : bytes * bytes :=
  let digest := sha3_512 c in
  (firstn 32 digest, skipn 32 digest).

(** The [XOF] object wraps one [hashlib.shake_128] context, which is
    determined by the bytes fed to [update] so far. *)
Record XOF : Type := mkXOF { _ctx : bytes }.

Definition XOF_init : XOF := mkXOF [].

Definition absorb (self : XOF) (data : bytes) : XOF :=
  mkXOF (_ctx self ++ data).

(** [self._ctx.digest(length)]: the returned object state is the one the
    call started from. *)
Definition squeeze (self : XOF) (length : nat) : bytes * XOF :=
  (hashlib_shake_128 (_ctx self) length, self).

(* ------------------------------------------------------------------ *)
(** ** auxiliary/general/functions.py

    The keyword argument [q] of [compress], [decompress], [byte_encode]
    and [byte_decode] is left at its default 3329 by every caller. *)

Definition Q : Z := 3329.
Definition N : nat := 256.

Definition bytearray_setitem (arr : bytes) (i : nat) (v : Z) : result bytes :=
  match byte_of_Z v with
  | None => Raise (ValueError "byte must be in range(0, 256)")
  | Some b =>
      if (i <? length arr)%nat then Ok (replace_nth arr i b)
      else Raise IndexError
  end.

(** Inner loop of [bits_to_bytes]: the value of byte [i]. *)
Definition pack_byte (bits : list Z) (i : nat) : result Z :=
  for_each (range 8)
    (fun j byte_val =>
       bit <- getitem bits (i * 8 + j) ;;
       if negb ((bit =? 0) || (bit =? 1)) then
         Raise (ValueError "Bits must be 0 or 1")
       else Ok (Z.lor byte_val (Z.shiftl bit (Z.of_nat j))))
    0.

Definition bits_to_bytes (bits : list Z) : result bytes :=
  if negb (length bits mod 8 =? 0)%nat then
    Raise (ValueError "Bit array length must be multiple of 8")
  else
    let byte_count := (length bits / 8)%nat in
    for_each (range byte_count)
      (fun i result =>
         byte_val <- pack_byte bits i ;;
         bytearray_setitem result i byte_val)
      (zero_bytes byte_count).

Definition bytes_to_bits (data : bytes) : list Z :=
  flat_map
    (fun byte =>
       map (fun j => Z.land (Z.shiftr (byte_val byte) (Z.of_nat j)) 1)
           (range 8))
    data.

Definition compress (x d : Z) : result Z :=
  if negb ((1 <=? d) && (d <? 12)) then
    Raise (ValueError "d must be 1 <= d < 12")
  else Ok (Z.land (Z.shiftl x d / Q) (Z.shiftl 1 d - 1)).

Definition decompress (y d : Z) : result Z :=
  if negb ((1 <=? d) && (d <? 12)) then
    Raise (ValueError "d must be 1 <= d < 12")
  else Ok (Z.shiftr (y * Q + Z.shiftl 1 (d - 1)) d).

(** [a << b]: a negative shift count raises. *)
Definition lshift (a b : Z) : result Z :=
  if b <? 0 then Raise (ValueError "negative shift count")
  else Ok (Z.shiftl a b).

(** [m = (1 << d) if d < 12 else q] *)
Definition modulus_for (d : Z) : result Z :=
  if d <? 12 then lshift 1 d else Ok Q.

Definition byte_encode (F : list Z) (d : Z) : result bytes :=
  if negb (length F =? 256)%nat then
    Raise (ValueError "Array must contain exactly 256 elements")
  else
    m <- modulus_for d ;;
    let total_bits := 256 * d in
    if negb (total_bits mod 8 =? 0) then
      Raise (ValueError "d doesn't produce whole bytes")
    else
      bits <- for_each F
        (fun x bits =>
           if negb ((0 <=? x) && (x <? m)) then
             Raise (ValueError "Value out of range")
           else
             Ok (bits ++ map (fun j => Z.land (Z.shiftr x (Z.of_nat j)) 1)
                             (range (Z.to_nat d))))
        [] ;;
      bits_to_bytes bits.

(** [sum(bit << j for j, bit in enumerate(chunk))] *)
Definition sum_shifted (chunk : list Z) : Z :=
  fold_left Z.add
    (map (fun jb => Z.shiftl (snd jb) (Z.of_nat (fst jb)))
         (combine (seq 0 (length chunk)) chunk))
    0.

Definition byte_decode (B : bytes) (d : Z) : result (list Z) :=
  m <- modulus_for d ;;
  let expected_bytes := 256 * d / 8 in
  if negb (Z.of_nat (length B) =? expected_bytes) then
    Raise (ValueError "Expected 32*d bytes")
  else
    let bits := bytes_to_bits B in
    let dn := Z.to_nat d in
    for_each (range 256)
      (fun i F =>
         let chunk := slice bits (i * dn) ((i + 1) * dn) in
         if negb (length chunk =? dn)%nat then
           Raise (ValueError "Invalid bit length during decoding")
         else
           let x := sum_shifted chunk in
           Ok (F ++ [x mod m]))
      [].

(** The [while len(coefficients) < 256] loop of [sample_ntt]; [None] when
    the fuel is used up before the loop exits. *)
Fixpoint sample_ntt_loop (fuel : nat) (xof : XOF) (coefficients : list Z)
  : comp (list Z) :=
  if (length coefficients <? 256)%nat then
    match fuel with
    | O => None
    | S fuel' =>
        let (C, xof) := squeeze xof 3 in
        if negb (length C =? 3)%nat then
          Some (Raise (RuntimeError "XOF failed to produce required bytes"))
        else
          let C0 := byte_val (nth 0 C x00) in
          let C1 := byte_val (nth 1 C x00) in
          let C2 := byte_val (nth 2 C x00) in
          let d1 := C0 + 256 * Z.land C1 0x0F in
          let d2 := Z.shiftr C1 4 + 16 * C2 in
          let coefficients1 :=
            if d1 <? Q then coefficients ++ [d1] else coefficients in
          if (d1 <? Q) && (length coefficients1 =? 256)%nat then
            Some (Ok coefficients1)
          else
            let coefficients2 :=
              if (d2 <? Q) && (length coefficients1 <? 256)%nat
              then coefficients1 ++ [d2] else coefficients1 in
            sample_ntt_loop fuel' xof coefficients2
    end
  else Some (Ok coefficients).

Definition sample_ntt (fuel : nat) (B : bytes) : comp (list Z) :=
  if negb (length B =? 34)%nat then
    Some (Raise (ValueError "SampleNTT requires exactly 34 input bytes"))
  else
    let xof := absorb XOF_init B in
    sample_ntt_loop fuel xof [].

(** Python's [sum] over a list of integers. *)
Definition py_sum (l : list Z) : Z := fold_left Z.add l 0.

Definition sample_poly_cbd (eta : Z) (B : bytes) : result (list Z) :=
  if negb ((eta =? 2) || (eta =? 3)) then
    Raise (ValueError "eta must be 2 or 3")
  else
    let expected_length := 64 * eta in
    if negb (Z.of_nat (length B) =? expected_length) then
      Raise (ValueError "Expected 64*eta bytes")
    else
      let bits := bytes_to_bits B in
      let e := Z.to_nat eta in
      Ok (map (fun i =>
                 let start := (i * 2 * e)%nat in
                 let x_bits := slice bits start (start + e) in
                 let y_bits := slice bits (start + e) (start + 2 * e) in
                 let x := py_sum x_bits in
                 let y := py_sum y_bits in
                 (x - y) mod Q)
              (range 256)).

(* ------------------------------------------------------------------ *)
(** ** auxiliary/transform/functions.py *)

Definition ZETA_PRECOMP : list Z :=
  [ 1; 1729; 2580; 3289; 2642; 630; 1897; 848; 1062; 1919; 193; 797; 2786; 3260; 569; 1746;
    296; 2447; 1339; 1476; 3046; 56; 2240; 1333; 1426; 2094; 535; 2882; 2393; 2879; 1974; 821;
    289; 331; 3253; 1756; 1197; 2304; 2277; 2055; 650; 1977; 2513; 632; 2865; 33; 1320; 1915;
    2319; 1435; 807; 452; 1438; 2868; 1534; 2402; 2647; 2617; 1481; 648; 2474; 3110; 1227; 910;
    17; 2761; 583; 2649; 1637; 723; 2288; 1100; 1409; 2662; 3281; 233; 756; 2156; 3015; 3050;
    1703; 1651; 2789; 1789; 1847; 952; 1461; 2687; 939; 2308; 2437; 2388; 733; 2337; 268; 641;
    1584; 2298; 2037; 3220; 375; 2549; 2090; 1645; 1063; 319; 2773; 757; 2099; 561; 2466; 2594;
    2804; 1092; 403; 1026; 1143; 2150; 2775; 886; 1722; 1212; 1874; 1029; 2110; 2935; 885; 2154 ].

Definition GAMMA_PRECOMP : list Z :=
  [ 17; -17; 2761; -2761; 583; -583; 2649; -2649; 1637; -1637; 723; -723; 2288; -2288; 1100; -1100;
    1409; -1409; 2662; -2662; 3281; -3281; 233; -233; 756; -756; 2156; -2156; 3015; -3015; 3050; -3050;
    1703; -1703; 1651; -1651; 2789; -2789; 1789; -1789; 1847; -1847; 952; -952; 1461; -1461; 2687; -2687;
    939; -939; 2308; -2308; 2437; -2437; 2388; -2388; 733; -733; 2337; -2337; 268; -268; 641; -641;
    1584; -1584; 2298; -2298; 2037; -2037; 3220; -3220; 375; -375; 2549; -2549; 2090; -2090; 1645; -1645;
    1063; -1063; 319; -319; 2773; -2773; 757; -757; 2099; -2099; 561; -561; 2466; -2466; 2594; -2594;
    2804; -2804; 1092; -1092; 403; -403; 1026; -1026; 1143; -1143; 2150; -2150; 2775; -2775; 886; -886;
    1722; -1722; 1212; -1212; 1874; -1874; 1029; -1029; 2110; -2110; 2935; -2935; 885; -885; 2154; -2154 ].

(** [pow(z, -1, m)]: the inverse of [z] modulo [m] in [0, m), found by
    trying the candidates [x, x+1, ...] in turn. *)
Fixpoint find_inverse (fuel : nat) (x z m : Z) : option Z :=
  match fuel with
  | O => None
  | S fuel' =>
      if (z * x) mod m =? 1 then Some x else find_inverse fuel' (x + 1) z m
  end.

Definition pow_inv (z m : Z) : result Z :=
  match find_inverse (Z.to_nat m) 0 z m with
  | Some x => Ok x
  | None => Raise (ValueError "base is not invertible for the given modulus")
  end.

(** A table built while the module is loaded; an exception there would
    abort the import, leaving no table. *)
Definition loaded (r : result (list Z)) : list Z :=
  match r with
  | Ok l => l
  | Raise _ => []
  end.

(** [ZETA_PRECOMP_INV = [pow(z, -1, Q) for z in ZETA_PRECOMP]] *)
Definition ZETA_PRECOMP_INV : list Z :=
  Eval vm_compute in loaded (map_result (fun z => pow_inv z Q) ZETA_PRECOMP).

(** A [while cond: body] loop; [None] when the fuel is used up. *)
Fixpoint while_loop {S : Type} (fuel : nat) (cond : S -> bool)
  (body : S -> result S) (s : S) : comp S :=
  if cond s then
    match fuel with
    | O => None
    | S fuel' =>
        match body s with
        | Ok s' => while_loop fuel' cond body s'
        | Raise e => Some (Raise e)
        end
    end
  else Some (Ok s).

(** [range(a, b)] *)
Definition range2 (a b : nat) : list nat := seq a (b - a).

(** One butterfly of the forward transform. *)
Definition ntt_butterfly (length : nat) (zeta : Z) (j : nat) (f_hat : list Z)
  : result (list Z) :=
  hi <- getitem f_hat (j + length) ;;
  let t := (zeta * hi) mod Q in
  lo <- getitem f_hat j ;;
  f_hat <- setitem f_hat (j + length) ((lo - t) mod Q) ;;
  lo <- getitem f_hat j ;;
  setitem f_hat j ((lo + t) mod Q).

(** Body of [for start in range(0, N, 2*length)], on the running table
    index and the coefficient list. *)
Definition ntt_block (length start : nat) (st : nat * list Z)
  : result (nat * list Z) :=
  let (k, f_hat) := st in
  zeta <- getitem ZETA_PRECOMP k ;;
  let k := (k + 1)%nat in
  f_hat <- for_each (range2 start (start + length))
             (ntt_butterfly length zeta) f_hat ;;
  Ok (k, f_hat).

Definition ntt_layer (length : nat) (st : nat * list Z)
  : result (nat * list Z) :=
  for_each (range_step 0 N (2 * length)) (ntt_block length) st.

(** The layer loops run over the state (length, (k, f)). *)
Definition ntt_body (s : nat * (nat * list Z)) : result (nat * (nat * list Z)) :=
  st <- ntt_layer (fst s) (snd s) ;;
  Ok (Nat.shiftr (fst s) 1, st).

Definition ntt_fuel : nat := 7.

Definition ntt (f : list Z) : comp (list Z) :=
  let f_hat := f in
  s <~ while_loop ntt_fuel (fun s => (2 <=? fst s)%nat) ntt_body
         (128%nat, (1%nat, f_hat)) ;;
  ret (snd (snd s)).

(** One butterfly of the inverse transform. *)
Definition ntt_inv_butterfly (length : nat) (zeta_inv : Z) (j : nat)
  (f : list Z) : result (list Z) :=
  t <- getitem f j ;;
  hi <- getitem f (j + length) ;;
  f <- setitem f j ((t + hi) mod Q) ;;
  hi <- getitem f (j + length) ;;
  setitem f (j + length) ((zeta_inv * ((hi - t) mod Q)) mod Q).

Definition ntt_inv_block (length start : nat) (st : nat * list Z)
  : result (nat * list Z) :=
  let (k, f) := st in
  zeta_inv <- getitem ZETA_PRECOMP_INV k ;;
  let k := (k - 1)%nat in
  f <- for_each (range2 start (start + length))
         (ntt_inv_butterfly length zeta_inv) f ;;
  Ok (k, f).

Definition ntt_inv_layer (length : nat) (st : nat * list Z)
  : result (nat * list Z) :=
  for_each (range_step 0 N (2 * length)) (ntt_inv_block length) st.

Definition ntt_inv_body (s : nat * (nat * list Z))
  : result (nat * (nat * list Z)) :=
  st <- ntt_inv_layer (fst s) (snd s) ;;
  Ok (Nat.shiftl (fst s) 1, st).

Definition ntt_inv (f_hat : list Z) : comp (list Z) :=
  let f := f_hat in
  s <~ while_loop ntt_fuel (fun s => (fst s <=? 128)%nat) ntt_inv_body
         (2%nat, (127%nat, f)) ;;
  let n_inv := 3303 in
  ret (map (fun x => (x * n_inv) mod Q) (snd (snd s))).

Definition base_case_multiply (a0 a1 b0 b1 gamma : Z) : Z * Z :=
  let c0 := ((a0 * b0) mod Q + ((a1 * b1) mod Q * gamma) mod Q) mod Q in
  let c1 := ((a0 * b1) mod Q + (a1 * b0) mod Q) mod Q in
  (c0, c1).

Definition multiply_ntts (f_hat g_hat : list Z) : result (list Z) :=
  let h_hat := repeat 0 N in
  for_each (range 128)
    (fun i h_hat =>
       gamma <- getitem GAMMA_PRECOMP i ;;
       f0 <- getitem f_hat (2 * i) ;;
       f1 <- getitem f_hat (2 * i + 1) ;;
       g0 <- getitem g_hat (2 * i) ;;
       g1 <- getitem g_hat (2 * i + 1) ;;
       let (h0, h1) := base_case_multiply f0 f1 g0 g1 gamma in
       h_hat <- setitem h_hat (2 * i) h0 ;;
       setitem h_hat (2 * i + 1) h1)
    h_hat.

(* ------------------------------------------------------------------ *)
(** ** key_encryption: keygen.py, encrypt.py, decrypt.py *)

Definition poly_add (a b : list Z) : list Z :=
  map (fun xy => (fst xy + snd xy) mod Q) (combine a b).

Definition ek_pke_t : Type := list Z * list Z.
Definition dk_pke_t : Type := bytes * list Z * list Z.

(** [r1] and [r2] are the two values returned by [os.urandom(32)]. *)
Definition k_pke_keygen (fuel : nat) (r1 r2 : bytes) (d eta1 eta2 : Z)
  : comp (ek_pke_t * dk_pke_t) :=
  seed_s1 <~ lift (PRF eta1 r1 [x00]) ;;
  s1 <~ lift (sample_poly_cbd eta1 seed_s1) ;;
  seed_s2 <~ lift (PRF eta2 r1 [x01]) ;;
  s2 <~ lift (sample_poly_cbd eta2 seed_s2) ;;
  let A_input := r2 ++ [x00; x00] in
  A <~ sample_ntt fuel A_input ;;
  s1_hat <~ ntt s1 ;;
  s2_hat <~ ntt s2 ;;
  product <~ lift (multiply_ntts A s1_hat) ;;
  let t_hat := poly_add product s2_hat in
  b_enc <~ lift (byte_encode t_hat d) ;;
  ret ((A, t_hat), (b_enc, s1, s2)).

Definition encode_message (m : bytes) : result (list Z) :=
  if negb (length m =? 32)%nat then
    Raise (ValueError "Message must be exactly 32 bytes (=256 bits).")
  else
    let bit_array := bytes_to_bits m in
    Ok (map (fun bit => bit mod Q) bit_array).

Definition k_pke_encrypt (ek_pke : ek_pke_t) (m r : bytes) (d eta : Z)
  : comp bytes :=
  let (A, t_hat) := ek_pke in
  y_seed <~ lift (PRF eta r [x00]) ;;
  e1_seed <~ lift (PRF eta r [x01]) ;;
  e2_seed <~ lift (PRF eta r [x02]) ;;
  y <~ lift (sample_poly_cbd eta y_seed) ;;
  e1 <~ lift (sample_poly_cbd eta e1_seed) ;;
  e2 <~ lift (sample_poly_cbd eta e2_seed) ;;
  y_hat <~ ntt y ;;
  e1_hat <~ ntt e1 ;;
  e2_hat <~ ntt e2 ;;
  A_times_y <~ lift (multiply_ntts A y_hat) ;;
  let u_hat := poly_add A_times_y e1_hat in
  t_times_y <~ lift (multiply_ntts t_hat y_hat) ;;
  let v_hat := poly_add t_times_y e2_hat in
  m_poly <~ lift (encode_message m) ;;
  m_hat <~ ntt m_poly ;;
  let v_hat := poly_add v_hat m_hat in
  u_hat_compressed <~ lift (map_result (fun coeff => compress coeff d) u_hat) ;;
  c1 <~ lift (byte_encode u_hat_compressed d) ;;
  v_hat_compressed <~ lift (map_result (fun coeff => compress coeff d) v_hat) ;;
  c2 <~ lift (byte_encode v_hat_compressed d) ;;
  ret (c1 ++ c2).

Definition decode_message (poly : list Z) (q : Z) : result bytes :=
  let bits := map (fun coeff => if coeff <? q / 2 then 0 else 1)
                  (firstn 256 poly) in
  bits_to_bytes bits.

(** The ciphertext is split at [(256 * d) // 8]; for a negative [d] the
    split point is irrelevant, [byte_decode] raises before looking at its
    input. *)
Definition k_pke_decrypt (dk_pke : dk_pke_t) (c : bytes) (d : Z)
  : comp bytes :=
  let '(_, s1, _) := dk_pke in
  let poly_bytes_len := Z.to_nat (256 * d / 8) in
  let c1 := firstn poly_bytes_len c in
  let c2 := skipn poly_bytes_len c in
  u_hat_compressed <~ lift (byte_decode c1 d) ;;
  v_hat_compressed <~ lift (byte_decode c2 d) ;;
  u_hat <~ lift (map_result (fun y => decompress y d) u_hat_compressed) ;;
  v_hat <~ lift (map_result (fun y => decompress y d) v_hat_compressed) ;;
  s1_hat <~ ntt s1 ;;
  u_s1_hat <~ lift (multiply_ntts u_hat s1_hat) ;;
  let w_hat := map (fun p => (fst p - snd p) mod 3329)
                   (combine v_hat u_s1_hat) in
  w <~ ntt_inv w_hat ;;
  m <~ lift (decode_message w 3329) ;;
  ret m.

(* ------------------------------------------------------------------ *)
(** ** ml_kem_internal: keygen.py, encaps.py, decaps.py

    The one-element tuples [ek = (ek_pke,)] and [dk = (dk_pke,)] are
    represented by their only component. *)

Definition repr_int (z : Z) : string :=
  DecimalString.NilZero.string_of_int (Z.to_int z).

Fixpoint join_comma (items : list string) : string :=
  match items with
  | [] => ""
  | [s] => s
  | s :: rest => s ++ ", " ++ join_comma rest
  end.

Definition repr_list (l : list Z) : string :=
  "[" ++ join_comma (map repr_int l) ++ "]".

(** [ek[0].__repr__().encode()] for the pair of coefficient lists. *)
Definition repr_ek_pke (ek_pke : ek_pke_t) : bytes :=
  list_byte_of_string
    ("(" ++ repr_list (fst ek_pke) ++ ", " ++ repr_list (snd ek_pke) ++ ")").

Definition ml_kem_keygen_internal (fuel : nat) (r1 r2 : bytes) (d : Z)
  : comp (ek_pke_t * dk_pke_t) :=
  keys <~ k_pke_keygen fuel r1 r2 d 2 2 ;;
  let '((A, t_hat), (b_enc, s1, s2)) := keys in
  let ek_pke := (A, t_hat) in
  let dk_pke := (b_enc, s1, s2) in
  ret (ek_pke, dk_pke).

Definition ml_kem_encaps_internal (ek : ek_pke_t) (r : bytes) (d : Z)
  : comp (bytes * bytes) :=
  let ek_pke := ek in
  let hashed_ek := H (repr_ek_pke ek) in
  let ephemeral_input := hashed_ek ++ r in
  let (k1, k2) := G ephemeral_input in
  let ephemeral_r := k1 in
  c <~ k_pke_encrypt ek_pke ephemeral_r ephemeral_r d 2 ;;
  let K := H ephemeral_r in
  ret (c, K).

Definition ml_kem_decaps_internal (dk : dk_pke_t) (c : bytes) (d : Z)
  : comp bytes :=
  let dk_pke := dk in
  ephemeral_r <~ k_pke_decrypt dk_pke c d ;;
  let K := H ephemeral_r in
  ret K.

(* ------------------------------------------------------------------ *)
(** ** Vocabulary of the statements *)

(** Reduced coefficients. *)
Definition in_Zq (x : Z) : Prop := 0 <= x < Q.

(** Length 256 with every coefficient satisfying [P]. *)
Definition ring_inv (P : Z -> Prop) (f : list Z) : Prop :=
  length f = 256%nat /\ Forall P f.

(** Every block of a layer of half-width [len] lies inside the 256
    coefficients. *)
Definition layer_fits (len : nat) : bool :=
  forallb (fun start => (start + 2 * len <=? 256)%nat) (range_step 0 N (2 * len)).

Definition is_bit (b : Z) : Prop := b = 0 \/ b = 1.

(** The [d] low bits of [x], least significant first. *)
Definition bits_of (d : nat) (x : Z) : list Z :=
  map (fun j => Z.land (Z.shiftr x (Z.of_nat j)) 1) (range d).

Definition is_octet (g : list Z) : Prop := length g = 8%nat /\ Forall is_bit g.

Definition byte_of_Z_total (z : Z) : byte :=
  match byte_of_Z z with Some b => b | None => x00 end.

(** The byte [bits_to_bytes] builds from one group of eight bits. *)
Definition pack_octet (g : list Z) : byte :=
  byte_of_Z_total (match pack_byte g 0 with Ok v => v | Raise _ => 0 end).

(** The value of the [i]-th [d]-bit chunk of a byte string. *)
Definition chunk_value (B : bytes) (dn i : nat) : Z :=
  sum_shifted (slice (bytes_to_bits B) (i * dn) ((i + 1) * dn)).

(** The two 12-bit candidates [d1], [d2] of a 3-byte chunk. *)
Definition candidate1 (C : bytes) : Z :=
  byte_val (nth 0 C x00) + 256 * Z.land (byte_val (nth 1 C x00)) 0x0F.

Definition candidate2 (C : bytes) : Z :=
  Z.shiftr (byte_val (nth 1 C x00)) 4 + 16 * byte_val (nth 2 C x00).

(** The computation ends in a ValueError. *)
Definition raises_ValueError {A : Type} (c : comp A) : Prop :=
  exists msg, c = Some (Raise (ValueError msg)).

(** The polynomial x^2. *)
Definition x_squared : list Z := 0 :: 0 :: 1 :: repeat 0 253.

(** The polynomial [sample_ntt] returns for the seed 02 00 .. 00: the two
    candidates of the first chunk, repeated. *)
Definition A_seed2 : list Z := flat_map (fun _ => [2346; 3120]) (seq 0 128).

(* ------------------------------------------------------------------ *)
(** ** auxiliary/transform/functions.py: bitrev7 *)

(** [format(i, '07b')]: the binary digits, most significant first, padded
    with zeros to seven characters, the sign counted in the width. *)
Fixpoint pos_bin (p : positive) (acc : string) : string :=
  match p with
  | xH => String "1" acc
  | xO p' => pos_bin p' (String "0" acc)
  | xI p' => pos_bin p' (String "1" acc)
  end.

Fixpoint zeros_str (n : nat) : string :=
  match n with
  | O => EmptyString
  | S n' => String "0" (zeros_str n')
  end.

Definition format_07b (i : Z) : string :=
  match i with
  | Z0 => zeros_str 6 ++ "0"
  | Zpos p =>
      let digits := pos_bin p "" in
      zeros_str (7 - String.length digits) ++ digits
  | Zneg p =>
      let digits := pos_bin p "" in
      String "-" (zeros_str (6 - String.length digits) ++ digits)
  end.

(** [s[::-1]] *)
Fixpoint str_reverse (s : string) : string :=
  match s with
  | EmptyString => EmptyString
  | String c s' => str_reverse s' ++ String c EmptyString
  end.

(** [int(s, 2)] on a string of binary digits; the strings met here hold
    nothing else but, for a negative number, a minus sign at the end, on
    which [int] raises. *)
Fixpoint int_base2_digits (s : string) (acc : Z) : result Z :=
  match s with
  | EmptyString => Ok acc
  | String c s' =>
      if Ascii.eqb c "0" then int_base2_digits s' (2 * acc)
      else if Ascii.eqb c "1" then int_base2_digits s' (2 * acc + 1)
      else Raise (ValueError "invalid literal for int() with base 2")
  end.

Definition int_base2 (s : string) : result Z :=
  match s with
  | EmptyString => Raise (ValueError "invalid literal for int() with base 2")
  | _ => int_base2_digits s 0
  end.

Definition bitrev7 (i : Z) : result Z :=
  int_base2 (str_reverse (format_07b i)).

(* ------------------------------------------------------------------ *)
(** ** ml_kem: keygen.py, encaps.py, decaps.py

    [sK] is the optional seed argument ([None] by default); [r] in
    [ml_kem_encaps] is the value [os.urandom(32)] returns. *)

Definition ml_kem_keygen (fuel : nat) (r1 r2 : bytes) (d : Z) (sK : option bytes)
  : comp (ek_pke_t * dk_pke_t) :=
  let bad_seed :=
    match sK with
    | Some s => negb (length s =? 32)%nat
    | None => false
    end in
  if bad_seed then
    Some (Raise (ValueError "Provided sK must be 32 bytes if used."))
  else
    keys <~ ml_kem_keygen_internal fuel r1 r2 d ;;
    let (ek, dk) := (keys : ek_pke_t * dk_pke_t) in
    ret (ek, dk).

Definition ml_kem_encaps (r : bytes) (ek : ek_pke_t) (d : Z)
  : comp (bytes * bytes) :=
  cK <~ ml_kem_encaps_internal ek r d ;;
  let (c, K) := (cK : bytes * bytes) in
  ret (K, c).

Definition ml_kem_decaps (dk : dk_pke_t) (c : bytes) (d : Z) : comp bytes :=
  K <~ ml_kem_decaps_internal dk c d ;;
  ret K.

(* ------------------------------------------------------------------ *)
(** ** Further vocabulary *)

(** A coefficient that stands for an integer of absolute value at most
    [eta]: one of 0 .. eta or q - eta .. q - 1. *)
Definition centered_within (eta x : Z) : Prop :=
  0 <= x <= eta \/ Q - eta <= x < Q.

(** The exception is a ValueError. *)
Definition is_ValueError (e : exn) : Prop := exists msg, e = ValueError msg.

(** The 12-bit candidates accepted from a chunk. *)
Definition accepts1 (C : bytes) : bool := candidate1 C <? Q.
Definition accepts2 (C : bytes) : bool := candidate2 C <? Q.

(** Pointwise reduction of a coefficient list. *)
Definition reduce (f : list Z) : list Z := map (fun x => x mod Q) f.

(** The transform of the constant polynomial 1. *)
Definition one_hat : list Z := flat_map (fun _ => [1; 0]) (seq 0 128).

(** [z ^ n mod Q] by repeated multiplication. *)
Fixpoint pow_mod (z : Z) (n : nat) : Z :=
  match n with
  | O => 1 mod Q
  | S n' => (z * pow_mod z n') mod Q
  end.

(** The modulus [byte_encode] and [byte_decode] use for the width [d]. *)
Definition modulus_of (d : Z) : Z := if d <? 12 then 2 ^ d else Q.

(** [sum(bit << j ...)] with the positions counted from [a]. *)
Definition shifted_sum_from (a : nat) (l : list Z) : Z :=
  fold_left Z.add
    (map (fun jb => Z.shiftl (snd jb) (Z.of_nat (fst jb)))
         (combine (seq a (length l)) l))
    0.

(** The two coefficients [multiply_ntts] writes for the pair [i]. *)
Definition product_pair (f_hat g_hat : list Z) (i : nat) : list Z :=
  let (h0, h1) :=
    base_case_multiply (nth (2 * i) f_hat 0) (nth (2 * i + 1) f_hat 0)
                       (nth (2 * i) g_hat 0) (nth (2 * i + 1) g_hat 0)
                       (nth i GAMMA_PRECOMP 0) in
  [h0; h1].

(** What the comments above the tables say of entry [i], as a check:
    [bitrev7] maps [i] to some [r] in [0, 128) and [r] back to [i],
    ZETA_PRECOMP[i] is 17^r, GAMMA_PRECOMP[i] is 17^(2r+1) up to
    reduction, and ZETA_PRECOMP_INV[i] is the reduced inverse of
    ZETA_PRECOMP[i]. *)
Definition table_entry_ok (i : nat) : bool :=
  match bitrev7 (Z.of_nat i) with
  | Ok r =>
      (0 <=? r) && (r <? 128)
      && match bitrev7 r with Ok i' => i' =? Z.of_nat i | Raise _ => false end
      && (nth i ZETA_PRECOMP 0 =? pow_mod 17 (Z.to_nat r))
      && ((nth i GAMMA_PRECOMP 0) mod Q =? pow_mod 17 (2 * Z.to_nat r + 1))
      && (0 <=? nth i ZETA_PRECOMP_INV 0) && (nth i ZETA_PRECOMP_INV 0 <? Q)
      && ((nth i ZETA_PRECOMP 0 * nth i ZETA_PRECOMP_INV 0) mod Q =? 1)
  | Raise _ => false
  end.

(** The bit [decode_message] reads off a coefficient. *)
Definition threshold_bit (q coeff : Z) : Z := if coeff <? q / 2 then 0 else 1.

(** The parameters [k_pke_encrypt] accepts. *)
Definition valid_encrypt_params (m r : bytes) (d eta : Z) : Prop :=
  (eta = 2 \/ eta = 3) /\ length r = 32%nat /\ length m = 32%nat /\ 1 <= d < 12.

(* ================================================================== *)
(** * Properties *)

(** ** hashlib test vectors (FIPS 202, empty message) *)

Example shake_128_empty :
  map byte_val (hashlib_shake_128 [] 8) = [127; 156; 43; 164; 232; 143; 130; 125].
Proof. vm_compute. reflexivity. Qed.

Example shake_256_empty :
  map byte_val (hashlib_shake_256 [] 8) = [70; 185; 221; 43; 11; 168; 141; 19].
Proof. vm_compute. reflexivity. Qed.

Example sha3_256_empty :
  map byte_val (firstn 8 (hashlib_sha3_256 [])) = [167; 255; 198; 248; 191; 30; 215; 102].
Proof. vm_compute. reflexivity. Qed.

Example sha3_512_empty :
  map byte_val (firstn 8 (hashlib_sha3_512 [])) = [166; 159; 115; 204; 162; 58; 154; 197].
Proof. vm_compute. reflexivity. Qed.

(** Inputs and outputs longer than one block (200 bytes of 61). *)
Example sha3_256_two_blocks :
  map byte_val (firstn 8 (hashlib_sha3_256 (repeat x61 200)))
  = [204; 227; 68; 133; 186; 242; 191; 42].
Proof. vm_compute. reflexivity. Qed.

Example sha3_512_three_blocks :
  map byte_val (skipn 56 (hashlib_sha3_512 (repeat x61 200)))
  = [203; 105; 95; 81; 133; 254; 54; 236].
Proof. vm_compute. reflexivity. Qed.

Example shake_256_long :
  map byte_val (skipn 292 (hashlib_shake_256 (repeat x61 200) 300))
  = [107; 92; 254; 155; 226; 111; 177; 112].
Proof. vm_compute. reflexivity. Qed.

Example shake_128_long :
  map byte_val (skipn 392 (hashlib_shake_128 (repeat x61 200) 400))
  = [194; 241; 234; 234; 67; 84; 251; 169].
Proof. vm_compute. reflexivity. Qed.

(** ** The XOF object *)

Lemma squeeze_state (xof : XOF) (n : nat) : snd (squeeze xof n) = xof.
Proof. reflexivity. Qed.

Lemma squeeze_twice (xof : XOF) (n : nat) :
  fst (squeeze (snd (squeeze xof n)) n) = fst (squeeze xof n).
Proof. reflexivity. Qed.

Lemma squeeze_absorbed (data : bytes) (n : nat) :
  fst (squeeze (absorb XOF_init data) n) = shake128 data n.
Proof. reflexivity. Qed.

Lemma shake128_zero_seed_6 :
  map byte_val (shake128 (zero_bytes 34) 6) = [73; 223; 217; 128; 155; 188].
Proof. vm_compute. reflexivity. Qed.

Lemma shake128_zero_seed_3 :
  shake128 (zero_bytes 34) 3 = [x49; xdf; xd9].
Proof. vm_compute. reflexivity. Qed.

(** C2.  After absorbing 34 zero bytes, two successive [squeeze(3)] calls
    return the same three bytes: the second call re-emits the start of the
    SHAKE128 stream instead of continuing it, so the two outputs together
    are not the first six bytes of the stream. *)
Theorem xof_squeeze_restarts_stream :
  let xof := absorb XOF_init (zero_bytes 34) in
  let out1 := fst (squeeze xof 3) in
  let xof1 := snd (squeeze xof 3) in
  let out2 := fst (squeeze xof1 3) in
  out1 = [x49; xdf; xd9] /\ out2 = out1 /\
  out1 ++ out2 <> shake128 (zero_bytes 34) 6.
Proof.
  cbv zeta. rewrite squeeze_state, squeeze_absorbed.
  rewrite shake128_zero_seed_3. repeat split.
  intro E. apply (f_equal (map byte_val)) in E.
  rewrite shake128_zero_seed_6 in E. discriminate E.
Qed.

(** ** The rejection loop of [sample_ntt] *)

(** When both candidates of the squeezed chunk are rejected, an iteration
    changes nothing, and neither does any later one. *)
Lemma sample_ntt_loop_stuck (xof : XOF) :
  length (fst (squeeze xof 3)) = 3%nat ->
  Q <= candidate1 (fst (squeeze xof 3)) ->
  Q <= candidate2 (fst (squeeze xof 3)) ->
  forall fuel coefficients,
    (length coefficients < 256)%nat ->
    sample_ntt_loop fuel xof coefficients = None.
Proof.
  intros HC H1 H2 fuel. induction fuel as [|fuel IH]; intros cs Hlen.
  - simpl. apply Nat.ltb_lt in Hlen. rewrite Hlen. reflexivity.
  - cbn [sample_ntt_loop]. pose proof Hlen as Hlt.
    apply Nat.ltb_lt in Hlt. rewrite Hlt.
    destruct (squeeze xof 3) as [C xof'] eqn:E.
    assert (xof' = xof) by (pose proof (squeeze_state xof 3) as S0;
                           rewrite E in S0; exact S0).
    subst xof'. cbn [fst] in HC, H1, H2.
    rewrite HC. cbn [negb Nat.eqb].
    fold (candidate1 C). fold (candidate2 C).
    replace (candidate1 C <? Q) with false by (symmetry; apply Z.ltb_ge; exact H1).
    replace (candidate2 C <? Q) with false by (symmetry; apply Z.ltb_ge; exact H2).
    cbn [andb]. apply IH. exact Hlen.
Qed.

Lemma byte_val_nonneg (b : byte) : 0 <= byte_val b.
Proof. unfold byte_val. lia. Qed.

Lemma candidate1_nonneg (C : bytes) : 0 <= candidate1 C.
Proof.
  unfold candidate1.
  pose proof (byte_val_nonneg (nth 0 C x00)).
  assert (0 <= Z.land (byte_val (nth 1 C x00)) 15)
    by (apply Z.land_nonneg; right; lia).
  lia.
Qed.

Lemma candidate2_nonneg (C : bytes) : 0 <= candidate2 C.
Proof.
  unfold candidate2.
  pose proof (byte_val_nonneg (nth 2 C x00)).
  assert (0 <= Z.shiftr (byte_val (nth 1 C x00)) 4)
    by (apply Z.shiftr_nonneg; apply byte_val_nonneg).
  lia.
Qed.

(** Whenever the loop does return, it returns 256 reduced coefficients,
    each of them one of the two candidates of the one chunk that
    [squeeze(3)] keeps returning. *)
Lemma sample_ntt_loop_returns (xof : XOF) (fuel : nat) :
  forall coefficients F,
    let C := fst (squeeze xof 3) in
    let good := fun x => in_Zq x /\ (x = candidate1 C \/ x = candidate2 C) in
    (length coefficients <= 256)%nat -> Forall good coefficients ->
    sample_ntt_loop fuel xof coefficients = ret F ->
    length F = 256%nat /\ Forall good F.
Proof.
  cbv zeta. induction fuel as [|fuel IH]; intros cs F Hlen Hcs H.
  - cbn [sample_ntt_loop] in H.
    destruct (length cs <? 256)%nat eqn:E; [discriminate|].
    apply Nat.ltb_ge in E. injection H as <-. split; [lia | exact Hcs].
  - cbn [sample_ntt_loop] in H.
    destruct (length cs <? 256)%nat eqn:E.
    2:{ apply Nat.ltb_ge in E. injection H as <-. split; [lia | exact Hcs]. }
    apply Nat.ltb_lt in E.
    destruct (squeeze xof 3) as [C xof'] eqn:ES.
    assert (xof' = xof) by (pose proof (squeeze_state xof 3) as S0;
                           rewrite ES in S0; exact S0).
    subst xof'. cbn [fst] in *.
    destruct (negb (length C =? 3)%nat); [discriminate|].
    fold (candidate1 C) in H. fold (candidate2 C) in H.
    pose proof (candidate1_nonneg C) as N1.
    pose proof (candidate2_nonneg C) as N2.
    destruct (candidate1 C <? Q) eqn:E1; cbn [andb] in H.
    + apply Z.ltb_lt in E1.
      assert (G1 : Forall (fun x => in_Zq x /\
                             (x = candidate1 C \/ x = candidate2 C))
                     (cs ++ [candidate1 C])).
      { apply Forall_app. split; [exact Hcs|].
        constructor; [|constructor]. unfold in_Zq. split; [lia | now left]. }
      destruct (length (cs ++ [candidate1 C]) =? 256)%nat eqn:E256.
      * apply Nat.eqb_eq in E256. injection H as <-. split; assumption.
      * apply Nat.eqb_neq in E256. rewrite length_app in E256. cbn in E256.
        destruct (candidate2 C <? Q) eqn:E2; cbn [andb] in H.
        -- apply Z.ltb_lt in E2.
           replace (length (cs ++ [candidate1 C]) <? 256)%nat with true in H
             by (symmetry; apply Nat.ltb_lt; rewrite length_app; cbn; lia).
           apply IH in H; [exact H | rewrite !length_app; cbn; lia |].
           apply Forall_app. split; [exact G1|].
           constructor; [|constructor]. unfold in_Zq. split; [lia | now right].
        -- apply IH in H; [exact H | rewrite length_app; cbn; lia | exact G1].
    + destruct (candidate2 C <? Q) eqn:E2; cbn [andb] in H.
      * apply Z.ltb_lt in E2.
        replace (length cs <? 256)%nat with true in H
          by (symmetry; apply Nat.ltb_lt; exact E).
        apply IH in H; [exact H | rewrite length_app; cbn; lia |].
        apply Forall_app. split; [exact Hcs|].
        constructor; [|constructor]. unfold in_Zq. split; [lia | now right].
      * apply IH in H; [exact H | lia | exact Hcs].
Qed.

Lemma sample_ntt_returns (fuel : nat) (B : bytes) (F : list Z) :
  sample_ntt fuel B = ret F ->
  length F = 256%nat /\
  Forall (fun x => in_Zq x /\
            (x = candidate1 (shake128 B 3) \/ x = candidate2 (shake128 B 3))) F.
Proof.
  unfold sample_ntt. destruct (negb (length B =? 34)%nat); [discriminate|].
  intro H.
  apply (sample_ntt_loop_returns (absorb XOF_init B) fuel [] F);
    [simpl; lia | constructor | exact H].
Qed.

(** C1.  On the 34-byte all-zero input the loop of [sample_ntt] never
    exits: every [squeeze(3)] yields the chunk 49 df d9, whose two 12-bit
    candidates 3913 and 3485 are both rejected, so no amount of fuel
    produces a result. *)
Theorem sample_ntt_zero_seed_never_returns :
  forall fuel, sample_ntt fuel (zero_bytes 34) = None.
Proof.
  intro fuel. unfold sample_ntt.
  change (length (zero_bytes 34) =? 34)%nat with true. cbn [negb].
  apply sample_ntt_loop_stuck.
  - rewrite squeeze_absorbed, shake128_zero_seed_3. reflexivity.
  - rewrite squeeze_absorbed, shake128_zero_seed_3. vm_compute. discriminate.
  - rewrite squeeze_absorbed, shake128_zero_seed_3. vm_compute. discriminate.
  - simpl. lia.
Qed.

(** ** Compress and Decompress *)

Lemma compress_ok (x d : Z) :
  1 <= d < 12 ->
  compress x d = Ok ((x * 2 ^ d / Q) mod 2 ^ d).
Proof.
  intro Hd. unfold compress.
  replace ((1 <=? d) && (d <? 12)) with true
    by (symmetry; apply andb_true_iff; split; [apply Z.leb_le|apply Z.ltb_lt]; lia).
  cbn [negb]. f_equal.
  rewrite !Z.shiftl_mul_pow2 by lia. rewrite Z.mul_1_l.
  replace (2 ^ d - 1) with (Z.ones d) by (rewrite Z.ones_equiv; lia).
  apply Z.land_ones. lia.
Qed.

Lemma decompress_ok (y d : Z) :
  1 <= d < 12 ->
  decompress y d = Ok ((y * Q + 2 ^ (d - 1)) / 2 ^ d).
Proof.
  intro Hd. unfold decompress.
  replace ((1 <=? d) && (d <? 12)) with true
    by (symmetry; apply andb_true_iff; split; [apply Z.leb_le|apply Z.ltb_lt]; lia).
  cbn [negb]. f_equal.
  rewrite Z.shiftr_div_pow2 by lia.
  rewrite Z.shiftl_mul_pow2 by lia. rewrite Z.mul_1_l. reflexivity.
Qed.

Lemma compress_rejects (x d : Z) :
  ~ (1 <= d < 12) ->
  compress x d = Raise (ValueError "d must be 1 <= d < 12").
Proof.
  intro Hd. unfold compress.
  replace ((1 <=? d) && (d <? 12)) with false; [reflexivity|].
  symmetry. apply andb_false_iff.
  destruct (Z.leb_spec 1 d); [right; apply Z.ltb_ge; lia | left; reflexivity].
Qed.

Lemma decompress_rejects (y d : Z) :
  ~ (1 <= d < 12) ->
  decompress y d = Raise (ValueError "d must be 1 <= d < 12").
Proof.
  intro Hd. unfold decompress.
  replace ((1 <=? d) && (d <? 12)) with false; [reflexivity|].
  symmetry. apply andb_false_iff.
  destruct (Z.leb_spec 1 d); [right; apply Z.ltb_ge; lia | left; reflexivity].
Qed.

(** Decompressing a d-bit value lands in Z_q. *)
Lemma decompress_in_Zq (y d : Z) :
  1 <= d < 12 -> 0 <= y < 2 ^ d ->
  exists x, decompress y d = Ok x /\ in_Zq x.
Proof.
  intros Hd Hy. rewrite decompress_ok by exact Hd.
  eexists; split; [reflexivity|]. unfold in_Zq, Q.
  assert (Hp : 2 ^ d = 2 * 2 ^ (d - 1)).
  { replace d with (Z.succ (d - 1)) at 1 by lia. apply Z.pow_succ_r. lia. }
  assert (Hpos : 0 < 2 ^ (d - 1)) by (apply Z.pow_pos_nonneg; lia).
  assert (Hle : 2 ^ (d - 1) <= 2 ^ 10) by (apply Z.pow_le_mono_r; lia).
  change (2 ^ 10) with 1024 in Hle.
  split.
  - apply Z.div_pos; nia.
  - apply Z.div_lt_upper_bound; nia.
Qed.

(** C7.  For every x in [0, 3329), compressing to 10 bits and decompressing
    again succeeds, the result x' is again a coefficient in [0, 3329), and
    the distance between x' and x taken modulo q, the smaller of |x' - x|
    and q - |x' - x|, is at most 5.  With both numbers in [0, q) that
    minimum is the cyclic distance: it is also the smaller of the two
    residues (x' - x) mod q and (x - x') mod q. *)
Theorem compress_decompress_error_d10 (x : Z) :
  0 <= x < 3329 ->
  exists y x',
    compress x 10 = Ok y /\ decompress y 10 = Ok x' /\
    0 <= x' < Q /\
    0 <= Z.min (Z.abs (x' - x)) (Q - Z.abs (x' - x)) <= 5 /\
    Z.min ((x' - x) mod Q) ((x - x') mod Q)
    = Z.min (Z.abs (x' - x)) (Q - Z.abs (x' - x)).
Proof.
  intro Hx.
  exists ((x * 2 ^ 10 / Q) mod 2 ^ 10).
  exists ((((x * 2 ^ 10 / Q) mod 2 ^ 10) * Q + 2 ^ (10 - 1)) / 2 ^ 10).
  split; [apply compress_ok; lia|].
  split; [apply decompress_ok; lia|].
  unfold Q. change (2 ^ 10) with 1024. change (2 ^ (10 - 1)) with 512.
  assert (Hy : 0 <= x * 1024 / 3329 < 1024).
  { split; [apply Z.div_pos; lia | apply Z.div_lt_upper_bound; lia]. }
  rewrite (Z.mod_small _ 1024) by exact Hy.
  set (x' := (x * 1024 / 3329 * 3329 + 512) / 1024).
  assert (Hx' : x - 3 <= x' <= x).
  { unfold x'. Z.div_mod_to_equations. lia. }
  assert (Hlo : 0 <= x').
  { unfold x'. apply Z.div_pos; lia. }
  split; [lia|]. split; [lia|].
  destruct (Z.eq_dec x' x) as [E|E].
  - rewrite E, Z.sub_diag. reflexivity.
  - assert (R1 : (x' - x) mod 3329 = x' - x + 3329).
    { symmetry. apply (Z.mod_unique _ _ (-1)); lia. }
    assert (R2 : (x - x') mod 3329 = x - x') by (apply Z.mod_small; lia).
    rewrite R1, R2. lia.
Qed.

Lemma compress_decompress_error_d10_witness :
  0 <= 1234 < 3329 /\
  exists y x',
    compress 1234 10 = Ok y /\ decompress y 10 = Ok x' /\
    0 <= x' < Q /\
    0 <= Z.min (Z.abs (x' - 1234)) (Q - Z.abs (x' - 1234)) <= 5 /\
    Z.min ((x' - 1234) mod Q) ((1234 - x') mod Q)
    = Z.min (Z.abs (x' - 1234)) (Q - Z.abs (x' - 1234)).
Proof.
  split; [lia | apply (compress_decompress_error_d10 1234); lia].
Defined.

(** With d = 10 the round trip never overshoots and loses at most 3. *)
Lemma compress_decompress_d10_within_3 (x : Z) :
  0 <= x < 3329 ->
  exists y x',
    compress x 10 = Ok y /\ decompress y 10 = Ok x' /\ x - 3 <= x' <= x.
Proof.
  intro Hx. do 2 eexists.
  split; [apply compress_ok; lia|].
  split; [apply decompress_ok; lia|].
  unfold Q. change (2 ^ 10) with 1024. change (2 ^ (10 - 1)) with 512.
  assert (Hy : 0 <= x * 1024 / 3329 < 1024).
  { split; [apply Z.div_pos; lia | apply Z.div_lt_upper_bound; lia]. }
  rewrite (Z.mod_small _ 1024) by exact Hy.
  Z.div_mod_to_equations. lia.
Qed.

(** The round trip is not exact. *)
Example compress_decompress_lossy :
  (y <- compress 1234 10 ;; decompress y 10) = Ok 1232.
Proof. reflexivity. Qed.

(** ** Lists, indexing and loops *)

Lemma Ok_inj {A : Type} (a b : A) : Ok a = Ok b -> a = b.
Proof. intro E. injection E as E. exact E. Qed.

Lemma replace_nth_length {A : Type} (l : list A) (i : nat) (v : A) :
  length (replace_nth l i v) = length l.
Proof.
  revert i; induction l as [|x l IH]; intros [|i]; simpl; try reflexivity.
  now rewrite IH.
Qed.

Lemma replace_nth_Forall {A : Type} (P : A -> Prop) (l : list A) (i : nat) (v : A) :
  Forall P l -> P v -> Forall P (replace_nth l i v).
Proof.
  intros Hl Hv. revert i. induction Hl as [|x l Hx Hl IH]; intros [|i]; simpl;
    constructor; auto.
Qed.

Lemma replace_nth_app {A : Type} (l1 l2 : list A) (x v : A) :
  replace_nth (l1 ++ x :: l2) (length l1) v = l1 ++ v :: l2.
Proof. induction l1 as [|y l1 IH]; simpl; [reflexivity | now rewrite IH]. Qed.

Lemma getitem_ok (l : list Z) (i : nat) :
  (i < length l)%nat -> getitem l i = Ok (nth i l 0).
Proof.
  intro Hi. unfold getitem.
  destruct (nth_error l i) as [x|] eqn:E.
  - f_equal. symmetry. apply nth_error_nth. exact E.
  - apply nth_error_None in E. lia.
Qed.

Lemma setitem_ok (l : list Z) (i : nat) (v : Z) :
  (i < length l)%nat -> setitem l i v = Ok (replace_nth l i v).
Proof.
  intro Hi. unfold setitem. apply Nat.ltb_lt in Hi. now rewrite Hi.
Qed.

Lemma for_each_app {X S : Type} (xs ys : list X) (body : X -> S -> result S) (s : S) :
  for_each (xs ++ ys) body s = (s' <- for_each xs body s ;; for_each ys body s').
Proof.
  revert s; induction xs as [|x xs IH]; intro s; simpl; [reflexivity|].
  destruct (body x s); simpl; [apply IH | reflexivity].
Qed.

Lemma for_each_ext {X S : Type} (xs : list X) (f g : X -> S -> result S) (s : S) :
  (forall x s', In x xs -> f x s' = g x s') ->
  for_each xs f s = for_each xs g s.
Proof.
  revert s; induction xs as [|x xs IH]; intros s Hfg; simpl; [reflexivity|].
  rewrite Hfg by (left; reflexivity).
  destruct (g x s); simpl; [|reflexivity].
  apply IH. intros; apply Hfg; now right.
Qed.

(** A loop whose body keeps an invariant, on indices it can handle,
    completes and keeps the invariant. *)
Lemma for_each_invariant {X S : Type} (Inv : S -> Prop) (Dom : X -> Prop)
  (body : X -> S -> result S) :
  (forall x s, Dom x -> Inv s -> exists s', body x s = Ok s' /\ Inv s') ->
  forall xs s, Forall Dom xs -> Inv s ->
    exists s', for_each xs body s = Ok s' /\ Inv s'.
Proof.
  intros Hbody xs. induction xs as [|x xs IH]; intros s Hxs Hs; simpl.
  - exists s; split; [reflexivity | exact Hs].
  - inversion Hxs as [|? ? Hx Hxs']; subst.
    destruct (Hbody x s Hx Hs) as [s1 [E1 I1]]. rewrite E1. simpl.
    apply IH; assumption.
Qed.

Lemma map_result_ok {X Y : Type} (g : X -> result Y) (h : X -> Y) (xs : list X) :
  (forall x, In x xs -> g x = Ok (h x)) ->
  map_result g xs = Ok (map h xs).
Proof.
  induction xs as [|x xs IH]; intro Hg; simpl; [reflexivity|].
  rewrite Hg by (left; reflexivity). simpl.
  rewrite IH by (intros; apply Hg; now right). reflexivity.
Qed.

Lemma map_result_raise {X Y : Type} (g : X -> result Y) (e : exn) (x : X) (xs : list X) :
  g x = Raise e -> map_result g (x :: xs) = Raise e.
Proof. intro E. simpl. rewrite E. reflexivity. Qed.

Lemma range2_Forall (a b : nat) (P : nat -> Prop) :
  (forall j, (a <= j < b)%nat -> P j) -> Forall P (range2 a b).
Proof.
  intro H. apply Forall_forall. intros j Hj. apply H.
  unfold range2 in Hj. apply in_seq in Hj. lia.
Qed.

Lemma while_loop_step {S : Type} (fuel : nat) (cond : S -> bool)
  (body : S -> result S) (s s' : S) :
  cond s = true -> body s = Ok s' ->
  while_loop (Datatypes.S fuel) cond body s = while_loop fuel cond body s'.
Proof. intros Hc Hb. simpl. rewrite Hc, Hb. reflexivity. Qed.

Lemma while_loop_exit {S : Type} (fuel : nat) (cond : S -> bool)
  (body : S -> result S) (s : S) :
  cond s = false -> while_loop fuel cond body s = Some (Ok s).
Proof. intro Hc. destruct fuel; simpl; rewrite Hc; reflexivity. Qed.

(** ** The transforms keep length and coefficient range

    [P] is any property of coefficients that every reduced value has:
    with [P] trivial the lemmas say the transforms succeed on every list
    of 256 integers, with [P := in_Zq] that their outputs are reduced. *)

Section RingInvariant.

Variable P : Z -> Prop.
Hypothesis P_mod : forall z, P (z mod Q).

Lemma ntt_butterfly_inv (len : nat) (zeta : Z) (j : nat) (f : list Z) :
  (j + len < 256)%nat -> ring_inv P f ->
  exists f', ntt_butterfly len zeta j f = Ok f' /\ ring_inv P f'.
Proof.
  intros Hj [Hlen HP]. unfold ntt_butterfly.
  rewrite (getitem_ok f (j + len)) by lia. cbn [bind].
  rewrite (getitem_ok f j) by lia. cbn [bind].
  rewrite setitem_ok by lia. cbn [bind].
  rewrite getitem_ok by (rewrite replace_nth_length; lia). cbn [bind].
  rewrite setitem_ok by (rewrite replace_nth_length; lia).
  eexists; split; [reflexivity|]. split.
  - now rewrite !replace_nth_length.
  - apply replace_nth_Forall; [apply replace_nth_Forall|]; auto.
Qed.

Lemma ntt_inv_butterfly_inv (len : nat) (zeta_inv : Z) (j : nat) (f : list Z) :
  (j + len < 256)%nat -> ring_inv P f ->
  exists f', ntt_inv_butterfly len zeta_inv j f = Ok f' /\ ring_inv P f'.
Proof.
  intros Hj [Hlen HP]. unfold ntt_inv_butterfly.
  rewrite (getitem_ok f j) by lia. cbn [bind].
  rewrite (getitem_ok f (j + len)) by lia. cbn [bind].
  rewrite setitem_ok by lia. cbn [bind].
  rewrite getitem_ok by (rewrite replace_nth_length; lia). cbn [bind].
  rewrite setitem_ok by (rewrite replace_nth_length; lia).
  eexists; split; [reflexivity|]. split.
  - now rewrite !replace_nth_length.
  - apply replace_nth_Forall; [apply replace_nth_Forall|]; auto.
Qed.

(** The block loop of one forward layer: the table index advances by one
    per block and stays inside the table. *)
Lemma ntt_blocks_inv (len : nat) (starts : list nat) :
  Forall (fun start => (start + 2 * len <= 256)%nat) starts ->
  forall k f,
    (k + length starts <= 128)%nat -> ring_inv P f ->
    exists f',
      for_each starts (ntt_block len) (k, f)
        = Ok ((k + length starts)%nat, f') /\ ring_inv P f'.
Proof.
  induction 1 as [|start starts Hs Hrest IH]; intros k f Hk Hf.
  - exists f. simpl. rewrite Nat.add_0_r. split; [reflexivity | exact Hf].
  - simpl in Hk. cbn [for_each]. unfold ntt_block at 1.
    rewrite (getitem_ok ZETA_PRECOMP k) by (change (length ZETA_PRECOMP) with 128%nat; lia).
    cbn [bind].
    destruct (for_each_invariant (ring_inv P) (fun j => (j + len < 256)%nat)
                (ntt_butterfly len (nth k ZETA_PRECOMP 0))
                (fun j s Hj Hs' => ntt_butterfly_inv len _ j s Hj Hs')
                (range2 start (start + len)) f) as [f1 [E1 I1]].
    { apply range2_Forall. intros; lia. }
    { exact Hf. }
    rewrite E1. cbn [bind].
    destruct (IH (k + 1)%nat f1) as [f2 [E2 I2]]; [lia | exact I1 |].
    exists f2. split; [|exact I2].
    rewrite E2. do 2 f_equal. simpl. lia.
Qed.

Lemma ntt_inv_blocks_inv (len : nat) (starts : list nat) :
  Forall (fun start => (start + 2 * len <= 256)%nat) starts ->
  forall k f,
    (length starts <= k < 128)%nat -> ring_inv P f ->
    exists f',
      for_each starts (ntt_inv_block len) (k, f)
        = Ok ((k - length starts)%nat, f') /\ ring_inv P f'.
Proof.
  induction 1 as [|start starts Hs Hrest IH]; intros k f Hk Hf.
  - exists f. simpl. rewrite Nat.sub_0_r. split; [reflexivity | exact Hf].
  - simpl in Hk. cbn [for_each]. unfold ntt_inv_block at 1.
    rewrite (getitem_ok ZETA_PRECOMP_INV k)
      by (change (length ZETA_PRECOMP_INV) with 128%nat; lia).
    cbn [bind].
    destruct (for_each_invariant (ring_inv P) (fun j => (j + len < 256)%nat)
                (ntt_inv_butterfly len (nth k ZETA_PRECOMP_INV 0))
                (fun j s Hj Hs' => ntt_inv_butterfly_inv len _ j s Hj Hs')
                (range2 start (start + len)) f) as [f1 [E1 I1]].
    { apply range2_Forall. intros; lia. }
    { exact Hf. }
    rewrite E1. cbn [bind].
    destruct (IH (k - 1)%nat f1) as [f2 [E2 I2]]; [lia | exact I1 |].
    exists f2. split; [|exact I2].
    rewrite E2. do 2 f_equal. simpl. lia.
Qed.

End RingInvariant.

Lemma layer_fits_Forall (len : nat) :
  layer_fits len = true ->
  Forall (fun start => (start + 2 * len <= 256)%nat) (range_step 0 N (2 * len)).
Proof.
  intro H. apply Forall_forall. intros x Hx.
  unfold layer_fits in H. rewrite forallb_forall in H.
  apply Nat.leb_le. apply H. exact Hx.
Qed.

Section Transforms.

Variable P : Z -> Prop.
Hypothesis P_mod : forall z, P (z mod Q).

Lemma ntt_body_inv (len len' k k' : nat) (f : list Z) :
  layer_fits len = true ->
  len' = Nat.shiftr len 1 ->
  k' = (k + length (range_step 0 N (2 * len)))%nat ->
  (k' <=? 128)%nat = true ->
  ring_inv P f ->
  exists f', ntt_body (len, (k, f)) = Ok (len', (k', f')) /\ ring_inv P f'.
Proof.
  intros Hfit -> -> Hk Hf. apply Nat.leb_le in Hk.
  destruct (ntt_blocks_inv P P_mod len _ (layer_fits_Forall len Hfit) k f Hk Hf)
    as [f' [E I]].
  exists f'. split; [|exact I].
  unfold ntt_body, ntt_layer. cbn [fst snd]. rewrite E. reflexivity.
Qed.

Lemma ntt_inv_body_inv (len len' k k' : nat) (f : list Z) :
  layer_fits len = true ->
  len' = Nat.shiftl len 1 ->
  k' = (k - length (range_step 0 N (2 * len)))%nat ->
  (length (range_step 0 N (2 * len)) <=? k)%nat && (k <? 128)%nat = true ->
  ring_inv P f ->
  exists f', ntt_inv_body (len, (k, f)) = Ok (len', (k', f')) /\ ring_inv P f'.
Proof.
  intros Hfit -> -> Hk Hf. apply andb_true_iff in Hk as [Hk1 Hk2].
  apply Nat.leb_le in Hk1. apply Nat.ltb_lt in Hk2.
  destruct (ntt_inv_blocks_inv P P_mod len _ (layer_fits_Forall len Hfit) k f
              (conj Hk1 Hk2) Hf) as [f' [E I]].
  exists f'. split; [|exact I].
  unfold ntt_inv_body, ntt_inv_layer. cbn [fst snd]. rewrite E. reflexivity.
Qed.

Ltac layer_step lem len len' k k' Hf f' :=
  let E := fresh "E" in
  let I := fresh "I" in
  destruct (lem len len' k k' _ eq_refl eq_refl eq_refl eq_refl Hf) as [f' [E I]];
  rewrite (while_loop_step _ _ _ _ _ eq_refl E); clear E.

(** The forward transform runs its seven layers (lengths 128 down to 2,
    table indices 1 to 127) and returns. *)
Lemma ntt_inv_ring (f : list Z) :
  ring_inv P f -> exists f', ntt f = ret f' /\ ring_inv P f'.
Proof.
  intro H0. unfold ntt, ntt_fuel.
  layer_step ntt_body_inv 128%nat 64%nat 1%nat 2%nat H0 f1.
  layer_step ntt_body_inv 64%nat 32%nat 2%nat 4%nat I f2.
  layer_step ntt_body_inv 32%nat 16%nat 4%nat 8%nat I0 f3.
  layer_step ntt_body_inv 16%nat 8%nat 8%nat 16%nat I1 f4.
  layer_step ntt_body_inv 8%nat 4%nat 16%nat 32%nat I2 f5.
  layer_step ntt_body_inv 4%nat 2%nat 32%nat 64%nat I3 f6.
  layer_step ntt_body_inv 2%nat 1%nat 64%nat 128%nat I4 f7.
  rewrite while_loop_exit by reflexivity.
  exists f7. split; [reflexivity | assumption].
Qed.

(** The inverse transform runs its seven layers (lengths 2 up to 128,
    table indices 127 down to 1), scales, and returns. *)
Lemma ntt_inv_inv_ring (f_hat : list Z) :
  ring_inv P f_hat -> exists f, ntt_inv f_hat = ret f /\ ring_inv P f.
Proof.
  intro H0. unfold ntt_inv, ntt_fuel.
  layer_step ntt_inv_body_inv 2%nat 4%nat 127%nat 63%nat H0 f1.
  layer_step ntt_inv_body_inv 4%nat 8%nat 63%nat 31%nat I f2.
  layer_step ntt_inv_body_inv 8%nat 16%nat 31%nat 15%nat I0 f3.
  layer_step ntt_inv_body_inv 16%nat 32%nat 15%nat 7%nat I1 f4.
  layer_step ntt_inv_body_inv 32%nat 64%nat 7%nat 3%nat I2 f5.
  layer_step ntt_inv_body_inv 64%nat 128%nat 3%nat 1%nat I3 f6.
  layer_step ntt_inv_body_inv 128%nat 256%nat 1%nat 0%nat I4 f7.
  rewrite while_loop_exit by reflexivity.
  eexists. split; [reflexivity|].
  destruct I5 as [L5 _]. split.
  - cbn [snd]. rewrite length_map. exact L5.
  - cbn [snd]. apply Forall_forall. intros x Hx.
    apply in_map_iff in Hx as [y [<- _]]. apply P_mod.
Qed.

Lemma multiply_ntts_inv_ring (f_hat g_hat : list Z) :
  (256 <= length f_hat)%nat -> (256 <= length g_hat)%nat -> P 0 ->
  exists h_hat, multiply_ntts f_hat g_hat = Ok h_hat /\ ring_inv P h_hat.
Proof.
  intros Lf Lg P0. unfold multiply_ntts.
  apply (for_each_invariant (ring_inv P) (fun i => (i < 128)%nat)).
  - intros i h Hi [Lh Ph].
    rewrite (getitem_ok GAMMA_PRECOMP i)
      by (change (length GAMMA_PRECOMP) with 128%nat; lia).
    cbn [bind].
    rewrite !getitem_ok by lia. cbn [bind].
    unfold base_case_multiply.
    rewrite setitem_ok by lia. cbn [bind].
    rewrite setitem_ok by (rewrite replace_nth_length; lia).
    eexists; split; [reflexivity|]. split.
    + now rewrite !replace_nth_length.
    + apply replace_nth_Forall; [apply replace_nth_Forall|]; auto.
  - apply Forall_forall. intros i Hi. apply in_seq in Hi. lia.
  - split; [reflexivity|]. apply Forall_forall. intros x Hx.
    apply repeat_spec in Hx. now subst.
Qed.

Lemma base_case_multiply_mod (a0 a1 b0 b1 gamma : Z) :
  P (fst (base_case_multiply a0 a1 b0 b1 gamma)) /\
  P (snd (base_case_multiply a0 a1 b0 b1 gamma)).
Proof. split; apply P_mod. Qed.

Lemma poly_add_inv_ring (a b : list Z) :
  length a = 256%nat -> length b = 256%nat -> ring_inv P (poly_add a b).
Proof.
  intros La Lb. unfold poly_add. split.
  - rewrite length_map, length_combine. lia.
  - apply Forall_forall. intros x Hx.
    apply in_map_iff in Hx as [y [<- _]]. apply P_mod.
Qed.

End Transforms.

Lemma in_Zq_mod (z : Z) : in_Zq (z mod Q).
Proof. unfold in_Zq. apply Z.mod_pos_bound. reflexivity. Qed.

Lemma ring_inv_True (f : list Z) : length f = 256%nat -> ring_inv (fun _ => True) f.
Proof. intro L. split; [exact L|]. apply Forall_forall. intros; exact I. Qed.

(** The table of inverses holds what [pow(z, -1, Q)] returns: the inverse
    of each forward entry, reduced. *)
Lemma ZETA_PRECOMP_INV_spec :
  Forall2 (fun z zi => 0 <= zi < Q /\ (z * zi) mod Q = 1)
          ZETA_PRECOMP ZETA_PRECOMP_INV.
Proof. repeat constructor; try discriminate; reflexivity. Qed.

(** C5.  The polynomial x^2 (256 coefficients, all in [0, q)) is not
    recovered: [ntt_inv(ntt(f))] returns -x^254, that is 3328 at index 254
    and 0 elsewhere. *)
Theorem ntt_inv_ntt_x_squared :
  length x_squared = 256%nat /\ Forall in_Zq x_squared /\
  (f_hat <~ ntt x_squared ;; ntt_inv f_hat) = ret (repeat 0 254 ++ [3328; 0]) /\
  repeat 0 254 ++ [3328; 0] <> x_squared.
Proof.
  split; [reflexivity|]. split.
  { apply Forall_forall. intros x Hx. unfold in_Zq, Q.
    destruct Hx as [<-|[<-|[<-|Hx]]]; try lia.
    apply repeat_spec in Hx. lia. }
  split; [vm_compute; reflexivity | discriminate].
Qed.

(** The only input of the module's own test, x + 1, does come back. *)
Example ntt_inv_ntt_x_plus_1 :
  (f_hat <~ ntt (1 :: 1 :: repeat 0 254) ;; ntt_inv f_hat)
  = ret (1 :: 1 :: repeat 0 254).
Proof. vm_compute. reflexivity. Qed.

(** C6, as stated, fails for [decompress]: 256 coefficients in [0, q) that
    are not 10-bit values decompress, with d = 10, to values outside
    [0, q). *)
Lemma decompress_leaves_Zq :
  Forall in_Zq (repeat 2048 256) /\
  map_result (fun y => decompress y 10) (repeat 2048 256) = Ok (repeat 6658 256) /\
  ~ Forall in_Zq (repeat 6658 256).
Proof.
  split.
  { apply Forall_forall. intros x Hx. apply repeat_spec in Hx. subst.
    unfold in_Zq, Q. lia. }
  split; [vm_compute; reflexivity|].
  intro H. inversion H as [|? ? H0 _]. unfold in_Zq, Q in H0. lia.
Qed.

(** C6 (amended).  On ring elements (256 coefficients in [0, q)), [ntt],
    [ntt_inv], [multiply_ntts] and [poly_add] return 256 coefficients in
    [0, q); [decompress] with d in [1, 11] maps 256 d-bit values to 256
    coefficients in [0, q). *)
Theorem ring_operations_stay_in_Zq (f g : list Z) :
  length f = 256%nat -> Forall in_Zq f ->
  length g = 256%nat -> Forall in_Zq g ->
  (exists f_hat, ntt f = ret f_hat /\ length f_hat = 256%nat /\ Forall in_Zq f_hat) /\
  (exists f', ntt_inv f = ret f' /\ length f' = 256%nat /\ Forall in_Zq f') /\
  (exists h, multiply_ntts f g = Ok h /\ length h = 256%nat /\ Forall in_Zq h) /\
  (length (poly_add f g) = 256%nat /\ Forall in_Zq (poly_add f g)) /\
  (forall d ys, 1 <= d <= 11 -> length ys = 256%nat ->
     Forall (fun y => 0 <= y < 2 ^ d) ys ->
     exists xs, map_result (fun y => decompress y d) ys = Ok xs /\
                length xs = 256%nat /\ Forall in_Zq xs).
Proof.
  intros Lf Pf Lg Pg.
  split; [apply (ntt_inv_ring in_Zq in_Zq_mod f); now split|].
  split; [apply (ntt_inv_inv_ring in_Zq in_Zq_mod f); now split|].
  split.
  { apply (multiply_ntts_inv_ring in_Zq in_Zq_mod); try lia.
    unfold in_Zq, Q; lia. }
  split; [apply (poly_add_inv_ring in_Zq in_Zq_mod); assumption|].
  intros d ys Hd Lys Hys.
  exists (map (fun y => (y * Q + 2 ^ (d - 1)) / 2 ^ d) ys). split.
  - apply map_result_ok. intros y _. apply decompress_ok. lia.
  - split; [now rewrite length_map|].
    apply Forall_forall. intros x Hx. apply in_map_iff in Hx as [y [<- Hy]].
    rewrite Forall_forall in Hys.
    destruct (decompress_in_Zq y d) as [x [E Hx]]; [lia | auto |].
    rewrite decompress_ok in E by lia. injection E as <-. exact Hx.
Qed.

Lemma ring_operations_stay_in_Zq_witness :
  let f := repeat 1 256 in
  let g := repeat 2 256 in
  (exists f_hat, ntt f = ret f_hat /\ length f_hat = 256%nat /\ Forall in_Zq f_hat) /\
  (exists f', ntt_inv f = ret f' /\ length f' = 256%nat /\ Forall in_Zq f') /\
  (exists h, multiply_ntts f g = Ok h /\ length h = 256%nat /\ Forall in_Zq h) /\
  (length (poly_add f g) = 256%nat /\ Forall in_Zq (poly_add f g)) /\
  (forall d ys, 1 <= d <= 11 -> length ys = 256%nat ->
     Forall (fun y => 0 <= y < 2 ^ d) ys ->
     exists xs, map_result (fun y => decompress y d) ys = Ok xs /\
                length xs = 256%nat /\ Forall in_Zq xs).
Proof.
  assert (HF : forall v, 0 <= v < Q -> Forall in_Zq (repeat v 256)).
  { intros v Hv. apply Forall_forall. intros x Hx.
    apply repeat_spec in Hx. subst. exact Hv. }
  apply (ring_operations_stay_in_Zq (repeat 1 256) (repeat 2 256)).
  - reflexivity.
  - apply HF. unfold Q. lia.
  - reflexivity.
  - apply HF. unfold Q. lia.
Defined.

(** ** Bits and bytes *)

Lemma land_1_mod (a : Z) : Z.land a 1 = a mod 2.
Proof. change 1 with (Z.ones 1) at 1. rewrite Z.land_ones by lia. reflexivity. Qed.

Lemma bits_of_length (d : nat) (x : Z) : length (bits_of d x) = d.
Proof. unfold bits_of, range. now rewrite length_map, length_seq. Qed.

Lemma bits_of_is_bit (d : nat) (x : Z) : Forall is_bit (bits_of d x).
Proof.
  apply Forall_forall. intros b Hb. unfold bits_of in Hb.
  apply in_map_iff in Hb as [j [<- _]]. rewrite land_1_mod.
  unfold is_bit. pose proof (Z.mod_pos_bound (Z.shiftr x (Z.of_nat j)) 2). lia.
Qed.

Lemma bytes_to_bits_flat (data : bytes) :
  bytes_to_bits data = flat_map (fun b => bits_of 8 (byte_val b)) data.
Proof. reflexivity. Qed.

Lemma flat_map_uniform_length {A : Type} (h : A -> list Z) (n : nat) (l : list A) :
  (forall a, length (h a) = n) -> length (flat_map h l) = (length l * n)%nat.
Proof.
  intro Hh. induction l as [|a l IH]; simpl; [reflexivity|].
  rewrite length_app, Hh, IH. reflexivity.
Qed.

Lemma bytes_to_bits_length (data : bytes) :
  length (bytes_to_bits data) = (length data * 8)%nat.
Proof.
  rewrite bytes_to_bits_flat. apply flat_map_uniform_length.
  intro; apply bits_of_length.
Qed.

Lemma byte_of_Z_val (b : byte) : byte_of_Z (byte_val b) = Some b.
Proof. destruct b; reflexivity. Qed.

Lemma fold_add_shift (l : list Z) (a : Z) :
  fold_left Z.add l a = a + fold_left Z.add l 0.
Proof.
  revert a. induction l as [|x l IH]; intro a; simpl; [lia|].
  rewrite (IH (a + x)), (IH x). lia.
Qed.

Lemma combine_seq_map {A : Type} (g : nat -> A) (a n : nat) :
  combine (seq a n) (map g (seq a n)) = map (fun j => (j, g j)) (seq a n).
Proof.
  revert a. induction n as [|n IH]; intro a; simpl; [reflexivity|].
  now rewrite IH.
Qed.

(** Reading back the [d] low bits of [x] gives [x mod 2^d]. *)
Lemma sum_shifted_bits_of (d : nat) (x : Z) :
  sum_shifted (bits_of d x) = x mod 2 ^ Z.of_nat d.
Proof.
  unfold sum_shifted. rewrite bits_of_length. unfold bits_of, range.
  rewrite combine_seq_map, map_map. cbn [fst snd].
  induction d as [|d IH].
  - simpl. now rewrite Z.mod_1_r.
  - rewrite seq_S, map_app, fold_left_app. cbn [map fold_left Nat.add].
    rewrite IH. rewrite Z.shiftl_mul_pow2 by lia.
    rewrite Z.shiftr_div_pow2 by lia. rewrite land_1_mod.
    rewrite Nat2Z.inj_succ, Z.pow_succ_r by lia.
    rewrite (Z.mul_comm 2).
    rewrite (Z.rem_mul_r x (2 ^ Z.of_nat d) 2) by lia. lia.
Qed.

Lemma concat_octets_length (gs : list (list Z)) :
  Forall is_octet gs -> length (concat gs) = (length gs * 8)%nat.
Proof.
  induction 1 as [|g gs [Hg _] _ IH]; simpl; [reflexivity|].
  rewrite length_app, Hg, IH. reflexivity.
Qed.

(** A bit list of length 8 n splits into n groups of eight. *)
Lemma split_octets (n : nat) (bits : list Z) :
  length bits = (n * 8)%nat -> Forall is_bit bits ->
  exists gs, bits = concat gs /\ length gs = n /\ Forall is_octet gs.
Proof.
  revert bits. induction n as [|n IH]; intros bits Hlen Hb.
  - destruct bits; [|discriminate]. exists []. repeat split; constructor.
  - pose proof Hb as Hb'. rewrite <- (firstn_skipn 8 bits) in Hb'.
    apply Forall_app in Hb' as [Hb1 Hb2].
    destruct (IH (skipn 8 bits)) as [gs [E [L O]]].
    + rewrite length_skipn. lia.
    + exact Hb2.
    + exists (firstn 8 bits :: gs). split; [|split].
      * cbn [concat]. rewrite <- E. symmetry. apply firstn_skipn.
      * cbn [length]. now rewrite L.
      * constructor; [|exact O]. split; [|exact Hb1].
        rewrite length_firstn. lia.
Qed.

Lemma nth_error_concat_octets (gs : list (list Z)) (i j : nat) (g : list Z) :
  Forall is_octet gs -> nth_error gs i = Some g -> (j < 8)%nat ->
  nth_error (concat gs) (i * 8 + j) = nth_error g j.
Proof.
  intro Hgs. revert i. induction Hgs as [|g0 gs [L0 _] _ IH]; intros i Hi Hj.
  - destruct i; discriminate.
  - destruct i as [|i]; simpl in Hi.
    + injection Hi as <-. simpl. apply nth_error_app1. lia.
    + cbn [concat]. rewrite nth_error_app2 by lia.
      replace (S i * 8 + j - length g0)%nat with (i * 8 + j)%nat by lia.
      apply IH; assumption.
Qed.

(** Byte [i] of [bits_to_bytes] depends only on group [i]. *)
Lemma pack_byte_concat (gs : list (list Z)) (i : nat) (g : list Z) :
  Forall is_octet gs -> nth_error gs i = Some g ->
  pack_byte (concat gs) i = pack_byte g 0.
Proof.
  intros Hgs Hi. unfold pack_byte. apply for_each_ext.
  intros j acc Hj. apply in_seq in Hj. unfold getitem.
  rewrite (nth_error_concat_octets gs i j g) by (auto; lia).
  reflexivity.
Qed.

(** Packing eight bits gives a byte whose bits are the eight bits. *)
Lemma pack_octet_spec (g : list Z) :
  is_octet g ->
  pack_byte g 0 = Ok (byte_val (pack_octet g)) /\
  bits_of 8 (byte_val (pack_octet g)) = g.
Proof.
  intros [L B].
  do 8 (destruct g as [|? g]; [discriminate|]).
  destruct g; [|discriminate]. clear L.
  repeat match goal with
         | H : Forall _ (_ :: _) |- _ => inversion H; subst; clear H
         end.
  repeat match goal with
         | H : is_bit _ |- _ => destruct H; subst
         end;
    split; reflexivity.
Qed.

Lemma firstn_succ_nth {A : Type} (l : list A) (i : nat) (x : A) :
  nth_error l i = Some x -> firstn (S i) l = firstn i l ++ [x].
Proof.
  revert i. induction l as [|y l IH]; intros [|i] H; try discriminate.
  - injection H as ->. reflexivity.
  - simpl in H. rewrite (firstn_cons (S i)), (firstn_cons i), (IH i H).
    reflexivity.
Qed.

(** The byte loop of [bits_to_bytes], started at byte [i] with the first
    [i] bytes written and the remaining [k] still zero. *)
Lemma bits_to_bytes_loop (gs : list (list Z)) :
  Forall is_octet gs ->
  forall k i,
    (i + k = length gs)%nat ->
    for_each (seq i k)
      (fun i result =>
         byte_val <- pack_byte (concat gs) i ;;
         bytearray_setitem result i byte_val)
      (map pack_octet (firstn i gs) ++ zero_bytes k)
    = Ok (map pack_octet gs).
Proof.
  intros Hgs k. induction k as [|k IH]; intros i Hik.
  - simpl. rewrite app_nil_r. rewrite firstn_all2 by lia. reflexivity.
  - cbn [seq for_each].
    destruct (nth_error gs i) as [g|] eqn:Eg;
      [|apply nth_error_None in Eg; lia].
    rewrite (pack_byte_concat gs i g Hgs Eg).
    assert (Og : is_octet g).
    { rewrite Forall_forall in Hgs. apply Hgs. eapply nth_error_In; eauto. }
    destruct (pack_octet_spec g Og) as [Ep _]. rewrite Ep. cbn [bind].
    unfold bytearray_setitem. rewrite byte_of_Z_val.
    assert (Li : length (map pack_octet (firstn i gs)) = i).
    { rewrite length_map, length_firstn. lia. }
    replace (i <? length (map pack_octet (firstn i gs) ++ zero_bytes (S k)))%nat
      with true
      by (symmetry; apply Nat.ltb_lt; rewrite length_app, Li; simpl; lia).
    cbn [bind zero_bytes repeat].
    assert (R : forall (pre rest : bytes) (b : byte),
               length pre = i ->
               replace_nth (pre ++ x00 :: rest) i b = pre ++ b :: rest)
      by (intros pre rest b0 <-; apply replace_nth_app).
    rewrite R by exact Li. clear R.
    specialize (IH (S i) ltac:(lia)).
    rewrite (firstn_succ_nth gs i g Eg), map_app, <- app_assoc in IH.
    exact IH.
Qed.

Lemma bits_to_bytes_concat (gs : list (list Z)) :
  Forall is_octet gs ->
  bits_to_bytes (concat gs) = Ok (map pack_octet gs).
Proof.
  intro Hgs. unfold bits_to_bytes.
  rewrite (concat_octets_length gs Hgs).
  rewrite Nat.Div0.mod_mul. cbn [Nat.eqb negb].
  rewrite Nat.div_mul by discriminate.
  apply (bits_to_bytes_loop gs Hgs (length gs) 0%nat). reflexivity.
Qed.

Lemma bytes_to_bits_pack (gs : list (list Z)) :
  Forall is_octet gs -> bytes_to_bits (map pack_octet gs) = concat gs.
Proof.
  induction 1 as [|g gs Og _ IH]; [reflexivity|].
  rewrite bytes_to_bits_flat in *. cbn [map flat_map concat].
  rewrite IH. f_equal. apply (pack_octet_spec g Og).
Qed.

(** [bits_to_bytes] followed by [bytes_to_bits] is the identity on bit
    lists whose length is a multiple of eight. *)
Lemma bits_to_bytes_to_bits (n : nat) (bits : list Z) :
  length bits = (n * 8)%nat -> Forall is_bit bits ->
  exists B, bits_to_bytes bits = Ok B /\ length B = n /\ bytes_to_bits B = bits.
Proof.
  intros L Hb. destruct (split_octets n bits L Hb) as [gs [-> [Lg Og]]].
  exists (map pack_octet gs). split; [apply bits_to_bytes_concat; exact Og|].
  split; [now rewrite length_map | apply bytes_to_bits_pack; exact Og].
Qed.

(** ** ByteEncode and ByteDecode *)

Lemma modulus_for_ok (d : Z) :
  0 <= d -> modulus_for d = Ok (if d <? 12 then 2 ^ d else Q).
Proof.
  intro Hd. unfold modulus_for, lshift.
  destruct (d <? 12); [|reflexivity].
  replace (d <? 0) with false by (symmetry; apply Z.ltb_ge; lia).
  rewrite Z.shiftl_mul_pow2 by lia. now rewrite Z.mul_1_l.
Qed.

(** The coefficient loop of [byte_encode] appends the bits of each value. *)
Lemma byte_encode_loop (m : Z) (dn : nat) (F : list Z) (acc : list Z) :
  Forall (fun x => 0 <= x < m) F ->
  for_each F
    (fun x bits =>
       if negb ((0 <=? x) && (x <? m)) then
         Raise (ValueError "Value out of range")
       else
         Ok (bits ++ map (fun j => Z.land (Z.shiftr x (Z.of_nat j)) 1)
                         (range dn)))
    acc
  = Ok (acc ++ flat_map (bits_of dn) F).
Proof.
  intro HF. revert acc. induction HF as [|x F Hx _ IH]; intro acc.
  - simpl. now rewrite app_nil_r.
  - cbn [for_each flat_map].
    replace ((0 <=? x) && (x <? m)) with true
      by (symmetry; apply andb_true_iff; split;
          [apply Z.leb_le | apply Z.ltb_lt]; lia).
    cbn [negb bind]. rewrite IH. now rewrite <- app_assoc.
Qed.

(** A value outside the modulus makes the loop raise. *)
Lemma byte_encode_loop_rejects (m : Z) (dn : nat) (F : list Z) (acc : list Z) :
  ~ Forall (fun x => 0 <= x < m) F ->
  for_each F
    (fun x bits =>
       if negb ((0 <=? x) && (x <? m)) then
         Raise (ValueError "Value out of range")
       else
         Ok (bits ++ map (fun j => Z.land (Z.shiftr x (Z.of_nat j)) 1)
                         (range dn)))
    acc
  = Raise (ValueError "Value out of range").
Proof.
  revert acc. induction F as [|x F IH]; intros acc HF.
  - exfalso. apply HF. constructor.
  - cbn [for_each].
    destruct ((0 <=? x) && (x <? m)) eqn:E; cbn [negb bind]; [|reflexivity].
    apply IH. intro HF'. apply HF. constructor; [|exact HF'].
    apply andb_true_iff in E as [E1 E2].
    apply Z.leb_le in E1. apply Z.ltb_lt in E2. lia.
Qed.

Lemma byte_encode_ok (F : list Z) (d : Z) :
  0 <= d -> length F = 256%nat ->
  Forall (fun x => 0 <= x < (if d <? 12 then 2 ^ d else Q)) F ->
  exists B,
    byte_encode F d = Ok B /\
    length B = (32 * Z.to_nat d)%nat /\
    bytes_to_bits B = flat_map (bits_of (Z.to_nat d)) F.
Proof.
  intros Hd LF HF. unfold byte_encode.
  rewrite LF. cbn [Nat.eqb negb].
  rewrite modulus_for_ok by exact Hd. cbn [bind].
  replace ((256 * d) mod 8 =? 0) with true
    by (symmetry; apply Z.eqb_eq; replace (256 * d) with (32 * d * 8) by lia;
        apply Z.mod_mul; lia).
  cbn [negb].
  rewrite (byte_encode_loop _ (Z.to_nat d) F [] HF). cbn [bind app].
  destruct (bits_to_bytes_to_bits (32 * Z.to_nat d)
              (flat_map (bits_of (Z.to_nat d)) F)) as [B [E [L R]]].
  - rewrite (flat_map_uniform_length _ (Z.to_nat d))
      by (intro; apply bits_of_length).
    rewrite LF. lia.
  - apply Forall_flat_map. apply Forall_forall. intros x _.
    apply bits_of_is_bit.
  - exists B. auto.
Qed.

Lemma collect_loop {X : Type} (h : X -> Z) (xs : list X) (acc : list Z) :
  for_each xs (fun i F => Ok (F ++ [h i])) acc = Ok (acc ++ map h xs).
Proof.
  revert acc. induction xs as [|x xs IH]; intro acc; simpl.
  - now rewrite app_nil_r.
  - rewrite IH. now rewrite <- app_assoc.
Qed.

Lemma slice_length {A : Type} (l : list A) (a b : nat) :
  (a <= b <= length l)%nat -> length (slice l a b) = (b - a)%nat.
Proof. intro H. unfold slice. rewrite length_firstn, length_skipn. lia. Qed.

Lemma slice_app_l {A : Type} (l1 l2 : list A) :
  slice (l1 ++ l2) 0 (length l1) = l1.
Proof.
  unfold slice. rewrite Nat.sub_0_r, skipn_0.
  rewrite firstn_app, Nat.sub_diag, firstn_0, app_nil_r. apply firstn_all.
Qed.

Lemma slice_app_r {A : Type} (l1 l2 : list A) (a b : nat) :
  slice (l1 ++ l2) (length l1 + a) (length l1 + b) = slice l2 a b.
Proof.
  unfold slice. rewrite skipn_app.
  rewrite skipn_all2 by lia. cbn [app].
  replace (length l1 + a - length l1)%nat with a by lia.
  replace (length l1 + b - (length l1 + a))%nat with (b - a)%nat by lia.
  reflexivity.
Qed.

(** Chunk [i] of the concatenated bit groups is the group of value [i]. *)
Lemma slice_flat_map_bits (dn : nat) (F : list Z) (i : nat) (x : Z) :
  nth_error F i = Some x ->
  slice (flat_map (bits_of dn) F) (i * dn) ((i + 1) * dn) = bits_of dn x.
Proof.
  revert i. induction F as [|y F IH]; intros [|i] H; try discriminate.
  - injection H as ->. cbn [flat_map].
    replace ((0 + 1) * dn)%nat with (length (bits_of dn x))
      by (rewrite bits_of_length; lia).
    apply slice_app_l.
  - simpl in H. cbn [flat_map].
    replace (S i * dn)%nat with (length (bits_of dn y) + i * dn)%nat
      by (rewrite bits_of_length; lia).
    replace ((S i + 1) * dn)%nat with (length (bits_of dn y) + (i + 1) * dn)%nat
      by (rewrite bits_of_length; lia).
    rewrite slice_app_r. apply IH. exact H.
Qed.

Lemma map_seq_nth_error (h : nat -> Z) (F : list Z) (a : nat) :
  (forall i x, nth_error F i = Some x -> h (a + i)%nat = x) ->
  map h (seq a (length F)) = F.
Proof.
  revert a. induction F as [|y F IH]; intros a H; [reflexivity|].
  cbn [length seq map]. f_equal.
  - rewrite <- (Nat.add_0_r a). apply H. reflexivity.
  - apply IH. intros i x Hi. replace (S a + i)%nat with (a + S i)%nat by lia.
    apply H. exact Hi.
Qed.

(** On an input of the expected length, [byte_decode] returns every chunk
    value reduced modulo m. *)
Lemma byte_decode_ok (B : bytes) (d : Z) :
  0 <= d -> Z.of_nat (length B) = 32 * d ->
  byte_decode B d
  = Ok (map (fun i => chunk_value B (Z.to_nat d) i
                        mod (if d <? 12 then 2 ^ d else Q))
            (range 256)).
Proof.
  intros Hd LB. unfold byte_decode.
  rewrite modulus_for_ok by exact Hd. cbn [bind].
  replace (256 * d / 8) with (32 * d)
    by (replace (256 * d) with (32 * d * 8) by lia; now rewrite Z.div_mul).
  rewrite LB, Z.eqb_refl. cbn [negb].
  set (m := if d <? 12 then 2 ^ d else Q).
  set (dn := Z.to_nat d).
  rewrite (for_each_ext _ _ (fun i F => Ok (F ++ [chunk_value B dn i mod m]))).
  - rewrite collect_loop. reflexivity.
  - intros i F Hi. apply in_seq in Hi.
    rewrite slice_length.
    + replace ((i + 1) * dn - i * dn)%nat with dn by lia.
      rewrite Nat.eqb_refl. reflexivity.
    + rewrite bytes_to_bits_length.
      assert (length B = (32 * dn)%nat) by (unfold dn; lia).
      nia.
Qed.

Lemma byte_decode_rejects_length (B : bytes) (d : Z) :
  0 <= d -> Z.of_nat (length B) <> 32 * d ->
  byte_decode B d = Raise (ValueError "Expected 32*d bytes").
Proof.
  intros Hd LB. unfold byte_decode.
  rewrite modulus_for_ok by exact Hd. cbn [bind].
  replace (256 * d / 8) with (32 * d)
    by (replace (256 * d) with (32 * d * 8) by lia; now rewrite Z.div_mul).
  replace (Z.of_nat (length B) =? 32 * d) with false
    by (symmetry; apply Z.eqb_neq; exact LB).
  reflexivity.
Qed.

(** C8.  For every bit width d (a non-negative integer; 256 d is always a
    multiple of 8) and 256 values below 2^d when d < 12, below q when
    d = 12 (and also for larger d), [byte_encode] succeeds and
    [byte_decode] of its output returns the values. *)
Theorem byte_decode_byte_encode (F : list Z) (d : Z) :
  0 <= d ->
  length F = 256%nat ->
  (d < 12 -> Forall (fun x => 0 <= x < 2 ^ d) F) ->
  (12 <= d -> Forall (fun x => 0 <= x < 3329) F) ->
  exists B, byte_encode F d = Ok B /\ byte_decode B d = Ok F.
Proof.
  intros Hd LF Hlt Heq.
  assert (HF : Forall (fun x => 0 <= x < (if d <? 12 then 2 ^ d else Q)) F).
  { destruct (Z.ltb_spec d 12); [apply Hlt; lia | apply Heq; lia]. }
  destruct (byte_encode_ok F d) as [B [E [LB R]]]; [lia | exact LF | exact HF |].
  exists B. split; [exact E|].
  rewrite byte_decode_ok by lia. f_equal.
  unfold range. rewrite <- LF at 1.
  apply map_seq_nth_error. intros i x Hi. cbn [Nat.add].
  unfold chunk_value. rewrite R.
  rewrite (slice_flat_map_bits _ F i x Hi), sum_shifted_bits_of.
  rewrite Z2Nat.id by lia.
  assert (Hx : 0 <= x < (if d <? 12 then 2 ^ d else Q)).
  { rewrite Forall_forall in HF. apply HF. eapply nth_error_In; eauto. }
  destruct (Z.ltb_spec d 12).
  - rewrite Z.mod_mod by lia. apply Z.mod_small. exact Hx.
  - unfold Q in *.
    assert (2 ^ 12 <= 2 ^ d) by (apply Z.pow_le_mono_r; lia).
    change (2 ^ 12) with 4096 in *. rewrite (Z.mod_small x (2 ^ d)) by lia.
    apply Z.mod_small. exact Hx.
Qed.

Lemma byte_decode_byte_encode_witness :
  exists B,
    byte_encode (repeat 1234 256) 12 = Ok B /\
    byte_decode B 12 = Ok (repeat 1234 256).
Proof.
  apply (byte_decode_byte_encode (repeat 1234 256) 12).
  - lia.
  - reflexivity.
  - intro H. exfalso. lia.
  - intros _. apply Forall_forall. intros x Hx. apply repeat_spec in Hx. lia.
Defined.

Example byte_encode_negative_width :
  byte_encode (repeat 0 256) (-1) = Raise (ValueError "negative shift count").
Proof. reflexivity. Qed.

(** C9, as stated, fails: the 384-byte string of ff bytes, whose 12-bit
    chunks all have value 4095 >= q, is accepted and every chunk comes back
    as 4095 mod 3329 = 766. *)
Lemma byte_decode_wraps_4095 :
  chunk_value (repeat xff 384) 12 0 = 4095 /\
  byte_decode (repeat xff 384) 12 = Ok (repeat 766 256).
Proof. split; vm_compute; reflexivity. Qed.

(** C9 (amended).  For d = 12, [byte_decode] accepts every 384-byte input
    and returns 256 coefficients in [0, q): coefficient i is the value of
    the i-th 12-bit chunk reduced modulo q, so a chunk value v >= q is
    returned as v mod q. *)
Theorem byte_decode_12_reduces (B : bytes) :
  length B = 384%nat ->
  exists F,
    byte_decode B 12 = Ok F /\ length F = 256%nat /\ Forall in_Zq F /\
    forall i, (i < 256)%nat -> nth i F 0 = chunk_value B 12 i mod Q.
Proof.
  intro LB. rewrite byte_decode_ok by lia.
  change (if 12 <? 12 then 2 ^ 12 else Q) with Q.
  change (Z.to_nat 12) with 12%nat.
  eexists. split; [reflexivity|]. split; [|split].
  - unfold range. now rewrite length_map, length_seq.
  - apply Forall_forall. intros x Hx. apply in_map_iff in Hx as [i [<- _]].
    apply in_Zq_mod.
  - intros i Hi. unfold range.
    rewrite (nth_indep _ 0 (chunk_value B 12 0 mod Q))
      by (rewrite length_map, length_seq; exact Hi).
    rewrite (map_nth (fun i => chunk_value B 12 i mod Q) (seq 0 256) 0%nat i).
    rewrite seq_nth by exact Hi. reflexivity.
Qed.

Lemma byte_decode_12_reduces_witness :
  exists F,
    byte_decode (repeat xff 384) 12 = Ok F /\ length F = 256%nat /\
    Forall in_Zq F /\
    forall i, (i < 256)%nat -> nth i F 0 = chunk_value (repeat xff 384) 12 i mod Q.
Proof. apply (byte_decode_12_reduces (repeat xff 384)). reflexivity. Defined.

(** ** Output length of the hash functions *)

Lemma round_length (A : list Z) (rc : Z) : length (Keccak.round A rc) = 25%nat.
Proof. reflexivity. Qed.

Lemma keccak_f_length (A : list Z) : length (Keccak.keccak_f A) = 25%nat.
Proof.
  unfold Keccak.keccak_f.
  assert (G : forall rcs B, rcs <> [] ->
                length (fold_left Keccak.round rcs B) = 25%nat).
  { intro rcs. induction rcs as [|rc rcs IH] using rev_ind; intros B Hne.
    - contradiction.
    - rewrite fold_left_app. apply round_length. }
  apply G. discriminate.
Qed.

Lemma absorb_blocks_length (fuel rate : nat) (st msg : list Z) :
  length st = 25%nat -> length (Keccak.absorb_blocks fuel rate st msg) = 25%nat.
Proof.
  revert st msg. induction fuel as [|fuel IH]; intros st msg H; simpl.
  - destruct msg; exact H.
  - destruct msg; [exact H|]. apply IH. apply keccak_f_length.
Qed.

Lemma bytes_of_lanes_length (A : list Z) :
  length (Keccak.bytes_of_lanes A) = (length A * 8)%nat.
Proof.
  unfold Keccak.bytes_of_lanes. apply flat_map_uniform_length.
  intro a. unfold Keccak.bytes_of_lane. now rewrite length_map, length_seq.
Qed.

Lemma squeeze_blocks_length (blocks rate : nat) (st : list Z) :
  length st = 25%nat -> (rate <= 200)%nat ->
  length (Keccak.squeeze_blocks blocks rate st) = (blocks * rate)%nat.
Proof.
  intros H Hr. revert st H. induction blocks as [|n IH]; intros st H.
  - reflexivity.
  - cbn [Keccak.squeeze_blocks]. rewrite length_app, length_firstn.
    rewrite bytes_of_lanes_length, H, IH by apply keccak_f_length. lia.
Qed.

Lemma hash_length (rate : nat) (suffix : Z) (data : bytes) (outlen : nat) :
  (0 < rate <= 200)%nat ->
  length (Keccak.hash rate suffix data outlen) = outlen.
Proof.
  intro Hr. unfold Keccak.hash, Keccak.to_bytes, Keccak.sponge.
  rewrite length_map, length_firstn.
  rewrite squeeze_blocks_length;
    [| apply absorb_blocks_length; reflexivity | lia].
  pose proof (Nat.div_mod_eq outlen rate) as E.
  pose proof (Nat.mod_upper_bound outlen rate ltac:(lia)) as U.
  nia.
Qed.

Lemma shake256_length (data : bytes) (n : nat) : length (shake256 data n) = n.
Proof. apply hash_length. lia. Qed.

Lemma shake128_length (data : bytes) (n : nat) : length (shake128 data n) = n.
Proof. apply hash_length. lia. Qed.

Lemma H_length (s : bytes) : length (H s) = 32%nat.
Proof. apply hash_length. lia. Qed.

(** ** PRF and the CBD sampler *)

Lemma PRF_ok (eta : Z) (s b : bytes) :
  eta = 2 \/ eta = 3 -> length s = 32%nat -> length b = 1%nat ->
  PRF eta s b = Ok (shake256 (s ++ b) (Z.to_nat (64 * eta))).
Proof.
  intros He Ls Lb. unfold PRF. rewrite Ls, Lb. cbn [Nat.eqb negb].
  destruct He as [-> | ->]; reflexivity.
Qed.

Lemma PRF_raises (eta : Z) (s b : bytes) (e : exn) :
  PRF eta s b = Raise e -> exists msg, e = ValueError msg.
Proof.
  unfold PRF. intro E.
  repeat match type of E with
         | (if ?c then _ else _) = _ => destruct c
         end; try discriminate; injection E as <-; eauto.
Qed.

Lemma sample_poly_cbd_raises (eta : Z) (B : bytes) (e : exn) :
  sample_poly_cbd eta B = Raise e -> exists msg, e = ValueError msg.
Proof.
  unfold sample_poly_cbd. intro E.
  repeat match type of E with
         | (if ?c then _ else _) = _ => destruct c
         end; try discriminate; injection E as <-; eauto.
Qed.

Lemma sample_poly_cbd_length (eta : Z) (B : bytes) (f : list Z) :
  sample_poly_cbd eta B = Ok f -> length f = 256%nat.
Proof.
  unfold sample_poly_cbd. intro E.
  repeat match type of E with
         | (if ?c then _ else _) = _ => destruct c
         end; try discriminate.
  apply Ok_inj in E. subst f. unfold range. now rewrite length_map, length_seq.
Qed.

Lemma sample_poly_cbd_ok (eta : Z) (B : bytes) :
  eta = 2 \/ eta = 3 -> length B = Z.to_nat (64 * eta) ->
  exists f, sample_poly_cbd eta B = Ok f /\ length f = 256%nat.
Proof.
  intros He LB. unfold sample_poly_cbd.
  replace ((eta =? 2) || (eta =? 3)) with true
    by (destruct He as [-> | ->]; reflexivity).
  cbn [negb].
  replace (Z.of_nat (length B) =? 64 * eta) with true
    by (symmetry; apply Z.eqb_eq; lia).
  cbn [negb]. eexists. split; [reflexivity|].
  unfold range. now rewrite length_map, length_seq.
Qed.

Lemma encode_message_raises (m : bytes) (e : exn) :
  encode_message m = Raise e -> exists msg, e = ValueError msg.
Proof.
  unfold encode_message. destruct (negb _); intro E; [|discriminate].
  injection E as <-. eauto.
Qed.

Lemma encode_message_length (m : bytes) (f : list Z) :
  encode_message m = Ok f -> length f = 256%nat.
Proof.
  unfold encode_message. destruct (length m =? 32)%nat eqn:L; cbn [negb];
    intro E; [|discriminate].
  apply Ok_inj in E. subst f. apply Nat.eqb_eq in L.
  rewrite length_map, bytes_to_bits_length, L. reflexivity.
Qed.

Lemma ntt_total (f : list Z) :
  length f = 256%nat -> exists f_hat, ntt f = ret f_hat /\ length f_hat = 256%nat.
Proof.
  intro L.
  destruct (ntt_inv_ring (fun _ => True) (fun _ => I) f (ring_inv_True f L))
    as [f_hat [E [L' _]]].
  eauto.
Qed.

Lemma ntt_inv_total (f_hat : list Z) :
  length f_hat = 256%nat -> exists f, ntt_inv f_hat = ret f /\ length f = 256%nat.
Proof.
  intro L.
  destruct (ntt_inv_inv_ring (fun _ => True) (fun _ => I) f_hat
              (ring_inv_True f_hat L)) as [f [E [L' _]]].
  eauto.
Qed.

Lemma multiply_ntts_total (f_hat g_hat : list Z) :
  (256 <= length f_hat)%nat -> (256 <= length g_hat)%nat ->
  exists h_hat, multiply_ntts f_hat g_hat = Ok h_hat /\ length h_hat = 256%nat.
Proof.
  intros Lf Lg.
  destruct (multiply_ntts_inv_ring (fun _ => True) (fun _ => I) f_hat g_hat Lf Lg I)
    as [h [E [L' _]]].
  eauto.
Qed.

Lemma poly_add_length (a b : list Z) :
  length (poly_add a b) = Nat.min (length a) (length b).
Proof. unfold poly_add. now rewrite length_map, length_combine. Qed.

(** ** K-PKE with the compression parameter 12 *)

Lemma cbind_lift_raises {A B : Type} (r : result A) (k : A -> comp B) :
  (forall e, r = Raise e -> exists msg, e = ValueError msg) ->
  (forall a, r = Ok a -> raises_ValueError (k a)) ->
  raises_ValueError (cbind (lift r) k).
Proof.
  intros Hr Hk. destruct r as [a|e]; cbn [cbind lift].
  - apply Hk. reflexivity.
  - destruct (Hr e eq_refl) as [msg ->]. exists msg. reflexivity.
Qed.

Lemma cbind_ret_raises {A B : Type} (m : comp A) (a : A) (k : A -> comp B) :
  m = ret a -> raises_ValueError (k a) -> raises_ValueError (cbind m k).
Proof. intros -> Hk. exact Hk. Qed.

Lemma map_result_compress_rejects (d : Z) (l : list Z) :
  ~ (1 <= d < 12) -> l <> [] ->
  map_result (fun coeff => compress coeff d) l
  = Raise (ValueError "d must be 1 <= d < 12").
Proof.
  intros Hd Hl. destruct l as [|x l]; [contradiction|].
  apply map_result_raise. apply compress_rejects. exact Hd.
Qed.

Lemma map_result_decompress_rejects (d : Z) (l : list Z) :
  ~ (1 <= d < 12) -> l <> [] ->
  map_result (fun y => decompress y d) l
  = Raise (ValueError "d must be 1 <= d < 12").
Proof.
  intros Hd Hl. destruct l as [|x l]; [contradiction|].
  apply map_result_raise. apply decompress_rejects. exact Hd.
Qed.

Lemma length_256_nonempty {A : Type} (l : list A) : length l = 256%nat -> l <> [].
Proof. intros L ->. discriminate L. Qed.

Lemma byte_decode_cases (B : bytes) (d : Z) :
  (exists msg, byte_decode B d = Raise (ValueError msg)) \/
  (exists F, byte_decode B d = Ok F /\ length F = 256%nat).
Proof.
  destruct (Z.ltb_spec d 0) as [Hneg|Hd].
  - left. unfold byte_decode, modulus_for, lshift.
    replace (d <? 12) with true by (symmetry; apply Z.ltb_lt; lia).
    replace (d <? 0) with true by (symmetry; apply Z.ltb_lt; lia).
    eexists. reflexivity.
  - destruct (Z.eq_dec (Z.of_nat (length B)) (32 * d)) as [E|E].
    + right. rewrite byte_decode_ok by lia. eexists. split; [reflexivity|].
      unfold range. now rewrite length_map, length_seq.
    + left. rewrite byte_decode_rejects_length by lia. eauto.
Qed.

(** [k_pke_encrypt] on a key of two 256-coefficient polynomials, with d
    outside [1, 11]: whatever the other arguments, a ValueError comes
    out. *)
Lemma k_pke_encrypt_rejects_d (A t_hat : list Z) (m r : bytes) (d eta : Z) :
  ~ (1 <= d < 12) ->
  length A = 256%nat -> length t_hat = 256%nat ->
  raises_ValueError (k_pke_encrypt (A, t_hat) m r d eta).
Proof.
  intros Hd LA Lt. unfold k_pke_encrypt.
  apply cbind_lift_raises; [apply PRF_raises | intros y_seed _].
  apply cbind_lift_raises; [apply PRF_raises | intros e1_seed _].
  apply cbind_lift_raises; [apply PRF_raises | intros e2_seed _].
  apply cbind_lift_raises; [apply sample_poly_cbd_raises | intros y Hy].
  apply cbind_lift_raises; [apply sample_poly_cbd_raises | intros e1 He1].
  apply cbind_lift_raises; [apply sample_poly_cbd_raises | intros e2 He2].
  apply sample_poly_cbd_length in Hy, He1, He2.
  destruct (ntt_total y Hy) as [y_hat [Ey Ly]].
  destruct (ntt_total e1 He1) as [e1_hat [Ee1 Le1]].
  destruct (ntt_total e2 He2) as [e2_hat [Ee2 Le2]].
  apply (cbind_ret_raises _ y_hat); [exact Ey|].
  apply (cbind_ret_raises _ e1_hat); [exact Ee1|].
  apply (cbind_ret_raises _ e2_hat); [exact Ee2|].
  destruct (multiply_ntts_total A y_hat) as [Ay [EAy LAy]]; [lia | lia |].
  rewrite EAy. cbn [cbind lift].
  destruct (multiply_ntts_total t_hat y_hat) as [ty [Ety Lty]]; [lia | lia |].
  rewrite Ety. cbn [cbind lift].
  apply cbind_lift_raises; [apply encode_message_raises | intros m_poly Hm].
  apply encode_message_length in Hm.
  destruct (ntt_total m_poly Hm) as [m_hat [Em Lm]].
  apply (cbind_ret_raises _ m_hat); [exact Em|].
  rewrite map_result_compress_rejects.
  - eexists. reflexivity.
  - exact Hd.
  - apply length_256_nonempty. rewrite poly_add_length. lia.
Qed.

Lemma k_pke_decrypt_rejects_d (dk_pke : dk_pke_t) (c : bytes) (d : Z) :
  ~ (1 <= d < 12) ->
  raises_ValueError (k_pke_decrypt dk_pke c d).
Proof.
  intro Hd. destruct dk_pke as [[b_enc s1] s2]. unfold k_pke_decrypt.
  destruct (byte_decode_cases (firstn (Z.to_nat (256 * d / 8)) c) d)
    as [[msg E1] | [u [E1 Lu]]]; rewrite E1; cbn [cbind lift].
  { eexists; reflexivity. }
  destruct (byte_decode_cases (skipn (Z.to_nat (256 * d / 8)) c) d)
    as [[msg E2] | [v [E2 Lv]]]; rewrite E2; cbn [cbind lift].
  { eexists; reflexivity. }
  rewrite map_result_decompress_rejects
    by (try exact Hd; apply length_256_nonempty; exact Lu).
  eexists; reflexivity.
Qed.

(** With valid [eta], [r] and [m] the exception is the one [compress]
    raises. *)
Lemma k_pke_encrypt_12_compress_error (A t_hat : list Z) (m r : bytes) (eta : Z) :
  length A = 256%nat -> length t_hat = 256%nat ->
  eta = 2 \/ eta = 3 -> length r = 32%nat -> length m = 32%nat ->
  k_pke_encrypt (A, t_hat) m r 12 eta
  = Some (Raise (ValueError "d must be 1 <= d < 12")).
Proof.
  intros LA Lt He Lr Lm. unfold k_pke_encrypt.
  rewrite !PRF_ok by auto. cbn [cbind lift].
  destruct (sample_poly_cbd_ok eta (shake256 (r ++ [x00]) (Z.to_nat (64 * eta))))
    as [y [Ey Ly]]; [exact He | apply shake256_length |].
  destruct (sample_poly_cbd_ok eta (shake256 (r ++ [x01]) (Z.to_nat (64 * eta))))
    as [e1 [Ee1 Le1]]; [exact He | apply shake256_length |].
  destruct (sample_poly_cbd_ok eta (shake256 (r ++ [x02]) (Z.to_nat (64 * eta))))
    as [e2 [Ee2 Le2]]; [exact He | apply shake256_length |].
  rewrite Ey, Ee1, Ee2. cbn [cbind lift].
  destruct (ntt_total y Ly) as [y_hat [Ey' Ly']].
  destruct (ntt_total e1 Le1) as [e1_hat [Ee1' Le1']].
  destruct (ntt_total e2 Le2) as [e2_hat [Ee2' Le2']].
  rewrite Ey', Ee1', Ee2'. cbn [cbind ret].
  destruct (multiply_ntts_total A y_hat) as [Ay [EAy LAy]]; [lia | lia |].
  rewrite EAy. cbn [cbind lift].
  destruct (multiply_ntts_total t_hat y_hat) as [ty [Ety Lty]]; [lia | lia |].
  rewrite Ety. cbn [cbind lift].
  destruct (encode_message m) as [m_poly|e] eqn:Em.
  2:{ unfold encode_message in Em. rewrite Lm in Em. discriminate Em. }
  cbn [cbind lift].
  apply encode_message_length in Em.
  destruct (ntt_total m_poly Em) as [m_hat [Em' Lm']].
  rewrite Em'. cbn [cbind ret].
  rewrite map_result_compress_rejects; [reflexivity | lia |].
  apply length_256_nonempty. rewrite poly_add_length. lia.
Qed.

(** With a ciphertext of the expected 768 bytes the exception is the one
    [decompress] raises. *)
Lemma k_pke_decrypt_12_decompress_error (dk_pke : dk_pke_t) (c : bytes) :
  length c = 768%nat ->
  k_pke_decrypt dk_pke c 12 = Some (Raise (ValueError "d must be 1 <= d < 12")).
Proof.
  intro Lc. destruct dk_pke as [[b_enc s1] s2]. unfold k_pke_decrypt.
  change (Z.to_nat (256 * 12 / 8)) with 384%nat.
  rewrite !byte_decode_ok by (rewrite ?length_firstn, ?length_skipn; lia).
  cbn [cbind lift].
  rewrite map_result_decompress_rejects; [reflexivity | lia |].
  apply length_256_nonempty. unfold range. now rewrite length_map, length_seq.
Qed.

(** C10.  With d = 12, [compress] and [decompress] reject every value, and
    so [k_pke_encrypt] (on a key of two 256-coefficient polynomials) and
    [k_pke_decrypt] end in a ValueError for every message, randomness,
    eta, secret key and ciphertext. *)
Theorem k_pke_d12_raises_ValueError
  (A t_hat : list Z) (m r : bytes) (eta : Z) (dk_pke : dk_pke_t) (c : bytes) :
  length A = 256%nat -> length t_hat = 256%nat ->
  (forall x, compress x 12 = Raise (ValueError "d must be 1 <= d < 12")) /\
  (forall y, decompress y 12 = Raise (ValueError "d must be 1 <= d < 12")) /\
  (exists msg, k_pke_encrypt (A, t_hat) m r 12 eta = Some (Raise (ValueError msg))) /\
  (exists msg, k_pke_decrypt dk_pke c 12 = Some (Raise (ValueError msg))).
Proof.
  intros LA Lt.
  split; [intro x; reflexivity|].
  split; [intro y; reflexivity|].
  split.
  - apply k_pke_encrypt_rejects_d; [lia | assumption | assumption].
  - apply k_pke_decrypt_rejects_d. lia.
Qed.

Lemma k_pke_d12_raises_ValueError_witness :
  (forall x, compress x 12 = Raise (ValueError "d must be 1 <= d < 12")) /\
  (forall y, decompress y 12 = Raise (ValueError "d must be 1 <= d < 12")) /\
  (exists msg,
     k_pke_encrypt (repeat 0 256, repeat 0 256) (zero_bytes 32) (zero_bytes 32) 12 2
     = Some (Raise (ValueError msg))) /\
  (exists msg,
     k_pke_decrypt ([], repeat 0 256, []) (zero_bytes 768) 12
     = Some (Raise (ValueError msg))).
Proof.
  apply (k_pke_d12_raises_ValueError (repeat 0 256) (repeat 0 256)
           (zero_bytes 32) (zero_bytes 32) 2 ([], repeat 0 256, [])
           (zero_bytes 768)); reflexivity.
Defined.

(** ** Key generation *)

(** More fuel does not change a result already reached. *)
Lemma sample_ntt_loop_more_fuel (fuel : nat) :
  forall xof coefficients r,
    sample_ntt_loop fuel xof coefficients = Some r ->
    forall fuel', (fuel <= fuel')%nat ->
      sample_ntt_loop fuel' xof coefficients = Some r.
Proof.
  induction fuel as [|fuel IH]; intros xof cs r H fuel' Hle.
  - cbn [sample_ntt_loop] in H.
    destruct (length cs <? 256)%nat eqn:E; [discriminate|].
    destruct fuel'; cbn [sample_ntt_loop]; rewrite E; exact H.
  - destruct fuel' as [|fuel']; [lia|].
    cbn [sample_ntt_loop] in H |- *.
    destruct (length cs <? 256)%nat; [|exact H].
    destruct (squeeze xof 3) as [C xof'].
    destruct (negb (length C =? 3)%nat); [exact H|].
    match type of H with
    | (if ?c then _ else _) = _ => destruct c; [exact H|]
    end.
    apply (IH _ _ _ H). lia.
Qed.

Lemma sample_ntt_more_fuel (fuel fuel' : nat) (B : bytes) (r : result (list Z)) :
  sample_ntt fuel B = Some r -> (fuel <= fuel')%nat -> sample_ntt fuel' B = Some r.
Proof.
  unfold sample_ntt. destruct (negb (length B =? 34)%nat); [auto|].
  intros H Hle. exact (sample_ntt_loop_more_fuel fuel _ _ _ H fuel' Hle).
Qed.

Lemma sample_ntt_seed2 :
  sample_ntt 128 ((x02 :: zero_bytes 31) ++ [x00; x00]) = ret A_seed2.
Proof. vm_cast_no_check (eq_refl (ret A_seed2)). Qed.

(** C3.  With the urandom outputs r1 = 00 .. 00 and r2 = 02 00 .. 00,
    [k_pke_keygen(10)] does not produce a key pair: once the sampling loop
    has had its 128 iterations, [byte_encode(t_hat, 10)] raises a
    ValueError, because t_hat has coefficients of 1024 and more. *)
Theorem k_pke_keygen_d10_raises (fuel : nat) :
  (128 <= fuel)%nat ->
  k_pke_keygen fuel (zero_bytes 32) (x02 :: zero_bytes 31) 10 2 2
  = Some (Raise (ValueError "Value out of range")).
Proof.
  intro Hf. unfold k_pke_keygen. cbv zeta.
  rewrite (sample_ntt_more_fuel 128 fuel _ _ sample_ntt_seed2 Hf).
  vm_compute. reflexivity.
Qed.

Lemma k_pke_keygen_d10_raises_witness :
  k_pke_keygen 128 (zero_bytes 32) (x02 :: zero_bytes 31) 10 2 2
  = Some (Raise (ValueError "Value out of range")).
Proof. apply (k_pke_keygen_d10_raises 128). lia. Defined.

(** With d = 12 the same seeds give a key pair. *)
Example k_pke_keygen_d12_returns :
  exists t_hat dk,
    k_pke_keygen 128 (zero_bytes 32) (x02 :: zero_bytes 31) 12 2 2
    = ret ((A_seed2, t_hat), dk).
Proof.
  unfold k_pke_keygen. cbv zeta. rewrite sample_ntt_seed2.
  eexists. eexists. vm_compute. reflexivity.
Qed.

(** What [byte_encode] accepts is in range. *)
Lemma byte_encode_loop_accepts (m : Z) (dn : nat) (F : list Z) :
  forall acc bits,
    for_each F
      (fun x bits =>
         if negb ((0 <=? x) && (x <? m)) then
           Raise (ValueError "Value out of range")
         else
           Ok (bits ++ map (fun j => Z.land (Z.shiftr x (Z.of_nat j)) 1)
                           (range dn)))
      acc = Ok bits ->
    Forall (fun x => 0 <= x < m) F.
Proof.
  induction F as [|x F IH]; intros acc bits H; [constructor|].
  cbn [for_each] in H.
  destruct ((0 <=? x) && (x <? m)) eqn:E; cbn [negb bind] in H; [|discriminate].
  apply andb_true_iff in E as [E1 E2].
  apply Z.leb_le in E1. apply Z.ltb_lt in E2.
  constructor; [lia | eapply IH; eauto].
Qed.

Lemma byte_encode_accepts (F : list Z) (d : Z) (B : bytes) :
  byte_encode F d = Ok B -> 0 <= d ->
  Forall (fun x => 0 <= x < (if d <? 12 then 2 ^ d else Q)) F.
Proof.
  unfold byte_encode. intros H Hd.
  destruct (negb (length F =? 256)%nat); [discriminate|].
  rewrite modulus_for_ok in H by exact Hd. cbn [bind] in H.
  destruct (negb ((256 * d) mod 8 =? 0)); [discriminate|].
  match type of H with
  | bind ?loop _ = _ => destruct loop as [bits|e] eqn:E; [|discriminate]
  end.
  eapply byte_encode_loop_accepts; eauto.
Qed.

(** Key generation with a compression parameter d in [0, 11] returns a key
    pair only if every coefficient of t_hat is below 2^d. *)
Lemma k_pke_keygen_returns_small_t_hat
  (fuel : nat) (r1 r2 : bytes) (d eta1 eta2 : Z) (ek : ek_pke_t) (dk : dk_pke_t) :
  k_pke_keygen fuel r1 r2 d eta1 eta2 = ret (ek, dk) ->
  0 <= d < 12 ->
  Forall (fun x => 0 <= x < 2 ^ d) (snd ek).
Proof.
  unfold k_pke_keygen. intros H Hd.
  destruct (PRF eta1 r1 [x00]); cbn [cbind lift] in H; [|discriminate].
  destruct (sample_poly_cbd eta1 _); cbn [cbind lift] in H; [|discriminate].
  destruct (PRF eta2 r1 [x01]); cbn [cbind lift] in H; [|discriminate].
  destruct (sample_poly_cbd eta2 _); cbn [cbind lift] in H; [|discriminate].
  destruct (sample_ntt fuel _) as [[A|?]|]; cbn [cbind] in H; try discriminate.
  destruct (ntt _) as [[s1_hat|?]|]; cbn [cbind] in H; try discriminate.
  destruct (ntt _) as [[s2_hat|?]|]; cbn [cbind] in H; try discriminate.
  destruct (multiply_ntts A s1_hat) as [product|?]; cbn [cbind lift] in H;
    [|discriminate].
  destruct (byte_encode (poly_add product s2_hat) d) as [b_enc|?] eqn:E;
    cbn [cbind lift] in H; [|discriminate].
  unfold ret in H. injection H as <- _. cbn [snd].
  apply byte_encode_accepts in E; [|lia].
  replace (d <? 12) with true in E by (symmetry; apply Z.ltb_lt; lia).
  exact E.
Qed.

(** ** ML-KEM internal routines *)

Lemma ml_kem_keygen_internal_eq (fuel : nat) (r1 r2 : bytes) (d : Z) :
  ml_kem_keygen_internal fuel r1 r2 d = k_pke_keygen fuel r1 r2 d 2 2.
Proof.
  unfold ml_kem_keygen_internal.
  destruct (k_pke_keygen fuel r1 r2 d 2 2) as [[[[A t_hat] [[b_enc s1] s2]]|e]|];
    reflexivity.
Qed.

(** Encapsulation returns nothing for a compression parameter outside
    [1, 11], among them every d >= 12 for which key generation accepts
    arbitrary coefficients. *)
Lemma ml_kem_encaps_internal_rejects_d (ek : ek_pke_t) (r : bytes) (d : Z) :
  ~ (1 <= d < 12) ->
  length (fst ek) = 256%nat -> length (snd ek) = 256%nat ->
  raises_ValueError (ml_kem_encaps_internal ek r d).
Proof.
  intros Hd L1 L2. destruct ek as [A t_hat]. cbn [fst snd] in L1, L2.
  unfold ml_kem_encaps_internal.
  destruct (G _) as [k1 k2].
  destruct (k_pke_encrypt_rejects_d A t_hat k1 k1 d 2 Hd L1 L2) as [msg E].
  rewrite E. exists msg. reflexivity.
Qed.

Lemma ml_kem_decaps_internal_rejects_d (dk : dk_pke_t) (c : bytes) (d : Z) :
  ~ (1 <= d < 12) ->
  raises_ValueError (ml_kem_decaps_internal dk c d).
Proof.
  intro Hd. unfold ml_kem_decaps_internal.
  destruct (k_pke_decrypt_rejects_d dk c d Hd) as [msg E].
  rewrite E. exists msg. reflexivity.
Qed.

(** Decapsulation returns the hash of whatever decryption returns. *)
Lemma ml_kem_decaps_internal_returns (dk : dk_pke_t) (c m : bytes) (d : Z) :
  k_pke_decrypt dk c d = ret m ->
  ml_kem_decaps_internal dk c d = ret (H m).
Proof. intro E. unfold ml_kem_decaps_internal. rewrite E. reflexivity. Qed.

(** The key material that key generation derives from the seeds above
    (returned with d = 12) does not carry a secret through encapsulation
    and decapsulation at d = 10: the two sides end with different keys. *)
Example ml_kem_round_trip_with_d12_key :
  exists ek dk c K K',
    k_pke_keygen 128 (zero_bytes 32) (x02 :: zero_bytes 31) 12 2 2 = ret (ek, dk) /\
    ml_kem_encaps_internal ek (zero_bytes 32) 10 = ret (c, K) /\
    ml_kem_decaps_internal dk c 10 = ret K' /\
    K' <> K.
Proof.
  do 5 eexists. split; [|split; [|split]].
  - unfold k_pke_keygen. cbv zeta. rewrite sample_ntt_seed2.
    vm_compute. reflexivity.
  - vm_compute. reflexivity.
  - vm_compute. reflexivity.
  - discriminate.
Qed.

(* ================================================================== *)
(** * Further properties of the modules *)

(** ** Loops that may raise *)

(** A loop whose body, on a state with the invariant, either goes on with
    the invariant (and then the index was good) or raises an exception of
    a given kind, does the same as a whole. *)
Lemma for_each_cases {X S : Type} (Inv : S -> Prop) (Good : X -> Prop)
  (E : exn -> Prop) (body : X -> S -> result S) (xs : list X) :
  (forall x s, In x xs -> Inv s ->
     (exists s', body x s = Ok s' /\ Inv s' /\ Good x) \/
     (exists e, body x s = Raise e /\ E e)) ->
  forall s, Inv s ->
    (exists s', for_each xs body s = Ok s' /\ Inv s' /\ Forall Good xs) \/
    (exists e, for_each xs body s = Raise e /\ E e).
Proof.
  induction xs as [|x xs IH]; intros Hbody s Hs.
  - left. exists s. repeat split; [exact Hs | constructor].
  - cbn [for_each].
    destruct (Hbody x s (or_introl eq_refl) Hs) as [[s1 [E1 [I1 G1]]] | [e [E1 Ee]]].
    + rewrite E1. cbn [bind].
      destruct (IH (fun y t Hy => Hbody y t (or_intror Hy)) s1 I1)
        as [[s2 [E2 [I2 G2]]] | [e [E2 Ee]]].
      * left. exists s2. repeat split; auto.
      * right. exists e. auto.
    + right. exists e. rewrite E1. auto.
Qed.

(** ** Hash primitives *)

(** PRF: with eta in {2, 3}, a 32-byte seed and a 1-byte label it returns
    exactly 64 eta bytes; with anything else it raises a ValueError. *)
Theorem PRF_cases (eta : Z) (s b : bytes) :
  ((eta = 2 \/ eta = 3) /\ length s = 32%nat /\ length b = 1%nat /\
   exists out, PRF eta s b = Ok out /\ Z.of_nat (length out) = 64 * eta) \/
  (~ ((eta = 2 \/ eta = 3) /\ length s = 32%nat /\ length b = 1%nat) /\
   exists msg, PRF eta s b = Raise (ValueError msg)).
Proof.
  destruct (PRF eta s b) as [out|e] eqn:E.
  - left. unfold PRF in E.
    destruct ((eta =? 2) || (eta =? 3)) eqn:E1; cbn [negb] in E; [|discriminate].
    destruct (length s =? 32)%nat eqn:E2; cbn [negb] in E; [|discriminate].
    destruct (length b =? 1)%nat eqn:E3; cbn [negb] in E; [|discriminate].
    apply Ok_inj in E. apply Nat.eqb_eq in E2, E3.
    assert (He : eta = 2 \/ eta = 3).
    { apply orb_true_iff in E1 as [H1|H1]; apply Z.eqb_eq in H1; auto. }
    repeat split; auto. exists out. split; [reflexivity|].
    subst out. rewrite shake256_length. lia.
  - right. destruct (PRF_raises eta s b e E) as [msg ->]. split; [|eauto].
    intros [He [Ls Lb]]. rewrite PRF_ok in E by assumption. discriminate.
Qed.

(** H and J return 32 bytes, and G splits the 64 bytes of SHA3-512 into
    two halves of 32. *)
Theorem hash_output_lengths (s : bytes) :
  length (H s) = 32%nat /\ length (J s) = 32%nat /\
  length (fst (G s)) = 32%nat /\ length (snd (G s)) = 32%nat /\
  fst (G s) ++ snd (G s) = sha3_512 s.
Proof.
  assert (L : length (sha3_512 s) = 64%nat) by (apply hash_length; lia).
  split; [apply H_length|].
  split; [apply shake256_length|].
  unfold G. cbn [fst snd].
  rewrite length_firstn, length_skipn, L.
  repeat split; try reflexivity. apply firstn_skipn.
Qed.

(** ** Bits and bytes, both ways *)

Lemma pack_octet_bits_of (b : byte) : pack_octet (bits_of 8 (byte_val b)) = b.
Proof. destruct b; reflexivity. Qed.

Lemma bits_of_byte_octet (b : byte) : is_octet (bits_of 8 (byte_val b)).
Proof. split; [apply bits_of_length | apply bits_of_is_bit]. Qed.

Lemma bits_to_bytes_bytes_to_bits_id (B : bytes) :
  bits_to_bytes (bytes_to_bits B) = Ok B.
Proof.
  rewrite bytes_to_bits_flat, flat_map_concat_map.
  rewrite bits_to_bytes_concat.
  - f_equal. rewrite map_map.
    rewrite (map_ext _ (fun b => b) pack_octet_bits_of). apply map_id.
  - apply Forall_forall. intros g Hg. apply in_map_iff in Hg as [b [<- _]].
    apply bits_of_byte_octet.
Qed.

Lemma bytes_to_bits_is_bit (B : bytes) : Forall is_bit (bytes_to_bits B).
Proof.
  rewrite bytes_to_bits_flat. apply Forall_flat_map.
  apply Forall_forall. intros b _. apply bits_of_is_bit.
Qed.

Lemma bytes_to_bits_inj (B B' : bytes) :
  bytes_to_bits B = bytes_to_bits B' -> B = B'.
Proof.
  intro E. apply Ok_inj.
  rewrite <- (bits_to_bytes_bytes_to_bits_id B), E.
  apply bits_to_bytes_bytes_to_bits_id.
Qed.

(** [bytes_to_bits] turns n bytes into 8 n bits, from which
    [bits_to_bytes] recovers the bytes; so different byte strings have
    different bit lists. *)
Theorem bytes_to_bits_round_trip (B : bytes) :
  length (bytes_to_bits B) = (8 * length B)%nat /\
  Forall is_bit (bytes_to_bits B) /\
  bits_to_bytes (bytes_to_bits B) = Ok B /\
  (forall B', bytes_to_bits B' = bytes_to_bits B <-> B' = B).
Proof.
  split; [rewrite bytes_to_bits_length; lia|].
  split; [apply bytes_to_bits_is_bit|].
  split; [apply bits_to_bytes_bytes_to_bits_id|].
  intro B'. split; [apply bytes_to_bits_inj | intros ->; reflexivity].
Qed.

Lemma nth_error_slice (l : list Z) (a j n : nat) :
  (j < n)%nat -> nth_error (slice l a (a + n)) j = nth_error l (a + j).
Proof.
  intro Hj. unfold slice. replace (a + n - a)%nat with n by lia.
  rewrite nth_error_firstn.
  replace (j <? n)%nat with true by (symmetry; apply Nat.ltb_lt; exact Hj).
  apply nth_error_skipn.
Qed.

Lemma pack_byte_slice (bits : list Z) (i : nat) :
  pack_byte bits i = pack_byte (slice bits (i * 8) (i * 8 + 8)) 0.
Proof.
  unfold pack_byte. apply for_each_ext. intros j acc Hj. apply in_seq in Hj.
  unfold getitem. cbn [Nat.mul Nat.add].
  rewrite nth_error_slice by lia. reflexivity.
Qed.

(** One byte of [bits_to_bytes]: a value below 256 when the eight entries
    are bits, a ValueError otherwise. *)
Lemma pack_byte_cases (bits : list Z) (i : nat) :
  (i * 8 + 8 <= length bits)%nat ->
  (exists b, pack_byte bits i = Ok (byte_val b) /\
             forall j, (j < 8)%nat -> is_bit (nth (i * 8 + j) bits 0)) \/
  (exists e, pack_byte bits i = Raise e /\ is_ValueError e).
Proof.
  intro Hi.
  destruct (for_each_cases (fun _ : Z => True)
              (fun j => is_bit (nth (i * 8 + j) bits 0)) is_ValueError
              (fun j byte_val =>
                 bit <- getitem bits (i * 8 + j) ;;
                 if negb ((bit =? 0) || (bit =? 1)) then
                   Raise (ValueError "Bits must be 0 or 1")
                 else Ok (Z.lor byte_val (Z.shiftl bit (Z.of_nat j))))
              (range 8)) with (s := 0) as [[v [E [_ G]]] | [e [E Ee]]].
  - intros j acc Hj _. apply in_seq in Hj.
    rewrite getitem_ok by lia. cbn [bind].
    destruct ((nth (i * 8 + j) bits 0 =? 0) || (nth (i * 8 + j) bits 0 =? 1)) eqn:Eb;
      cbn [negb].
    + left. eexists. split; [reflexivity|]. split; [exact I|].
      apply orb_true_iff in Eb as [Eb|Eb]; apply Z.eqb_eq in Eb;
        [left | right]; exact Eb.
    + right. eexists. split; [reflexivity|]. eexists. reflexivity.
  - exact I.
  - left. fold (pack_byte bits i) in E.
    assert (Gj : forall j, (j < 8)%nat -> is_bit (nth (i * 8 + j) bits 0)).
    { intros j Hj. rewrite Forall_forall in G. apply G. apply in_seq. lia. }
    assert (O : is_octet (slice bits (i * 8) (i * 8 + 8))).
    { split; [rewrite slice_length; lia|].
      apply Forall_forall. intros x Hx.
      apply In_nth_error in Hx as [j Hx].
      assert (Hj : (j < 8)%nat).
      { assert (j < length (slice bits (i * 8) (i * 8 + 8)))%nat
          by (apply nth_error_Some; rewrite Hx; discriminate).
        rewrite slice_length in *; lia. }
      rewrite nth_error_slice in Hx by exact Hj.
      apply (nth_error_nth _ _ 0) in Hx. rewrite <- Hx. apply Gj. exact Hj. }
    destruct (pack_octet_spec _ O) as [Ep _].
    rewrite pack_byte_slice, Ep in E. apply Ok_inj in E. subst v.
    eexists. split; [rewrite pack_byte_slice; exact Ep | exact Gj].
  - right. exists e. fold (pack_byte bits i) in E. auto.
Qed.

(** [bits_to_bytes] returns exactly on the bit lists whose length is a
    multiple of eight and whose entries are all 0 or 1, and then
    [bytes_to_bits] gives the list back; on every other list it raises a
    ValueError. *)
Theorem bits_to_bytes_cases (bits : list Z) :
  (exists B, bits_to_bytes bits = Ok B /\
             (length bits mod 8 = 0)%nat /\ Forall is_bit bits /\
             length B = (length bits / 8)%nat /\ bytes_to_bits B = bits) \/
  (exists msg, bits_to_bytes bits = Raise (ValueError msg) /\
               ((length bits mod 8 <> 0)%nat \/ ~ Forall is_bit bits)).
Proof.
  destruct (Nat.eq_dec (length bits mod 8) 0) as [Hm|Hm].
  2:{ right. unfold bits_to_bytes.
      replace (length bits mod 8 =? 0)%nat with false
        by (symmetry; apply Nat.eqb_neq; exact Hm).
      cbn [negb]. eexists. split; [reflexivity | left; exact Hm]. }
  assert (Hlen : length bits = (length bits / 8 * 8)%nat).
  { pose proof (Nat.div_mod_eq (length bits) 8). lia. }
  destruct (for_each_cases
              (fun res : bytes => length res = (length bits / 8)%nat)
              (fun i => forall j, (j < 8)%nat -> is_bit (nth (i * 8 + j) bits 0))
              is_ValueError
              (fun i result =>
                 byte_val <- pack_byte bits i ;;
                 bytearray_setitem result i byte_val)
              (range (length bits / 8)))
    with (s := zero_bytes (length bits / 8))
    as [[B [E [LB G]]] | [e [E [msg ->]]]].
  - intros i res Hi Lres. apply in_seq in Hi.
    destruct (pack_byte_cases bits i) as [[b [Eb Gb]] | [e [Eb Ee]]]; [lia | |].
    + left. rewrite Eb. cbn [bind]. unfold bytearray_setitem.
      rewrite byte_of_Z_val.
      replace (i <? length res)%nat with true
        by (symmetry; apply Nat.ltb_lt; lia).
      eexists. split; [reflexivity|]. split; [|exact Gb].
      now rewrite replace_nth_length.
    + right. exists e. rewrite Eb. auto.
  - unfold zero_bytes. apply repeat_length.
  - left.
    assert (Hb : Forall is_bit bits).
    { apply Forall_forall. intros x Hx. apply (In_nth _ _ 0) in Hx as [k [Hk <-]].
      rewrite Forall_forall in G.
      replace k with (k / 8 * 8 + k mod 8)%nat
        by (pose proof (Nat.div_mod_eq k 8); lia).
      apply G.
      - apply in_seq. split; [lia|]. cbn [Nat.add].
        apply Nat.Div0.div_lt_upper_bound. lia.
      - apply Nat.mod_upper_bound. discriminate. }
    destruct (bits_to_bytes_to_bits (length bits / 8) bits Hlen Hb)
      as [B' [E' [L' R']]].
    exists B'. repeat split; assumption.
  - right. exists msg. split.
    + unfold bits_to_bytes.
      replace (length bits mod 8 =? 0)%nat with true
        by (symmetry; apply Nat.eqb_eq; exact Hm).
      cbn [negb]. exact E.
    + right. intro Hb.
      destruct (bits_to_bytes_to_bits (length bits / 8) bits Hlen Hb)
        as [B' [E' _]].
      unfold bits_to_bytes in E'.
      replace (length bits mod 8 =? 0)%nat with true in E'
        by (symmetry; apply Nat.eqb_eq; exact Hm).
      cbn [negb] in E'. rewrite E in E'. discriminate.
Qed.

(** ** Compress and Decompress for every width *)

Lemma pow2_halves (d : Z) :
  1 <= d < 12 ->
  2 ^ d = 2 * 2 ^ (d - 1) /\ 1 <= 2 ^ (d - 1) <= 1024.
Proof.
  intro Hd. split.
  - replace d with (Z.succ (d - 1)) at 1 by lia. apply Z.pow_succ_r. lia.
  - split.
    + assert (0 < 2 ^ (d - 1)) by (apply Z.pow_pos_nonneg; lia). lia.
    + change 1024 with (2 ^ 10). apply Z.pow_le_mono_r; lia.
Qed.

(** [compress] with a valid width returns a d-bit value for every integer,
    and on [0, q) it is the floor of x 2^d / q without any wrap-around. *)
Theorem compress_in_range (x d : Z) :
  1 <= d < 12 ->
  exists y, compress x d = Ok y /\ 0 <= y < 2 ^ d /\
            (0 <= x < Q -> y = x * 2 ^ d / Q).
Proof.
  intro Hd. rewrite compress_ok by exact Hd.
  destruct (pow2_halves d Hd) as [Hp Hh].
  eexists. split; [reflexivity|]. split.
  - apply Z.mod_pos_bound. lia.
  - intro Hx. apply Z.mod_small. unfold Q in *. split.
    + apply Z.div_pos; nia.
    + apply Z.div_lt_upper_bound; nia.
Qed.

Lemma compress_in_range_witness :
  exists y, compress 3000 4 = Ok y /\ 0 <= y < 2 ^ 4 /\
            (0 <= 3000 < Q -> y = 3000 * 2 ^ 4 / Q).
Proof. apply (compress_in_range 3000 4). lia. Defined.

(** Compressing a coefficient and decompressing it again never overshoots,
    and the loss x - x' satisfies (x - x') 2^d < q + 2^(d-1). *)
Theorem decompress_compress_loss (x d : Z) :
  1 <= d < 12 -> 0 <= x < Q ->
  exists y x',
    compress x d = Ok y /\ decompress y d = Ok x' /\
    x' <= x /\ (x - x') * 2 ^ d < Q + 2 ^ (d - 1).
Proof.
  intros Hd Hx. destruct (pow2_halves d Hd) as [Hp Hh].
  do 2 eexists.
  split; [apply compress_ok; exact Hd|].
  split; [apply decompress_ok; exact Hd|].
  set (p := 2 ^ d) in *. set (h := 2 ^ (d - 1)) in *. unfold Q in *.
  assert (Hy : 0 <= x * p / 3329 < p).
  { split; [apply Z.div_pos; nia | apply Z.div_lt_upper_bound; nia]. }
  rewrite (Z.mod_small _ p) by exact Hy.
  pose proof (Z.div_mod (x * p) 3329 ltac:(lia)) as D1.
  pose proof (Z.mod_pos_bound (x * p) 3329 ltac:(lia)) as B1.
  set (y := x * p / 3329) in *.
  pose proof (Z.div_mod (y * 3329 + h) p ltac:(lia)) as D2.
  pose proof (Z.mod_pos_bound (y * 3329 + h) p ltac:(lia)) as B2.
  set (x' := (y * 3329 + h) / p) in *.
  split; nia.
Qed.

Lemma decompress_compress_loss_witness :
  exists y x',
    compress 2500 4 = Ok y /\ decompress y 4 = Ok x' /\
    x' <= 2500 /\ (2500 - x') * 2 ^ 4 < Q + 2 ^ (4 - 1).
Proof. apply (decompress_compress_loss 2500 4); unfold Q; lia. Defined.

(** Decompressing a d-bit value and compressing it again gives the value
    back or the value below it: the floor in [compress] can lose one. *)
Theorem compress_decompress_near (y d : Z) :
  1 <= d < 12 -> 0 <= y < 2 ^ d ->
  exists x y',
    decompress y d = Ok x /\ compress x d = Ok y' /\
    0 <= x < Q /\ (y' = y \/ y' = y - 1).
Proof.
  intros Hd Hy. destruct (pow2_halves d Hd) as [Hp Hh].
  do 2 eexists.
  split; [apply decompress_ok; exact Hd|].
  split; [apply compress_ok; exact Hd|].
  set (p := 2 ^ d) in *. set (h := 2 ^ (d - 1)) in *. unfold Q in *.
  pose proof (Z.div_mod (y * 3329 + h) p ltac:(lia)) as D2.
  pose proof (Z.mod_pos_bound (y * 3329 + h) p ltac:(lia)) as B2.
  set (x := (y * 3329 + h) / p) in *.
  assert (Hx : 0 <= x < 3329) by nia.
  pose proof (Z.div_mod (x * p) 3329 ltac:(lia)) as D1.
  pose proof (Z.mod_pos_bound (x * p) 3329 ltac:(lia)) as B1.
  assert (Hy' : 0 <= x * p / 3329 < p).
  { split; [apply Z.div_pos; nia | apply Z.div_lt_upper_bound; nia]. }
  rewrite (Z.mod_small _ p) by exact Hy'.
  set (y' := x * p / 3329) in *.
  split; [exact Hx|]. nia.
Qed.

Lemma compress_decompress_near_witness :
  exists x y',
    decompress 1 10 = Ok x /\ compress x 10 = Ok y' /\
    0 <= x < Q /\ (y' = 1 \/ y' = 1 - 1).
Proof. apply (compress_decompress_near 1 10); lia. Defined.

(** The lost unit does occur. *)
Example compress_decompress_loses_one :
  (x <- decompress 1 10 ;; compress x 10) = Ok 0.
Proof. reflexivity. Qed.

(** ** ByteEncode and ByteDecode: when they return *)

Lemma modulus_of_pos (d : Z) : 0 <= d -> 0 < modulus_of d.
Proof.
  intro Hd. unfold modulus_of, Q. destruct (d <? 12); [|lia].
  apply Z.pow_pos_nonneg; lia.
Qed.

Lemma in_modulus_dec (m x : Z) : {0 <= x < m} + {~ 0 <= x < m}.
Proof.
  destruct (Z_le_dec 0 x); [|right; lia].
  destruct (Z_lt_dec x m); [left | right]; lia.
Qed.

(** [byte_encode] returns exactly for 256 values in [0, m) with a
    non-negative width (m = 2^d below 12 and q from 12 on), and then the
    32 d bytes whose bits are the d low bits of each value in turn; on
    every other input it raises a ValueError. *)
Theorem byte_encode_cases (F : list Z) (d : Z) :
  (length F = 256%nat /\ 0 <= d /\
   Forall (fun x => 0 <= x < modulus_of d) F /\
   exists B, byte_encode F d = Ok B /\ Z.of_nat (length B) = 32 * d /\
             bytes_to_bits B = flat_map (bits_of (Z.to_nat d)) F) \/
  (~ (length F = 256%nat /\ 0 <= d /\
      Forall (fun x => 0 <= x < modulus_of d) F) /\
   exists msg, byte_encode F d = Raise (ValueError msg)).
Proof.
  destruct (Nat.eq_dec (length F) 256) as [LF|LF].
  2:{ right. split; [tauto|]. unfold byte_encode.
      replace (length F =? 256)%nat with false
        by (symmetry; apply Nat.eqb_neq; exact LF).
      eexists. reflexivity. }
  destruct (Z_lt_dec d 0) as [Hneg|Hd].
  { right. split; [lia|]. unfold byte_encode, modulus_for, lshift.
    rewrite LF. cbn [Nat.eqb negb].
    replace (d <? 12) with true by (symmetry; apply Z.ltb_lt; lia).
    replace (d <? 0) with true by (symmetry; apply Z.ltb_lt; lia).
    eexists. reflexivity. }
  destruct (Forall_dec _ (in_modulus_dec (modulus_of d)) F) as [HF|HF].
  - left. destruct (byte_encode_ok F d) as [B [E [LB R]]];
      [lia | exact LF | exact HF |].
    repeat split; try assumption; try lia.
    exists B. repeat split; try assumption. lia.
  - right. split; [tauto|]. unfold byte_encode.
    rewrite LF. cbn [Nat.eqb negb].
    rewrite modulus_for_ok by lia. cbn [bind].
    replace ((256 * d) mod 8 =? 0) with true
      by (symmetry; apply Z.eqb_eq; replace (256 * d) with (32 * d * 8) by lia;
          apply Z.mod_mul; lia).
    cbn [negb]. fold (modulus_of d).
    rewrite byte_encode_loop_rejects by exact HF.
    eexists. reflexivity.
Qed.

(** [byte_decode] returns exactly for a non-negative width d and an input
    of 32 d bytes, and then 256 values in [0, m); on every other input it
    raises a ValueError. *)
Theorem byte_decode_cases_by_length (B : bytes) (d : Z) :
  (0 <= d /\ Z.of_nat (length B) = 32 * d /\
   exists F, byte_decode B d = Ok F /\ length F = 256%nat /\
             Forall (fun x => 0 <= x < modulus_of d) F) \/
  (~ (0 <= d /\ Z.of_nat (length B) = 32 * d) /\
   exists msg, byte_decode B d = Raise (ValueError msg)).
Proof.
  destruct (Z_lt_dec d 0) as [Hneg|Hd].
  { right. split; [lia|]. unfold byte_decode, modulus_for, lshift.
    replace (d <? 12) with true by (symmetry; apply Z.ltb_lt; lia).
    replace (d <? 0) with true by (symmetry; apply Z.ltb_lt; lia).
    eexists. reflexivity. }
  destruct (Z.eq_dec (Z.of_nat (length B)) (32 * d)) as [LB|LB].
  - left. split; [lia|]. split; [exact LB|].
    rewrite byte_decode_ok by lia. fold (modulus_of d).
    eexists. split; [reflexivity|]. split.
    + unfold range. now rewrite length_map, length_seq.
    + apply Forall_forall. intros x Hx. apply in_map_iff in Hx as [i [<- _]].
      apply Z.mod_pos_bound. apply modulus_of_pos. lia.
  - right. split; [lia|].
    rewrite byte_decode_rejects_length by lia. eexists. reflexivity.
Qed.

(** ** ByteEncode after ByteDecode *)

Lemma shifted_sum_from_cons (a : nat) (b : Z) (l : list Z) :
  shifted_sum_from a (b :: l)
  = Z.shiftl b (Z.of_nat a) + shifted_sum_from (S a) l.
Proof.
  unfold shifted_sum_from. cbn [length seq combine map fold_left fst snd].
  rewrite fold_add_shift. lia.
Qed.

Lemma shifted_sum_from_succ (l : list Z) :
  forall a, shifted_sum_from (S a) l = 2 * shifted_sum_from a l.
Proof.
  induction l as [|b l IH]; intro a.
  - reflexivity.
  - rewrite !shifted_sum_from_cons, (IH (S a)), (IH a).
    rewrite !Z.shiftl_mul_pow2 by lia.
    rewrite Nat2Z.inj_succ, Z.pow_succ_r by lia. lia.
Qed.

Lemma sum_shifted_cons (b : Z) (l : list Z) :
  sum_shifted (b :: l) = b + 2 * sum_shifted l.
Proof.
  change (sum_shifted (b :: l)) with (shifted_sum_from 0 (b :: l)).
  change (sum_shifted l) with (shifted_sum_from 0 l).
  rewrite shifted_sum_from_cons, shifted_sum_from_succ.
  rewrite Z.shiftl_0_r. reflexivity.
Qed.

Lemma bits_of_succ (n : nat) (x : Z) :
  bits_of (S n) x = x mod 2 :: bits_of n (x / 2).
Proof.
  unfold bits_of, range. cbn [seq map]. f_equal.
  - rewrite Z.shiftr_0_r. apply land_1_mod.
  - rewrite <- seq_shift, map_map. apply map_ext. intro j.
    f_equal. rewrite Nat2Z.inj_succ.
    replace (x / 2) with (Z.shiftr x 1)
      by (rewrite Z.shiftr_div_pow2 by lia; reflexivity).
    rewrite Z.shiftr_shiftr by lia. f_equal. lia.
Qed.

(** A list of bits is the bit list of the number it spells. *)
Lemma bits_of_sum_shifted (l : list Z) :
  Forall is_bit l ->
  bits_of (length l) (sum_shifted l) = l /\
  0 <= sum_shifted l < 2 ^ Z.of_nat (length l).
Proof.
  induction 1 as [|b l Hb _ [IH1 IH2]].
  - split; [reflexivity | cbn; lia].
  - rewrite sum_shifted_cons. cbn [length]. rewrite bits_of_succ.
    rewrite Nat2Z.inj_succ, Z.pow_succ_r by lia.
    assert (Hm : (b + 2 * sum_shifted l) mod 2 = b /\
                 (b + 2 * sum_shifted l) / 2 = sum_shifted l).
    { destruct Hb as [-> | ->]; split;
        Z.div_mod_to_equations; lia. }
    destruct Hm as [-> ->]. rewrite IH1.
    split; [reflexivity|]. destruct Hb as [-> | ->]; lia.
Qed.

Lemma firstn_add {A : Type} (a b : nat) (l : list A) :
  firstn (a + b) l = firstn a l ++ firstn b (skipn a l).
Proof.
  revert l. induction a as [|a IH]; intro l; [reflexivity|].
  destruct l as [|x l]; cbn [Nat.add firstn skipn app].
  - now rewrite firstn_nil.
  - now rewrite IH.
Qed.

(** Consecutive chunks of width n put together are a prefix. *)
Lemma flat_map_slices (l : list Z) (n k : nat) :
  flat_map (fun i => slice l (i * n) ((i + 1) * n)) (seq 0 k)
  = firstn (k * n) l.
Proof.
  induction k as [|k IH]; [reflexivity|].
  rewrite seq_S, flat_map_app, IH. cbn [flat_map Nat.add].
  rewrite app_nil_r. unfold slice.
  replace ((k + 1) * n - k * n)%nat with n by lia.
  replace (S k * n)%nat with (k * n + n)%nat by lia.
  now rewrite firstn_add.
Qed.

Lemma slice_is_bit (l : list Z) (a b : nat) :
  Forall is_bit l -> Forall is_bit (slice l a b).
Proof.
  intro H. unfold slice.
  rewrite <- (firstn_skipn a l) in H. apply Forall_app in H as [_ H].
  rewrite <- (firstn_skipn (b - a) (skipn a l)) in H.
  apply Forall_app in H as [H _]. exact H.
Qed.

(** For a width below 12 decoding loses nothing: encoding the decoded
    values gives the input bytes back. *)
Theorem byte_encode_byte_decode (B : bytes) (d : Z) :
  0 <= d < 12 -> Z.of_nat (length B) = 32 * d ->
  exists F, byte_decode B d = Ok F /\ byte_encode F d = Ok B.
Proof.
  intros Hd LB. rewrite byte_decode_ok by lia.
  replace (d <? 12) with true by (symmetry; apply Z.ltb_lt; lia).
  set (dn := Z.to_nat d).
  set (bits := bytes_to_bits B).
  assert (Lbits : length bits = (256 * dn)%nat).
  { unfold bits. rewrite bytes_to_bits_length. lia. }
  assert (Hchunk : forall i, (i < 256)%nat ->
            length (slice bits (i * dn) ((i + 1) * dn)) = dn /\
            Forall is_bit (slice bits (i * dn) ((i + 1) * dn))).
  { intros i Hi. split.
    - rewrite slice_length; [lia|]. rewrite Lbits. nia.
    - apply slice_is_bit. apply bytes_to_bits_is_bit. }
  assert (Hval : forall i, (i < 256)%nat ->
            0 <= chunk_value B dn i < 2 ^ d /\
            bits_of dn (chunk_value B dn i) = slice bits (i * dn) ((i + 1) * dn)).
  { intros i Hi. destruct (Hchunk i Hi) as [L Hb].
    destruct (bits_of_sum_shifted _ Hb) as [E1 E2].
    rewrite L in E1, E2.
    replace (Z.of_nat dn) with d in E2 by (unfold dn; lia).
    split; [exact E2 | exact E1]. }
  eexists. split; [reflexivity|].
  destruct (byte_encode_ok
              (map (fun i => chunk_value B dn i mod 2 ^ d) (range 256)) d)
    as [B' [E [_ R]]].
  - lia.
  - unfold range. now rewrite length_map, length_seq.
  - replace (d <? 12) with true by (symmetry; apply Z.ltb_lt; lia).
    apply Forall_forall. intros x Hx. apply in_map_iff in Hx as [i [<- _]].
    apply Z.mod_pos_bound. apply Z.pow_pos_nonneg; lia.
  - rewrite E. f_equal. apply bytes_to_bits_inj. rewrite R.
    fold dn. rewrite flat_map_concat_map, map_map.
    rewrite (map_ext_in _ (fun i => slice bits (i * dn) ((i + 1) * dn))).
    + rewrite <- flat_map_concat_map. unfold range.
      rewrite flat_map_slices. apply firstn_all2. fold bits. rewrite Lbits. lia.
    + intros i Hi. apply in_seq in Hi.
      destruct (Hval i ltac:(lia)) as [Hr Hbits].
      rewrite Z.mod_small by exact Hr. exact Hbits.
Qed.

Lemma byte_encode_byte_decode_witness :
  exists F, byte_decode (repeat xa5 320) 10 = Ok F /\
            byte_encode F 10 = Ok (repeat xa5 320).
Proof.
  apply (byte_encode_byte_decode (repeat xa5 320) 10); [lia | reflexivity].
Defined.

(** With d = 12 the reduction modulo q makes decoding lossy. *)
Example byte_encode_byte_decode_12_differs :
  (F <- byte_decode (repeat xff 384) 12 ;; byte_encode F 12)
  <> Ok (repeat xff 384).
Proof. vm_compute. discriminate. Qed.

(** ** The samplers *)

(** With an accepted candidate in the chunk the loop makes progress in
    every iteration and returns within 256 - len(coefficients) of them. *)
Lemma sample_ntt_loop_progress (xof : XOF) :
  length (fst (squeeze xof 3)) = 3%nat ->
  accepts1 (fst (squeeze xof 3)) || accepts2 (fst (squeeze xof 3)) = true ->
  forall fuel coefficients,
    (length coefficients <= 256)%nat ->
    (256 - length coefficients <= fuel)%nat ->
    exists F, sample_ntt_loop fuel xof coefficients = ret F.
Proof.
  intros HC Hacc fuel. induction fuel as [|fuel IH]; intros cs Hle Hfuel.
  - exists cs. cbn [sample_ntt_loop].
    replace (length cs <? 256)%nat with false
      by (symmetry; apply Nat.ltb_ge; lia).
    reflexivity.
  - cbn [sample_ntt_loop].
    destruct (length cs <? 256)%nat eqn:E; [|exists cs; reflexivity].
    apply Nat.ltb_lt in E.
    destruct (squeeze xof 3) as [C xof'] eqn:ES.
    assert (xof' = xof) by (pose proof (squeeze_state xof 3) as S0;
                           rewrite ES in S0; exact S0).
    subst xof'. cbn [fst] in HC, Hacc.
    rewrite HC. cbn [Nat.eqb negb].
    fold (candidate1 C). fold (candidate2 C).
    unfold accepts1, accepts2 in Hacc.
    destruct (candidate1 C <? Q) eqn:E1; cbn [andb].
    + destruct (length (cs ++ [candidate1 C]) =? 256)%nat eqn:E256.
      * eexists. reflexivity.
      * apply Nat.eqb_neq in E256. rewrite length_app in E256. cbn in E256.
        assert (L1 : length (cs ++ [candidate1 C]) = S (length cs))
          by (rewrite length_app; cbn; lia).
        destruct (candidate2 C <? Q); cbn [andb].
        -- destruct (length (cs ++ [candidate1 C]) <? 256)%nat eqn:E2.
           ++ apply Nat.ltb_lt in E2. rewrite L1 in E2.
              apply IH; rewrite length_app, L1; cbn [length]; lia.
           ++ apply IH; rewrite L1; lia.
        -- apply IH; rewrite L1; lia.
    + cbn [orb] in Hacc. rewrite Hacc. cbn [andb].
      replace (length cs <? 256)%nat with true
        by (symmetry; apply Nat.ltb_lt; exact E).
      apply IH; rewrite length_app; cbn [length]; lia.
Qed.

(** [sample_ntt] on a 34-byte input looks only at the first three bytes C
    of the SHAKE128 stream: when one of the two candidates of C is below q
    it returns (256 iterations are enough) 256 coefficients below q that
    are all one of these two candidates; when both are rejected it never
    returns.  Any other input length raises a ValueError. *)
Theorem sample_ntt_cases (B : bytes) :
  (length B <> 34%nat /\
   forall fuel, exists msg, sample_ntt fuel B = Some (Raise (ValueError msg))) \/
  (length B = 34%nat /\
   accepts1 (shake128 B 3) || accepts2 (shake128 B 3) = true /\
   exists F,
     (forall fuel, (256 <= fuel)%nat -> sample_ntt fuel B = ret F) /\
     length F = 256%nat /\
     Forall (fun x => in_Zq x /\
               (x = candidate1 (shake128 B 3) \/ x = candidate2 (shake128 B 3))) F) \/
  (length B = 34%nat /\
   accepts1 (shake128 B 3) || accepts2 (shake128 B 3) = false /\
   forall fuel, sample_ntt fuel B = None).
Proof.
  destruct (Nat.eq_dec (length B) 34) as [LB|LB].
  2:{ left. split; [exact LB|]. intro fuel. unfold sample_ntt.
      replace (length B =? 34)%nat with false
        by (symmetry; apply Nat.eqb_neq; exact LB).
      eexists. reflexivity. }
  right.
  assert (Hdef : forall fuel,
            sample_ntt fuel B = sample_ntt_loop fuel (absorb XOF_init B) []).
  { intro fuel. unfold sample_ntt. rewrite LB. reflexivity. }
  assert (HC : length (fst (squeeze (absorb XOF_init B) 3)) = 3%nat)
    by (rewrite squeeze_absorbed; apply shake128_length).
  destruct (accepts1 (shake128 B 3) || accepts2 (shake128 B 3)) eqn:Hacc.
  - left. split; [exact LB|]. split; [reflexivity|].
    destruct (sample_ntt_loop_progress (absorb XOF_init B) HC) with
      (fuel := 256%nat) (coefficients := @nil Z) as [F EF].
    + rewrite squeeze_absorbed. exact Hacc.
    + cbn; lia.
    + cbn; lia.
    + exists F. split.
      * intros fuel Hf. rewrite Hdef.
        apply (sample_ntt_loop_more_fuel 256 _ _ _ EF). exact Hf.
      * apply (sample_ntt_returns 256 B F). rewrite Hdef. exact EF.
  - right. split; [exact LB|]. split; [reflexivity|].
    intro fuel. rewrite Hdef.
    apply orb_false_iff in Hacc as [H1 H2].
    unfold accepts1, accepts2 in H1, H2.
    apply Z.ltb_ge in H1, H2.
    apply sample_ntt_loop_stuck;
      [exact HC | rewrite squeeze_absorbed; exact H1
       | rewrite squeeze_absorbed; exact H2 | cbn [length]; lia].
Qed.

Lemma py_sum_bits (l : list Z) :
  Forall is_bit l -> 0 <= py_sum l <= Z.of_nat (length l).
Proof.
  unfold py_sum. induction 1 as [|b l Hb _ IH].
  - cbn. lia.
  - cbn [fold_left length]. rewrite fold_add_shift.
    destruct Hb as [-> | ->]; lia.
Qed.

Lemma slice_length_le {A : Type} (l : list A) (a n : nat) :
  (length (slice l a (a + n)) <= n)%nat.
Proof. unfold slice. rewrite length_firstn. lia. Qed.

Lemma centered_mod (eta z : Z) :
  0 <= eta < Q -> - eta <= z <= eta -> centered_within eta (z mod Q).
Proof.
  intros He Hz. unfold centered_within, Q in *.
  Z.div_mod_to_equations. lia.
Qed.

(** [sample_poly_cbd] returns exactly for eta in {2, 3} and 64 eta input
    bytes, and then 256 coefficients that each stand for an integer
    between -eta and eta (one of 0 .. eta or q - eta .. q - 1); on every
    other input it raises a ValueError. *)
Theorem sample_poly_cbd_cases (eta : Z) (B : bytes) :
  ((eta = 2 \/ eta = 3) /\ Z.of_nat (length B) = 64 * eta /\
   exists f, sample_poly_cbd eta B = Ok f /\ length f = 256%nat /\
             Forall (centered_within eta) f) \/
  (~ ((eta = 2 \/ eta = 3) /\ Z.of_nat (length B) = 64 * eta) /\
   exists msg, sample_poly_cbd eta B = Raise (ValueError msg)).
Proof.
  unfold sample_poly_cbd.
  destruct ((eta =? 2) || (eta =? 3)) eqn:E1; cbn [negb].
  2:{ right. split; [|eexists; reflexivity].
      intros [[-> | ->] _]; discriminate. }
  assert (He : eta = 2 \/ eta = 3).
  { apply orb_true_iff in E1 as [H1|H1]; apply Z.eqb_eq in H1; auto. }
  destruct (Z.of_nat (length B) =? 64 * eta) eqn:E2; cbn [negb].
  2:{ right. apply Z.eqb_neq in E2. split; [tauto | eexists; reflexivity]. }
  apply Z.eqb_eq in E2. left. split; [exact He|]. split; [exact E2|].
  eexists. split; [reflexivity|]. split.
  - unfold range. now rewrite length_map, length_seq.
  - apply Forall_forall. intros x Hx. apply in_map_iff in Hx as [i [<- _]].
    cbv zeta.
    pose proof (bytes_to_bits_is_bit B) as Hb.
    set (e := Z.to_nat eta).
    pose proof (py_sum_bits _ (slice_is_bit (bytes_to_bits B)
                  (i * 2 * e) (i * 2 * e + e) Hb)) as Hx.
    pose proof (py_sum_bits _ (slice_is_bit (bytes_to_bits B)
                  (i * 2 * e + e) (i * 2 * e + 2 * e) Hb)) as Hy.
    pose proof (slice_length_le (bytes_to_bits B) (i * 2 * e) e) as Lx.
    pose proof (slice_length_le (bytes_to_bits B) (i * 2 * e + e) e) as Ly.
    replace (i * 2 * e + e + e)%nat with (i * 2 * e + 2 * e)%nat in Ly by lia.
    apply centered_mod; [unfold Q; lia|].
    assert (Z.of_nat e = eta) by (unfold e; lia). lia.
Qed.

(** ** The precomputed tables *)

Lemma table_entries_ok : forallb table_entry_ok (seq 0 128) = true.
Proof. vm_compute. reflexivity. Qed.

(** For every index i below 128: [bitrev7] sends i to an r below 128 and r
    back to i; ZETA_PRECOMP[i] = 17^r mod q; GAMMA_PRECOMP[i] is congruent
    to 17^(2r+1); ZETA_PRECOMP_INV[i] is the inverse of ZETA_PRECOMP[i] in
    [0, q). *)
Theorem tables_match_bitrev7 (i : nat) :
  (i < 128)%nat ->
  exists r,
    bitrev7 (Z.of_nat i) = Ok r /\ 0 <= r < 128 /\
    bitrev7 r = Ok (Z.of_nat i) /\
    nth i ZETA_PRECOMP 0 = pow_mod 17 (Z.to_nat r) /\
    (nth i GAMMA_PRECOMP 0) mod Q = pow_mod 17 (2 * Z.to_nat r + 1) /\
    0 <= nth i ZETA_PRECOMP_INV 0 < Q /\
    (nth i ZETA_PRECOMP 0 * nth i ZETA_PRECOMP_INV 0) mod Q = 1.
Proof.
  intro Hi. pose proof table_entries_ok as H.
  rewrite forallb_forall in H.
  specialize (H i ltac:(apply in_seq; lia)).
  unfold table_entry_ok in H.
  destruct (bitrev7 (Z.of_nat i)) as [r|e]; [|discriminate].
  repeat (apply andb_true_iff in H; destruct H as [H ?]).
  destruct (bitrev7 r) as [i'|e] eqn:Er; [|discriminate].
  exists r.
  repeat match goal with
         | H : (_ =? _) = true |- _ => apply Z.eqb_eq in H
         | H : (_ <=? _) = true |- _ => apply Z.leb_le in H
         | H : (_ <? _) = true |- _ => apply Z.ltb_lt in H
         end.
  subst i'. repeat split; auto.
Qed.

Lemma tables_match_bitrev7_witness :
  exists r,
    bitrev7 (Z.of_nat 3) = Ok r /\ 0 <= r < 128 /\
    bitrev7 r = Ok (Z.of_nat 3) /\
    nth 3 ZETA_PRECOMP 0 = pow_mod 17 (Z.to_nat r) /\
    (nth 3 GAMMA_PRECOMP 0) mod Q = pow_mod 17 (2 * Z.to_nat r + 1) /\
    0 <= nth 3 ZETA_PRECOMP_INV 0 < Q /\
    (nth 3 ZETA_PRECOMP 0 * nth 3 ZETA_PRECOMP_INV 0) mod Q = 1.
Proof. apply (tables_match_bitrev7 3). lia. Defined.

(** [bitrev7] is no reversal of seven bits outside [0, 128): wider numbers
    are reversed over all their digits, negative ones make [int] raise. *)
Example bitrev7_outside :
  bitrev7 128 = Ok 1 /\ bitrev7 6 = Ok 48 /\
  bitrev7 (-5) = Raise (ValueError "invalid literal for int() with base 2").
Proof. repeat split. Qed.

(** ** Multiplication in the transform domain *)

Lemma base_case_multiply_comm (a0 a1 b0 b1 gamma : Z) :
  base_case_multiply a0 a1 b0 b1 gamma = base_case_multiply b0 b1 a0 a1 gamma.
Proof.
  unfold base_case_multiply.
  rewrite (Z.mul_comm b0 a0), (Z.mul_comm b1 a1).
  rewrite (Z.mul_comm b0 a1), (Z.mul_comm b1 a0).
  rewrite (Z.add_comm ((a1 * b0) mod Q)). reflexivity.
Qed.

Lemma multiply_ntts_swap (f_hat g_hat : list Z) :
  multiply_ntts f_hat g_hat = multiply_ntts g_hat f_hat.
Proof.
  unfold multiply_ntts. apply for_each_ext. intros i h _.
  destruct (getitem GAMMA_PRECOMP i) as [gamma|e]; cbn [bind]; [|reflexivity].
  unfold getitem.
  destruct (nth_error f_hat (2 * i)) as [f0|];
    destruct (nth_error f_hat (2 * i + 1)) as [f1|];
    destruct (nth_error g_hat (2 * i)) as [g0|];
    destruct (nth_error g_hat (2 * i + 1)) as [g1|];
    cbn [bind]; try reflexivity.
  now rewrite base_case_multiply_comm.
Qed.

(** [multiply_ntts] does not depend on the order of its arguments,
    whatever their lengths: the same product, or the same error. *)
Theorem multiply_ntts_comm (f_hat g_hat : list Z) :
  multiply_ntts f_hat g_hat = multiply_ntts g_hat f_hat.
Proof. apply multiply_ntts_swap. Qed.

Lemma replace_nth_app_at {A : Type} (l1 l2 : list A) (x v : A) (n : nat) :
  length l1 = n -> replace_nth (l1 ++ x :: l2) n v = l1 ++ v :: l2.
Proof. intros <-. apply replace_nth_app. Qed.

(** The pair loop, after [k] pairs. *)
Lemma multiply_ntts_loop (f_hat g_hat : list Z) :
  (256 <= length f_hat)%nat -> (256 <= length g_hat)%nat ->
  forall k, (k <= 128)%nat ->
    for_each (seq 0 k)
      (fun i h_hat =>
         gamma <- getitem GAMMA_PRECOMP i ;;
         f0 <- getitem f_hat (2 * i) ;;
         f1 <- getitem f_hat (2 * i + 1) ;;
         g0 <- getitem g_hat (2 * i) ;;
         g1 <- getitem g_hat (2 * i + 1) ;;
         let (h0, h1) := base_case_multiply f0 f1 g0 g1 gamma in
         h_hat <- setitem h_hat (2 * i) h0 ;;
         setitem h_hat (2 * i + 1) h1)
      (repeat 0 256)
    = Ok (flat_map (product_pair f_hat g_hat) (seq 0 k)
            ++ repeat 0 (256 - 2 * k)).
Proof.
  intros Lf Lg k. induction k as [|k IH]; intro Hk.
  - reflexivity.
  - rewrite seq_S, for_each_app, IH by lia. cbn [bind Nat.add for_each].
    rewrite (getitem_ok GAMMA_PRECOMP k)
      by (change (length GAMMA_PRECOMP) with 128%nat; lia).
    cbn [bind]. rewrite !getitem_ok by lia. cbn [bind].
    rewrite flat_map_app. cbn [flat_map]. rewrite app_nil_r.
    destruct (base_case_multiply (nth (2 * k) f_hat 0) (nth (2 * k + 1) f_hat 0)
                (nth (2 * k) g_hat 0) (nth (2 * k + 1) g_hat 0)
                (nth k GAMMA_PRECOMP 0)) as [h0 h1] eqn:Eb.
    assert (Epp : product_pair f_hat g_hat k = [h0; h1])
      by (unfold product_pair; rewrite Eb; reflexivity).
    rewrite Epp.
    set (pre := flat_map (product_pair f_hat g_hat) (seq 0 k)).
    assert (Lpre : length pre = (2 * k)%nat).
    { unfold pre. rewrite (flat_map_uniform_length _ 2), length_seq; [lia|].
      intro a. unfold product_pair.
      destruct (base_case_multiply _ _ _ _ _); reflexivity. }
    replace (256 - 2 * k)%nat with (S (S (256 - 2 * S k))) by lia.
    cbn [repeat].
    set (rest := repeat 0 (256 - 2 * S k)).
    unfold setitem.
    assert (L0 : length (pre ++ 0 :: 0 :: rest) = (2 * k + S (S (length rest)))%nat)
      by (rewrite length_app, Lpre; reflexivity).
    replace (Nat.ltb (2 * k) (length (pre ++ 0 :: 0 :: rest))) with true
      by (symmetry; apply Nat.ltb_lt; rewrite L0; lia).
    cbn [bind]. rewrite (replace_nth_app_at pre _ _ _ _ Lpre).
    replace (pre ++ h0 :: 0 :: rest) with ((pre ++ [h0]) ++ 0 :: rest)
      by (rewrite <- app_assoc; reflexivity).
    assert (Lpre1 : length (pre ++ [h0]) = (2 * k + 1)%nat)
      by (rewrite length_app, Lpre; reflexivity).
    assert (L1 : length ((pre ++ [h0]) ++ 0 :: rest) = (2 * k + 1 + S (length rest))%nat)
      by (rewrite length_app, Lpre1; reflexivity).
    replace (Nat.ltb (2 * k + 1) (length ((pre ++ [h0]) ++ 0 :: rest))) with true
      by (symmetry; apply Nat.ltb_lt; rewrite L1; lia).
    rewrite (replace_nth_app_at (pre ++ [h0]) _ _ _ _ Lpre1).
    rewrite <- !app_assoc. reflexivity.
Qed.

Lemma multiply_ntts_closed_form (f_hat g_hat : list Z) :
  (256 <= length f_hat)%nat -> (256 <= length g_hat)%nat ->
  multiply_ntts f_hat g_hat
  = Ok (flat_map (product_pair f_hat g_hat) (range 128)).
Proof.
  intros Lf Lg. unfold multiply_ntts, range, N.
  rewrite (multiply_ntts_loop f_hat g_hat Lf Lg 128) by lia.
  cbn [Nat.sub Nat.mul Nat.add repeat]. now rewrite app_nil_r.
Qed.

(** [multiply_ntts] returns exactly when both arguments have at least 256
    coefficients, and then the 128 base-case products of the coefficient
    pairs, 256 reduced coefficients; a shorter argument raises
    IndexError. *)
Theorem multiply_ntts_cases (f_hat g_hat : list Z) :
  ((256 <= length f_hat)%nat /\ (256 <= length g_hat)%nat /\
   multiply_ntts f_hat g_hat
   = Ok (flat_map (product_pair f_hat g_hat) (range 128)) /\
   length (flat_map (product_pair f_hat g_hat) (range 128)) = 256%nat /\
   Forall in_Zq (flat_map (product_pair f_hat g_hat) (range 128))) \/
  (((length f_hat < 256)%nat \/ (length g_hat < 256)%nat) /\
   multiply_ntts f_hat g_hat = Raise IndexError).
Proof.
  destruct (le_lt_dec 256 (length f_hat)) as [Lf|Lf];
    [destruct (le_lt_dec 256 (length g_hat)) as [Lg|Lg]|].
  - left. split; [exact Lf|]. split; [exact Lg|]. split; [|split].
    + apply multiply_ntts_closed_form; assumption.
    + unfold range. rewrite (flat_map_uniform_length _ 2), length_seq; [lia|].
      intro a. unfold product_pair.
      destruct (base_case_multiply _ _ _ _ _); reflexivity.
    + apply Forall_flat_map. apply Forall_forall. intros i _.
      unfold product_pair, base_case_multiply.
      repeat constructor; apply in_Zq_mod.
  - right. split; [right; exact Lg|].
    rewrite multiply_ntts_swap. unfold multiply_ntts.
    destruct (for_each_cases (fun h : list Z => length h = 256%nat)
                (fun i => (2 * i + 1 < length g_hat)%nat)
                (fun e => e = IndexError)
                (fun i h_hat =>
                   gamma <- getitem GAMMA_PRECOMP i ;;
                   f0 <- getitem g_hat (2 * i) ;;
                   f1 <- getitem g_hat (2 * i + 1) ;;
                   g0 <- getitem f_hat (2 * i) ;;
                   g1 <- getitem f_hat (2 * i + 1) ;;
                   let (h0, h1) := base_case_multiply f0 f1 g0 g1 gamma in
                   h_hat <- setitem h_hat (2 * i) h0 ;;
                   setitem h_hat (2 * i + 1) h1)
                (range 128)) with (s := repeat 0 N)
      as [[h [_ [_ G]]] | [e [E ->]]]; [ | reflexivity | | exact E].
    + intros i h Hi Lh. apply in_seq in Hi.
      rewrite (getitem_ok GAMMA_PRECOMP i)
        by (change (length GAMMA_PRECOMP) with 128%nat; lia).
      cbn [bind]. unfold getitem.
      destruct (nth_error g_hat (2 * i)) as [f0|]; cbn [bind]; [|right; eauto].
      destruct (nth_error g_hat (2 * i + 1)) as [f1|] eqn:E1; cbn [bind];
        [|right; eauto].
      destruct (nth_error f_hat (2 * i)) as [g0|]; cbn [bind]; [|right; eauto].
      destruct (nth_error f_hat (2 * i + 1)) as [g1|]; cbn [bind]; [|right; eauto].
      destruct (base_case_multiply f0 f1 g0 g1 (nth i GAMMA_PRECOMP 0)) as [h0 h1].
      left. rewrite setitem_ok by lia. cbn [bind].
      rewrite setitem_ok by (rewrite replace_nth_length; lia).
      eexists. split; [reflexivity|]. split.
      * now rewrite !replace_nth_length.
      * apply nth_error_Some. rewrite E1. discriminate.
    + exfalso. rewrite Forall_forall in G.
      specialize (G 127%nat ltac:(apply in_seq; lia)). lia.
  - right. split; [left; exact Lf|]. unfold multiply_ntts.
    destruct (for_each_cases (fun h : list Z => length h = 256%nat)
                (fun i => (2 * i + 1 < length f_hat)%nat)
                (fun e => e = IndexError)
                (fun i h_hat =>
                   gamma <- getitem GAMMA_PRECOMP i ;;
                   f0 <- getitem f_hat (2 * i) ;;
                   f1 <- getitem f_hat (2 * i + 1) ;;
                   g0 <- getitem g_hat (2 * i) ;;
                   g1 <- getitem g_hat (2 * i + 1) ;;
                   let (h0, h1) := base_case_multiply f0 f1 g0 g1 gamma in
                   h_hat <- setitem h_hat (2 * i) h0 ;;
                   setitem h_hat (2 * i + 1) h1)
                (range 128)) with (s := repeat 0 N)
      as [[h [_ [_ G]]] | [e [E ->]]]; [ | reflexivity | | exact E].
    + intros i h Hi Lh. apply in_seq in Hi.
      rewrite (getitem_ok GAMMA_PRECOMP i)
        by (change (length GAMMA_PRECOMP) with 128%nat; lia).
      cbn [bind]. unfold getitem.
      destruct (nth_error f_hat (2 * i)) as [f0|]; cbn [bind]; [|right; eauto].
      destruct (nth_error f_hat (2 * i + 1)) as [f1|] eqn:E1; cbn [bind];
        [|right; eauto].
      destruct (nth_error g_hat (2 * i)) as [g0|]; cbn [bind]; [|right; eauto].
      destruct (nth_error g_hat (2 * i + 1)) as [g1|]; cbn [bind]; [|right; eauto].
      destruct (base_case_multiply f0 f1 g0 g1 (nth i GAMMA_PRECOMP 0)) as [h0 h1].
      left. rewrite setitem_ok by lia. cbn [bind].
      rewrite setitem_ok by (rewrite replace_nth_length; lia).
      eexists. split; [reflexivity|]. split.
      * now rewrite !replace_nth_length.
      * apply nth_error_Some. rewrite E1. discriminate.
    + exfalso. rewrite Forall_forall in G.
      specialize (G 127%nat ltac:(apply in_seq; lia)). lia.
Qed.

Lemma one_hat_entries :
  forallb (fun i => (nth (2 * i) one_hat 0 =? 1) && (nth (2 * i + 1) one_hat 0 =? 0))
          (seq 0 128) = true.
Proof. vm_compute. reflexivity. Qed.

Lemma nth_reduce (l : list Z) (k : nat) :
  nth k (reduce l) 0 = (nth k l 0) mod Q.
Proof. exact (map_nth (fun x => x mod Q) l 0 k). Qed.

Lemma pairs_of_list (k : nat) :
  forall f : list Z,
    length f = (2 * k)%nat ->
    flat_map (fun i => [nth (2 * i) f 0; nth (2 * i + 1) f 0]) (seq 0 k) = f.
Proof.
  induction k as [|k IH]; intros f Lf.
  - destruct f; [reflexivity | discriminate].
  - destruct f as [|a [|b f]]; try (cbn in Lf; lia).
    cbn [seq flat_map]. rewrite <- seq_shift, flat_map_concat_map, map_map.
    change (nth (2 * 0) (a :: b :: f) 0) with a.
    change (nth (2 * 0 + 1) (a :: b :: f) 0) with b.
    cbn [app]. do 2 f_equal.
    transitivity (flat_map (fun i => [nth (2 * i) f 0; nth (2 * i + 1) f 0])
                           (seq 0 k)); [|apply IH; cbn in Lf; lia].
    rewrite flat_map_concat_map. f_equal. apply map_ext. intro i.
    replace (2 * S i)%nat with (S (S (2 * i))) by lia.
    replace (S (S (2 * i)) + 1)%nat with (S (S (2 * i + 1))) by lia.
    reflexivity.
Qed.

(** The transform of the constant polynomial 1 is the list of pairs
    (1, 0), and multiplying by it on either side only reduces the
    coefficients modulo q. *)
Theorem multiply_ntts_one (f_hat : list Z) :
  length f_hat = 256%nat ->
  ntt (1 :: repeat 0 255) = ret one_hat /\
  multiply_ntts f_hat one_hat = Ok (reduce f_hat) /\
  multiply_ntts one_hat f_hat = Ok (reduce f_hat).
Proof.
  intro Lf. split; [vm_compute; reflexivity|].
  assert (E : multiply_ntts f_hat one_hat = Ok (reduce f_hat)).
  { rewrite multiply_ntts_closed_form by (try (cbn; lia); lia). f_equal.
    unfold range.
    rewrite <- (pairs_of_list 128 (reduce f_hat))
      by (unfold reduce; rewrite length_map; exact Lf).
    rewrite !flat_map_concat_map. f_equal. apply map_ext_in.
    intros i Hi. pose proof one_hat_entries as H1.
    rewrite forallb_forall in H1. specialize (H1 i Hi).
    apply andb_true_iff in H1 as [H1 H0].
    apply Z.eqb_eq in H1, H0.
    unfold product_pair, base_case_multiply. rewrite H1, H0.
    rewrite !nth_reduce.
    rewrite !Z.mul_1_r, !Z.mul_0_r. change (0 mod Q) with 0.
    rewrite Z.mul_0_l. change (0 mod Q) with 0.
    rewrite Z.add_0_r, Z.add_0_l, !Z.mod_mod by (unfold Q; lia).
    reflexivity. }
  split; [exact E | rewrite multiply_ntts_swap; exact E].
Qed.

Lemma multiply_ntts_one_witness :
  ntt (1 :: repeat 0 255) = ret one_hat /\
  multiply_ntts (repeat 5000 256) one_hat = Ok (reduce (repeat 5000 256)) /\
  multiply_ntts one_hat (repeat 5000 256) = Ok (reduce (repeat 5000 256)).
Proof. apply (multiply_ntts_one (repeat 5000 256)). reflexivity. Defined.

(** ** Addition of polynomials *)

Lemma poly_add_cons (x y : Z) (a b : list Z) :
  poly_add (x :: a) (y :: b) = (x + y) mod Q :: poly_add a b.
Proof. reflexivity. Qed.

(** [poly_add] is commutative and associative, returns reduced
    coefficients, cuts its result to the shorter argument without an
    error, and adding zeros only reduces. *)
Theorem poly_add_algebra (a b c : list Z) :
  poly_add a b = poly_add b a /\
  poly_add (poly_add a b) c = poly_add a (poly_add b c) /\
  length (poly_add a b) = Nat.min (length a) (length b) /\
  Forall in_Zq (poly_add a b) /\
  poly_add a (repeat 0 (length a)) = reduce a.
Proof.
  split; [|split; [|split; [|split]]].
  - revert b. induction a as [|x a IH]; intros [|y b]; try reflexivity.
    rewrite !poly_add_cons, IH, Z.add_comm. reflexivity.
  - revert b c. induction a as [|x a IH]; intros [|y b] [|z c]; try reflexivity.
    rewrite !poly_add_cons, IH. f_equal.
    rewrite Z.add_mod_idemp_l, Z.add_mod_idemp_r by (unfold Q; lia).
    now rewrite Z.add_assoc.
  - apply poly_add_length.
  - unfold poly_add. apply Forall_forall. intros x Hx.
    apply in_map_iff in Hx as [p [<- _]]. apply in_Zq_mod.
  - induction a as [|x a IH]; [reflexivity|].
    cbn [length repeat]. rewrite poly_add_cons, IH, Z.add_0_r. reflexivity.
Qed.

(** ** The transforms on lists that are too short *)

Lemma while_loop_raise {S : Type} (fuel : nat) (cond : S -> bool)
  (body : S -> result S) (s : S) (e : exn) :
  cond s = true -> body s = Raise e ->
  while_loop (Datatypes.S fuel) cond body s = Some (Raise e).
Proof. intros Hc Hb. simpl. rewrite Hc, Hb. reflexivity. Qed.

Lemma getitem_cases (l : list Z) (i : nat) :
  ((i < length l)%nat /\ getitem l i = Ok (nth i l 0)) \/
  ((length l <= i)%nat /\ getitem l i = Raise IndexError).
Proof.
  destruct (lt_dec i (length l)) as [H|H].
  - left. split; [exact H | apply getitem_ok; exact H].
  - right. split; [lia|]. unfold getitem.
    replace (nth_error l i) with (@None Z); [reflexivity|].
    symmetry. apply nth_error_None. lia.
Qed.

Lemma ntt_butterfly_cases (len : nat) (zeta : Z) (j : nat) (h : list Z) :
  (exists h', ntt_butterfly len zeta j h = Ok h' /\ length h' = length h /\
              (j + len < length h)%nat) \/
  ntt_butterfly len zeta j h = Raise IndexError.
Proof.
  unfold ntt_butterfly.
  destruct (getitem_cases h (j + len)) as [[L E] | [L E]]; rewrite E; cbn [bind];
    [|right; reflexivity].
  left. rewrite (getitem_ok h j) by lia. cbn [bind].
  rewrite setitem_ok by lia. cbn [bind].
  rewrite getitem_ok by (rewrite replace_nth_length; lia). cbn [bind].
  rewrite setitem_ok by (rewrite replace_nth_length; lia).
  eexists. split; [reflexivity|]. split; [|exact L].
  now rewrite !replace_nth_length.
Qed.

Lemma ntt_inv_butterfly_cases (len : nat) (zeta_inv : Z) (j : nat) (h : list Z) :
  (exists h', ntt_inv_butterfly len zeta_inv j h = Ok h' /\
              length h' = length h /\ (j + len < length h)%nat) \/
  ntt_inv_butterfly len zeta_inv j h = Raise IndexError.
Proof.
  unfold ntt_inv_butterfly.
  destruct (getitem_cases h j) as [[Lj Ej] | [Lj Ej]]; rewrite Ej; cbn [bind];
    [|right; reflexivity].
  destruct (getitem_cases h (j + len)) as [[L E] | [L E]]; rewrite E; cbn [bind];
    [|right; reflexivity].
  left. rewrite setitem_ok by lia. cbn [bind].
  rewrite getitem_ok by (rewrite replace_nth_length; lia). cbn [bind].
  rewrite setitem_ok by (rewrite replace_nth_length; lia).
  eexists. split; [reflexivity|]. split; [|exact L].
  now rewrite !replace_nth_length.
Qed.

(** A list of fewer than 256 coefficients makes both transforms raise
    IndexError, in their first layer. *)
Theorem transforms_reject_short_lists (f : list Z) :
  (length f < 256)%nat ->
  ntt f = Some (Raise IndexError) /\ ntt_inv f = Some (Raise IndexError).
Proof.
  intro Lf. split.
  - unfold ntt, ntt_fuel.
    rewrite (while_loop_raise _ _ _ _ IndexError); [reflexivity | reflexivity |].
    unfold ntt_body, ntt_layer. cbn [fst snd].
    change (range_step 0 N (2 * 128)) with [0%nat].
    cbn [for_each]. unfold ntt_block.
    change (getitem ZETA_PRECOMP 1) with (Ok 1729). cbn [bind].
    destruct (for_each_cases (fun h : list Z => length h = length f)
                (fun j => (j + 128 < length f)%nat)
                (fun e => e = IndexError)
                (ntt_butterfly 128 1729) (range2 0 (0 + 128)))
      with (s := f) as [[h [_ [_ G]]] | [e [E ->]]].
    + intros j h _ Lh.
      destruct (ntt_butterfly_cases 128 1729 j h) as [[h' [E [L' Hj]]] | E].
      * left. exists h'. repeat split; [exact E | lia | lia].
      * right. exists IndexError. auto.
    + reflexivity.
    + exfalso. rewrite Forall_forall in G.
      specialize (G 127%nat ltac:(apply in_seq; lia)). lia.
    + rewrite E. reflexivity.
  - unfold ntt_inv, ntt_fuel.
    rewrite (while_loop_raise _ _ _ _ IndexError); [reflexivity | reflexivity |].
    unfold ntt_inv_body, ntt_inv_layer. cbn [fst snd].
    destruct (for_each_cases
                (fun st : nat * list Z =>
                   (fst st < 128)%nat /\ length (snd st) = length f)
                (fun start => (start + 3 < length f)%nat)
                (fun e => e = IndexError)
                (ntt_inv_block 2) (range_step 0 N (2 * 2)))
      with (s := (127%nat, f)) as [[st [_ [_ G]]] | [e [E ->]]].
    + intros start [k h] _ [Hk Lh]. cbn [fst snd] in Hk, Lh.
      unfold ntt_inv_block.
      rewrite (getitem_ok ZETA_PRECOMP_INV k)
        by (change (length ZETA_PRECOMP_INV) with 128%nat; lia).
      cbn [bind].
      replace (range2 start (start + 2)) with [start; S start]
        by (unfold range2; replace (start + 2 - start)%nat with 2%nat by lia;
            reflexivity).
      cbn [for_each].
      destruct (ntt_inv_butterfly_cases 2 (nth k ZETA_PRECOMP_INV 0) start h)
        as [[h1 [E1 [L1 H1]]] | E1]; rewrite E1; cbn [bind];
        [|right; exists IndexError; auto].
      destruct (ntt_inv_butterfly_cases 2 (nth k ZETA_PRECOMP_INV 0) (S start) h1)
        as [[h2 [E2 [L2 H2]]] | E2]; rewrite E2; cbn [bind];
        [|right; exists IndexError; auto].
      left. eexists. split; [reflexivity|]. cbn [fst snd].
      repeat split; lia.
    + cbn [fst snd]. split; [lia | reflexivity].
    + exfalso. rewrite Forall_forall in G.
      assert (In 252%nat (range_step 0 N (2 * 2))) as H252.
      { unfold range_step. apply in_map_iff. exists 63%nat. split; [reflexivity|].
        apply in_seq. cbn. lia. }
      specialize (G _ H252). lia.
    + rewrite E. reflexivity.
Qed.

Lemma transforms_reject_short_lists_witness :
  ntt [1; 2; 3] = Some (Raise IndexError) /\
  ntt_inv [1; 2; 3] = Some (Raise IndexError).
Proof. apply (transforms_reject_short_lists [1; 2; 3]). cbn. lia. Defined.

(** ** Messages as polynomials *)

Lemma map_fixed {A : Type} (f : A -> A) (l : list A) :
  Forall (fun x => f x = x) l -> map f l = l.
Proof.
  induction 1 as [|x l Hx _ IH]; [reflexivity|].
  cbn [map]. now rewrite Hx, IH.
Qed.

Lemma encode_message_ok (m : bytes) :
  length m = 32%nat -> encode_message m = Ok (bytes_to_bits m).
Proof.
  intro L. unfold encode_message. rewrite L. cbn [Nat.eqb negb]. f_equal.
  apply map_fixed. eapply Forall_impl; [|apply bytes_to_bits_is_bit].
  intros b [-> | ->]; reflexivity.
Qed.

Lemma threshold_bit_is_bit (q : Z) (l : list Z) :
  Forall is_bit (map (threshold_bit q) l).
Proof.
  apply Forall_forall. intros x Hx. apply in_map_iff in Hx as [c [<- _]].
  unfold threshold_bit, is_bit. destruct (c <? q / 2); auto.
Qed.

Lemma decode_message_ok (poly : list Z) (q : Z) (n : nat) :
  length (firstn 256 poly) = (n * 8)%nat ->
  exists B, decode_message poly q = Ok B /\ length B = n /\
            bytes_to_bits B = map (threshold_bit q) (firstn 256 poly).
Proof.
  intro L. unfold decode_message.
  apply (bits_to_bytes_to_bits n).
  - rewrite length_map. exact L.
  - apply threshold_bit_is_bit.
Qed.

Lemma map_constant {A B : Type} (f : A -> B) (c : B) (l : list A) :
  Forall (fun x => f x = c) l -> map f l = repeat c (length l).
Proof.
  induction 1 as [|x l Hx _ IH]; [reflexivity|].
  cbn [map length repeat]. now rewrite Hx, IH.
Qed.

(** A message of 32 bytes becomes its 256 bits as coefficients 0 or 1,
    unscaled; [decode_message] with q = 3329 reads each of them as bit 0
    (both are below q // 2 = 1664), so that it returns 32 zero bytes
    whatever the message was.  Every other message length is refused. *)
Theorem decode_message_encode_message (m : bytes) :
  (length m = 32%nat /\
   encode_message m = Ok (bytes_to_bits m) /\
   length (bytes_to_bits m) = 256%nat /\
   Forall is_bit (bytes_to_bits m) /\
   decode_message (bytes_to_bits m) Q = Ok (zero_bytes 32)) \/
  (length m <> 32%nat /\
   encode_message m
   = Raise (ValueError "Message must be exactly 32 bytes (=256 bits).")).
Proof.
  destruct (Nat.eq_dec (length m) 32) as [L|L].
  - left. split; [exact L|].
    split; [apply encode_message_ok; exact L|].
    assert (Lb : length (bytes_to_bits m) = 256%nat)
      by (rewrite bytes_to_bits_length, L; reflexivity).
    split; [exact Lb|]. split; [apply bytes_to_bits_is_bit|].
    unfold decode_message.
    rewrite firstn_all2 by lia.
    rewrite (map_constant _ 0).
    + rewrite Lb. vm_compute. reflexivity.
    + eapply Forall_impl; [|apply bytes_to_bits_is_bit].
      intros b [-> | ->]; reflexivity.
  - right. split; [exact L|]. unfold encode_message.
    replace (length m =? 32)%nat with false
      by (symmetry; apply Nat.eqb_neq; exact L).
    reflexivity.
Qed.

(** [decode_message] looks at the first 256 coefficients only, reads a
    coefficient below q // 2 as bit 0 and any other as bit 1, and packs the
    bits; it raises exactly when their number is no multiple of 8. *)
Theorem decode_message_cases (poly : list Z) (q : Z) :
  ((Nat.min 256 (length poly) mod 8 = 0)%nat /\
   exists B, decode_message poly q = Ok B /\
             length B = (Nat.min 256 (length poly) / 8)%nat /\
             bytes_to_bits B = map (threshold_bit q) (firstn 256 poly)) \/
  ((Nat.min 256 (length poly) mod 8 <> 0)%nat /\
   decode_message poly q
   = Raise (ValueError "Bit array length must be multiple of 8")).
Proof.
  assert (L : length (firstn 256 poly) = Nat.min 256 (length poly))
    by apply length_firstn.
  destruct (Nat.eq_dec (Nat.min 256 (length poly) mod 8) 0) as [Hm|Hm].
  - left. split; [exact Hm|]. apply decode_message_ok.
    rewrite L. pose proof (Nat.div_mod_eq (Nat.min 256 (length poly)) 8). lia.
  - right. split; [exact Hm|]. unfold decode_message, bits_to_bytes.
    rewrite length_map, L.
    replace (Nat.min 256 (length poly) mod 8 =? 0)%nat with false
      by (symmetry; apply Nat.eqb_neq; exact Hm).
    reflexivity.
Qed.

(** ** K-PKE encryption and decryption: what is returned, what is refused *)

Lemma PRF_returns (eta : Z) (s b out : bytes) :
  PRF eta s b = Ok out -> (eta = 2 \/ eta = 3) /\ length s = 32%nat.
Proof.
  unfold PRF.
  destruct ((eta =? 2) || (eta =? 3)) eqn:E1; cbn [negb]; [|discriminate].
  destruct (length s =? 32)%nat eqn:E2; cbn [negb]; [|discriminate].
  intros _. split.
  - apply orb_true_iff in E1 as [E|E]; apply Z.eqb_eq in E; auto.
  - apply Nat.eqb_eq. exact E2.
Qed.

Lemma encode_message_returns (m : bytes) (f : list Z) :
  encode_message m = Ok f -> length m = 32%nat.
Proof.
  unfold encode_message.
  destruct (length m =? 32)%nat eqn:E; cbn [negb]; [|discriminate].
  intros _. apply Nat.eqb_eq. exact E.
Qed.

Lemma compress_all_ok (d : Z) (l : list Z) :
  1 <= d < 12 ->
  map_result (fun coeff => compress coeff d) l
  = Ok (map (fun x => (x * 2 ^ d / Q) mod 2 ^ d) l).
Proof. intro Hd. apply map_result_ok. intros x _. now apply compress_ok. Qed.

Lemma decompress_all_ok (d : Z) (l : list Z) :
  1 <= d < 12 ->
  map_result (fun y => decompress y d) l
  = Ok (map (fun y => (y * Q + 2 ^ (d - 1)) / 2 ^ d) l).
Proof. intro Hd. apply map_result_ok. intros x _. now apply decompress_ok. Qed.

Lemma byte_encode_compressed (d : Z) (l : list Z) :
  1 <= d < 12 -> length l = 256%nat ->
  exists B,
    byte_encode (map (fun x => (x * 2 ^ d / Q) mod 2 ^ d) l) d = Ok B /\
    length B = (32 * Z.to_nat d)%nat.
Proof.
  intros Hd L.
  destruct (byte_encode_ok (map (fun x => (x * 2 ^ d / Q) mod 2 ^ d) l) d)
    as [B [E [LB _]]].
  - lia.
  - now rewrite length_map.
  - replace (d <? 12) with true by (symmetry; apply Z.ltb_lt; lia).
    apply Forall_forall. intros y Hy. apply in_map_iff in Hy as [x [<- _]].
    apply Z.mod_pos_bound. apply Z.pow_pos_nonneg; lia.
  - exists B. split; assumption.
Qed.

Lemma k_pke_encrypt_returns (A t_hat : list Z) (m r : bytes) (d eta : Z) :
  (256 <= length A)%nat -> (256 <= length t_hat)%nat ->
  valid_encrypt_params m r d eta ->
  exists c, k_pke_encrypt (A, t_hat) m r d eta = ret c /\
            length c = (64 * Z.to_nat d)%nat.
Proof.
  intros LA Lt [He [Lr [Lm Hd]]]. unfold k_pke_encrypt.
  rewrite !PRF_ok by auto. cbn [cbind lift].
  destruct (sample_poly_cbd_ok eta (shake256 (r ++ [x00]) (Z.to_nat (64 * eta))))
    as [y [Ey Ly]]; [exact He | apply shake256_length |].
  destruct (sample_poly_cbd_ok eta (shake256 (r ++ [x01]) (Z.to_nat (64 * eta))))
    as [e1 [Ee1 Le1]]; [exact He | apply shake256_length |].
  destruct (sample_poly_cbd_ok eta (shake256 (r ++ [x02]) (Z.to_nat (64 * eta))))
    as [e2 [Ee2 Le2]]; [exact He | apply shake256_length |].
  rewrite Ey, Ee1, Ee2. cbn [cbind lift].
  destruct (ntt_total y Ly) as [y_hat [Ey' Ly']].
  destruct (ntt_total e1 Le1) as [e1_hat [Ee1' Le1']].
  destruct (ntt_total e2 Le2) as [e2_hat [Ee2' Le2']].
  rewrite Ey', Ee1', Ee2'. cbn [cbind ret].
  destruct (multiply_ntts_total A y_hat) as [Ay [EAy LAy]]; [lia | lia |].
  rewrite EAy. cbn [cbind lift].
  destruct (multiply_ntts_total t_hat y_hat) as [ty [Ety Lty]]; [lia | lia |].
  rewrite Ety. cbn [cbind lift].
  rewrite (encode_message_ok m Lm). cbn [cbind lift].
  destruct (ntt_total (bytes_to_bits m)) as [m_hat [Em' Lm']].
  { rewrite bytes_to_bits_length, Lm. reflexivity. }
  rewrite Em'. cbn [cbind ret].
  rewrite !compress_all_ok by exact Hd. cbn [cbind lift].
  destruct (byte_encode_compressed d (poly_add Ay e1_hat) Hd) as [c1 [E1 L1]].
  { rewrite poly_add_length. lia. }
  destruct (byte_encode_compressed d (poly_add (poly_add ty e2_hat) m_hat) Hd)
    as [c2 [E2 L2]].
  { rewrite !poly_add_length. lia. }
  rewrite E1, E2. cbn [cbind lift].
  exists (c1 ++ c2). split; [reflexivity|]. rewrite length_app. lia.
Qed.

Lemma k_pke_encrypt_refuses (A t_hat : list Z) (m r : bytes) (d eta : Z) :
  (256 <= length A)%nat -> (256 <= length t_hat)%nat ->
  ~ valid_encrypt_params m r d eta ->
  raises_ValueError (k_pke_encrypt (A, t_hat) m r d eta).
Proof.
  intros LA Lt Hv. unfold k_pke_encrypt.
  apply cbind_lift_raises; [apply PRF_raises | intros y_seed Hp].
  apply PRF_returns in Hp as [He Lr].
  apply cbind_lift_raises; [apply PRF_raises | intros e1_seed _].
  apply cbind_lift_raises; [apply PRF_raises | intros e2_seed _].
  apply cbind_lift_raises; [apply sample_poly_cbd_raises | intros y Hy].
  apply cbind_lift_raises; [apply sample_poly_cbd_raises | intros e1 He1].
  apply cbind_lift_raises; [apply sample_poly_cbd_raises | intros e2 He2].
  apply sample_poly_cbd_length in Hy, He1, He2.
  destruct (ntt_total y Hy) as [y_hat [Ey Ly]].
  destruct (ntt_total e1 He1) as [e1_hat [Ee1 Le1]].
  destruct (ntt_total e2 He2) as [e2_hat [Ee2 Le2]].
  apply (cbind_ret_raises _ y_hat); [exact Ey|].
  apply (cbind_ret_raises _ e1_hat); [exact Ee1|].
  apply (cbind_ret_raises _ e2_hat); [exact Ee2|].
  destruct (multiply_ntts_total A y_hat) as [Ay [EAy LAy]]; [lia | lia |].
  rewrite EAy. cbn [cbind lift].
  destruct (multiply_ntts_total t_hat y_hat) as [ty [Ety Lty]]; [lia | lia |].
  rewrite Ety. cbn [cbind lift].
  apply cbind_lift_raises; [apply encode_message_raises | intros m_poly Hm].
  pose proof (encode_message_returns _ _ Hm) as Lm.
  apply encode_message_length in Hm.
  destruct (ntt_total m_poly Hm) as [m_hat [Em Lm']].
  apply (cbind_ret_raises _ m_hat); [exact Em|].
  rewrite map_result_compress_rejects.
  - eexists. reflexivity.
  - intro Hd. apply Hv. repeat split; auto; lia.
  - apply length_256_nonempty. rewrite poly_add_length. lia.
Qed.

(** With a public key of two polynomials of (at least) 256 coefficients,
    whatever their values, [k_pke_encrypt] returns exactly when eta is 2 or
    3, r and m have 32 bytes and 1 <= d < 12, and the ciphertext then has
    64 * d bytes; every other call ends in a ValueError. *)
Theorem k_pke_encrypt_cases (A t_hat : list Z) (m r : bytes) (d eta : Z) :
  (256 <= length A)%nat -> (256 <= length t_hat)%nat ->
  (valid_encrypt_params m r d eta /\
   exists c, k_pke_encrypt (A, t_hat) m r d eta = ret c /\
             Z.of_nat (length c) = 64 * d) \/
  (~ valid_encrypt_params m r d eta /\
   raises_ValueError (k_pke_encrypt (A, t_hat) m r d eta)).
Proof.
  intros LA Lt.
  assert (Dec : valid_encrypt_params m r d eta \/ ~ valid_encrypt_params m r d eta).
  { unfold valid_encrypt_params.
    destruct (Z.eq_dec eta 2); destruct (Z.eq_dec eta 3);
      destruct (Nat.eq_dec (length r) 32); destruct (Nat.eq_dec (length m) 32);
      destruct (Z_le_dec 1 d); destruct (Z_lt_dec d 12); tauto. }
  destruct Dec as [Hv|Hv].
  - left. split; [exact Hv|].
    destruct (k_pke_encrypt_returns A t_hat m r d eta LA Lt Hv) as [c [E L]].
    exists c. split; [exact E|].
    destruct Hv as [_ [_ [_ Hd]]]. rewrite L. lia.
  - right. split; [exact Hv|]. now apply k_pke_encrypt_refuses.
Qed.

Lemma k_pke_encrypt_cases_witness :
  (valid_encrypt_params (zero_bytes 32) (zero_bytes 32) 10 2 /\
   exists c, k_pke_encrypt (repeat 5000 256, repeat (-1) 300)
               (zero_bytes 32) (zero_bytes 32) 10 2 = ret c /\
             Z.of_nat (length c) = 64 * 10) \/
  (~ valid_encrypt_params (zero_bytes 32) (zero_bytes 32) 10 2 /\
   raises_ValueError (k_pke_encrypt (repeat 5000 256, repeat (-1) 300)
                        (zero_bytes 32) (zero_bytes 32) 10 2)).
Proof.
  apply (k_pke_encrypt_cases (repeat 5000 256) (repeat (-1) 300)).
  - rewrite repeat_length. lia.
  - rewrite repeat_length. lia.
Defined.

Lemma k_pke_decrypt_returns (b_enc : bytes) (s1 s2 : list Z) (c : bytes) (d : Z) :
  1 <= d < 12 -> length s1 = 256%nat ->
  Z.of_nat (length c) = 64 * d ->
  exists m, k_pke_decrypt (b_enc, s1, s2) c d = ret m /\ length m = 32%nat.
Proof.
  intros Hd Ls Lc. unfold k_pke_decrypt.
  assert (Hn : Z.to_nat (256 * d / 8) = (32 * Z.to_nat d)%nat).
  { replace (256 * d) with (32 * d * 8) by lia.
    rewrite Z.div_mul by lia. lia. }
  rewrite Hn.
  rewrite !byte_decode_ok by (rewrite ?length_firstn, ?length_skipn; lia).
  cbn [cbind lift].
  rewrite !decompress_all_ok by exact Hd. cbn [cbind lift].
  destruct (ntt_total s1 Ls) as [s1_hat [Es Ls']]. rewrite Es. cbn [cbind ret].
  match goal with
  | |- context [multiply_ntts ?u s1_hat] =>
      destruct (multiply_ntts_total u s1_hat) as [us [Eus Lus]]
  end.
  { unfold range. rewrite !length_map, length_seq. lia. }
  { lia. }
  rewrite Eus. cbn [cbind lift].
  match goal with
  | |- context [ntt_inv ?w] =>
      destruct (ntt_inv_total w) as [w' [Ew Lw]]
  end.
  { unfold range. rewrite length_map, length_combine, !length_map, length_seq. lia. }
  rewrite Ew. cbn [cbind ret].
  destruct (decode_message_ok w' 3329 32) as [B [EB [LB _]]].
  { rewrite firstn_all2 by lia. exact Lw. }
  rewrite EB. cbn [cbind lift]. exists B. split; [reflexivity | exact LB].
Qed.

Lemma k_pke_decrypt_refuses_length (dk_pke : dk_pke_t) (c : bytes) (d : Z) :
  0 <= d -> Z.of_nat (length c) <> 64 * d ->
  k_pke_decrypt dk_pke c d = Some (Raise (ValueError "Expected 32*d bytes")).
Proof.
  intros Hd Lc. destruct dk_pke as [[b_enc s1] s2]. unfold k_pke_decrypt.
  assert (Hn : Z.to_nat (256 * d / 8) = (32 * Z.to_nat d)%nat).
  { replace (256 * d) with (32 * d * 8) by lia.
    rewrite Z.div_mul by lia. lia. }
  rewrite Hn.
  destruct (le_lt_dec (32 * Z.to_nat d) (length c)) as [L|L].
  - rewrite (byte_decode_ok (firstn _ c)) by (rewrite ?length_firstn; lia).
    cbn [cbind lift].
    rewrite byte_decode_rejects_length by (rewrite ?length_skipn; lia).
    reflexivity.
  - rewrite byte_decode_rejects_length by (rewrite ?length_firstn; lia).
    reflexivity.
Qed.

(** With a secret polynomial of 256 coefficients, [k_pke_decrypt] returns
    exactly when 1 <= d < 12 and the ciphertext has 64 * d bytes, and then
    32 bytes; a ciphertext of another length is refused with the error of
    [byte_decode] for every d >= 0; every other call ends in a ValueError
    too. *)
Theorem k_pke_decrypt_cases (b_enc : bytes) (s1 s2 : list Z) (c : bytes) (d : Z) :
  length s1 = 256%nat ->
  (1 <= d < 12 /\ Z.of_nat (length c) = 64 * d /\
   exists m, k_pke_decrypt (b_enc, s1, s2) c d = ret m /\ length m = 32%nat) \/
  (0 <= d /\ Z.of_nat (length c) <> 64 * d /\
   k_pke_decrypt (b_enc, s1, s2) c d
   = Some (Raise (ValueError "Expected 32*d bytes"))) \/
  (~ 1 <= d < 12 /\ (d < 0 \/ Z.of_nat (length c) = 64 * d) /\
   raises_ValueError (k_pke_decrypt (b_enc, s1, s2) c d)).
Proof.
  intro Ls.
  destruct (Z_lt_dec d 0) as [Hneg|Hnn].
  { right. right. split; [lia|]. split; [left; exact Hneg|].
    apply k_pke_decrypt_rejects_d. lia. }
  destruct (Z.eq_dec (Z.of_nat (length c)) (64 * d)) as [Lc|Lc].
  2:{ right. left. split; [lia|]. split; [exact Lc|].
      apply k_pke_decrypt_refuses_length; [lia | exact Lc]. }
  destruct (Z_le_dec 1 d) as [H1|H1]; [destruct (Z_lt_dec d 12) as [H2|H2]|].
  - left. split; [lia|]. split; [exact Lc|].
    apply k_pke_decrypt_returns; [lia | exact Ls | exact Lc].
  - right. right. split; [lia|]. split; [right; exact Lc|].
    apply k_pke_decrypt_rejects_d. lia.
  - right. right. split; [lia|]. split; [right; exact Lc|].
    apply k_pke_decrypt_rejects_d. lia.
Qed.

Lemma k_pke_decrypt_cases_witness :
  (1 <= 1 < 12 /\ Z.of_nat (length (zero_bytes 64)) = 64 * 1 /\
   exists m, k_pke_decrypt ([], repeat 7 256, []) (zero_bytes 64) 1 = ret m /\
             length m = 32%nat) \/
  (0 <= 1 /\ Z.of_nat (length (zero_bytes 64)) <> 64 * 1 /\
   k_pke_decrypt ([], repeat 7 256, []) (zero_bytes 64) 1
   = Some (Raise (ValueError "Expected 32*d bytes"))) \/
  (~ 1 <= 1 < 12 /\ (1 < 0 \/ Z.of_nat (length (zero_bytes 64)) = 64 * 1) /\
   raises_ValueError (k_pke_decrypt ([], repeat 7 256, []) (zero_bytes 64) 1)).
Proof.
  apply (k_pke_decrypt_cases [] (repeat 7 256) [] (zero_bytes 64) 1).
  apply repeat_length.
Defined.

(** Encryption followed by decryption with the same d returns 32 bytes,
    for any key material of 256 coefficients; with any other d >= 0 the
    ciphertext is refused for its length. *)
Theorem k_pke_decrypt_after_encrypt
  (A t_hat : list Z) (b_enc : bytes) (s1 s2 : list Z) (m r : bytes) (d eta : Z) :
  (256 <= length A)%nat -> (256 <= length t_hat)%nat -> length s1 = 256%nat ->
  valid_encrypt_params m r d eta ->
  exists c m',
    k_pke_encrypt (A, t_hat) m r d eta = ret c /\
    k_pke_decrypt (b_enc, s1, s2) c d = ret m' /\ length m' = 32%nat /\
    forall d', 0 <= d' -> d' <> d ->
      k_pke_decrypt (b_enc, s1, s2) c d'
      = Some (Raise (ValueError "Expected 32*d bytes")).
Proof.
  intros LA Lt Ls Hv.
  destruct (k_pke_encrypt_returns A t_hat m r d eta LA Lt Hv) as [c [E L]].
  destruct Hv as [_ [_ [_ Hd]]].
  destruct (k_pke_decrypt_returns b_enc s1 s2 c d Hd Ls) as [m' [E' L']];
    [lia|].
  exists c, m'. repeat split; try assumption.
  intros d' Hd' Hne. apply k_pke_decrypt_refuses_length; lia.
Qed.

Lemma k_pke_decrypt_after_encrypt_witness :
  exists c m',
    k_pke_encrypt (repeat 1 256, repeat 2 256) (zero_bytes 32) (zero_bytes 32) 4 3
    = ret c /\
    k_pke_decrypt ([], repeat 3 256, []) c 4 = ret m' /\ length m' = 32%nat /\
    forall d', 0 <= d' -> d' <> 4 ->
      k_pke_decrypt ([], repeat 3 256, []) c d'
      = Some (Raise (ValueError "Expected 32*d bytes")).
Proof.
  apply (k_pke_decrypt_after_encrypt (repeat 1 256) (repeat 2 256) []
           (repeat 3 256) [] (zero_bytes 32) (zero_bytes 32) 4 3).
  - rewrite repeat_length. lia.
  - rewrite repeat_length. lia.
  - apply repeat_length.
  - unfold valid_encrypt_params. repeat split; try reflexivity; lia.
Defined.

(** ** The key pair of K-PKE *)

Lemma sample_poly_cbd_centered (eta : Z) (B : bytes) (f : list Z) :
  sample_poly_cbd eta B = Ok f -> ring_inv (centered_within eta) f.
Proof.
  intro E. split; [exact (sample_poly_cbd_length _ _ _ E)|].
  revert E. unfold sample_poly_cbd.
  destruct ((eta =? 2) || (eta =? 3)) eqn:E1; cbn [negb]; [|discriminate].
  assert (He : eta = 2 \/ eta = 3).
  { apply orb_true_iff in E1 as [H1|H1]; apply Z.eqb_eq in H1; auto. }
  destruct (Z.of_nat (length B) =? 64 * eta); cbn [negb]; [|discriminate].
  intro E. apply Ok_inj in E. subst f.
  apply Forall_forall. intros x Hx. apply in_map_iff in Hx as [i [<- _]].
  cbv zeta.
  pose proof (bytes_to_bits_is_bit B) as Hb.
  set (e := Z.to_nat eta).
  pose proof (py_sum_bits _ (slice_is_bit (bytes_to_bits B)
                (i * 2 * e) (i * 2 * e + e) Hb)) as Hx.
  pose proof (py_sum_bits _ (slice_is_bit (bytes_to_bits B)
                (i * 2 * e + e) (i * 2 * e + 2 * e) Hb)) as Hy.
  pose proof (slice_length_le (bytes_to_bits B) (i * 2 * e) e) as Lx.
  pose proof (slice_length_le (bytes_to_bits B) (i * 2 * e + e) e) as Ly.
  replace (i * 2 * e + e + e)%nat with (i * 2 * e + 2 * e)%nat in Ly by lia.
  apply centered_mod; [unfold Q; lia|].
  assert (Z.of_nat e = eta) by (unfold e; lia). lia.
Qed.

Lemma byte_encode_returns (F : list Z) (d : Z) (B : bytes) :
  byte_encode F d = Ok B -> length F = 256%nat /\ 0 <= d.
Proof.
  unfold byte_encode.
  destruct (length F =? 256)%nat eqn:E; cbn [negb]; [|discriminate].
  apply Nat.eqb_eq in E. intro H. split; [exact E|].
  destruct (Z_lt_dec d 0) as [Hd|Hd]; [|lia].
  unfold modulus_for, lshift in H.
  replace (d <? 12) with true in H by (symmetry; apply Z.ltb_lt; lia).
  replace (d <? 0) with true in H by (symmetry; apply Z.ltb_lt; lia).
  discriminate H.
Qed.

Lemma byte_decode_of_encoded (F : list Z) (d : Z) (B : bytes) :
  byte_encode F d = Ok B ->
  byte_decode B d = Ok F /\ Z.of_nat (length B) = 32 * d /\
  Forall (fun x => 0 <= x < modulus_of d) F.
Proof.
  intro E. destruct (byte_encode_returns F d B E) as [LF Hd].
  pose proof (byte_encode_accepts F d B E Hd) as HF.
  destruct (byte_encode_ok F d Hd LF HF) as [B' [E' [LB R]]].
  rewrite E in E'. apply Ok_inj in E'. subst B'.
  split; [|split; [lia | exact HF]].
  rewrite byte_decode_ok by lia. f_equal.
  unfold range. rewrite <- LF at 1.
  apply map_seq_nth_error. intros i x Hi. cbn [Nat.add].
  unfold chunk_value. rewrite R.
  rewrite (slice_flat_map_bits _ F i x Hi), sum_shifted_bits_of.
  rewrite Z2Nat.id by lia.
  assert (Hx : 0 <= x < (if d <? 12 then 2 ^ d else Q)).
  { rewrite Forall_forall in HF. apply HF. eapply nth_error_In; eauto. }
  destruct (Z.ltb_spec d 12).
  - rewrite Z.mod_mod by lia. apply Z.mod_small. exact Hx.
  - unfold Q in *.
    assert (2 ^ 12 <= 2 ^ d) by (apply Z.pow_le_mono_r; lia).
    change (2 ^ 12) with 4096 in *. rewrite (Z.mod_small x (2 ^ d)) by lia.
    apply Z.mod_small. exact Hx.
Qed.

(** Whenever [k_pke_keygen] returns a key pair: A has 256 reduced
    coefficients, each one of the two candidates of the first three bytes
    of the SHAKE128 stream of the seed; s1 and s2 have 256 coefficients
    standing for integers of absolute value at most eta1 and eta2; t_hat
    has 256 coefficients below the modulus of [byte_encode] for d; and
    b_enc has 32 * d bytes from which [byte_decode] gives t_hat back. *)
Theorem k_pke_keygen_key_material
  (fuel : nat) (r1 r2 : bytes) (d eta1 eta2 : Z)
  (A t_hat : list Z) (b_enc : bytes) (s1 s2 : list Z) :
  k_pke_keygen fuel r1 r2 d eta1 eta2 = ret ((A, t_hat), (b_enc, s1, s2)) ->
  ring_inv (fun x => in_Zq x /\
              (x = candidate1 (shake128 (r2 ++ [x00; x00]) 3) \/
               x = candidate2 (shake128 (r2 ++ [x00; x00]) 3))) A /\
  ring_inv (centered_within eta1) s1 /\
  ring_inv (centered_within eta2) s2 /\
  ring_inv (fun x => in_Zq x /\ x < modulus_of d) t_hat /\
  0 <= d /\ Z.of_nat (length b_enc) = 32 * d /\
  byte_decode b_enc d = Ok t_hat.
Proof.
  unfold k_pke_keygen. intro H.
  destruct (PRF eta1 r1 [x00]); cbn [cbind lift] in H; [|discriminate].
  destruct (sample_poly_cbd eta1 _) as [s1'|] eqn:Es1; cbn [cbind lift] in H;
    [|discriminate].
  destruct (PRF eta2 r1 [x01]); cbn [cbind lift] in H; [|discriminate].
  destruct (sample_poly_cbd eta2 _) as [s2'|] eqn:Es2; cbn [cbind lift] in H;
    [|discriminate].
  destruct (sample_ntt fuel _) as [[A'|?]|] eqn:EA; cbn [cbind] in H;
    try discriminate.
  destruct (ntt s1') as [[s1_hat|?]|]; cbn [cbind] in H; try discriminate.
  destruct (ntt s2') as [[s2_hat|?]|]; cbn [cbind] in H; try discriminate.
  destruct (multiply_ntts A' s1_hat) as [product|?]; cbn [cbind lift] in H;
    [|discriminate].
  destruct (byte_encode (poly_add product s2_hat) d) as [b_enc'|?] eqn:E;
    cbn [cbind lift] in H; [|discriminate].
  unfold ret in H.
  assert (EA' : A' = A) by congruence.
  assert (Et : poly_add product s2_hat = t_hat) by congruence.
  assert (Eb : b_enc' = b_enc) by congruence.
  assert (E1 : s1' = s1) by congruence.
  assert (E2 : s2' = s2) by congruence.
  clear H. subst A' b_enc' s1' s2'. rewrite Et in E. clear Et.
  destruct (byte_decode_of_encoded t_hat d b_enc E) as [Ed [Lb Ht]].
  destruct (byte_encode_returns t_hat d b_enc E) as [Lt Hd].
  split; [|split; [|split; [|split; [|split; [|split]]]]].
  - apply sample_ntt_returns in EA. exact EA.
  - exact (sample_poly_cbd_centered _ _ _ Es1).
  - exact (sample_poly_cbd_centered _ _ _ Es2).
  - split; [exact Lt|]. eapply Forall_impl; [|exact Ht].
    intros x Hx. cbv beta in Hx. unfold in_Zq, modulus_of in *.
    destruct (Z.ltb_spec d 12); [|lia].
    assert (2 ^ d <= 2 ^ 11) by (apply Z.pow_le_mono_r; lia).
    change (2 ^ 11) with 2048 in *. unfold Q. lia.
  - exact Hd.
  - exact Lb.
  - exact Ed.
Qed.

Lemma k_pke_keygen_key_material_witness :
  exists t_hat b_enc s1 s2,
    k_pke_keygen 128 (zero_bytes 32) (x02 :: zero_bytes 31) 12 2 2
    = ret ((A_seed2, t_hat), (b_enc, s1, s2)) /\
    ring_inv (fun x => in_Zq x /\
                (x = candidate1 (shake128 ((x02 :: zero_bytes 31) ++ [x00; x00]) 3) \/
                 x = candidate2 (shake128 ((x02 :: zero_bytes 31) ++ [x00; x00]) 3)))
             A_seed2 /\
    ring_inv (centered_within 2) s1 /\
    ring_inv (centered_within 2) s2 /\
    ring_inv (fun x => in_Zq x /\ x < modulus_of 12) t_hat /\
    0 <= 12 /\ Z.of_nat (length b_enc) = 32 * 12 /\
    byte_decode b_enc 12 = Ok t_hat.
Proof.
  assert (E : { k : list Z * bytes * list Z * list Z |
                k_pke_keygen 128 (zero_bytes 32) (x02 :: zero_bytes 31) 12 2 2
                = ret ((A_seed2, fst (fst (fst k))),
                       (snd (fst (fst k)), snd (fst k), snd k)) }).
  { unfold k_pke_keygen. cbv zeta. rewrite sample_ntt_seed2.
    eexists (_, _, _, _). cbn [fst snd]. vm_compute. reflexivity. }
  destruct E as [[[[t_hat b_enc] s1] s2] E]. cbn [fst snd] in E.
  exists t_hat, b_enc, s1, s2. split; [exact E|].
  exact (k_pke_keygen_key_material _ _ _ _ _ _ _ _ _ _ _ E).
Defined.

(** ** ML-KEM: key generation, encapsulation, decapsulation *)

Lemma G_fst_length (c : bytes) : length (fst (G c)) = 32%nat.
Proof.
  unfold G. cbn [fst]. rewrite length_firstn.
  unfold sha3_512, hashlib_sha3_512. rewrite hash_length by lia. reflexivity.
Qed.

Lemma cbind_rebuild_pair {A B : Type} (m : comp (A * B)) :
  cbind m (fun keys => let (a, b) := keys in ret (a, b)) = m.
Proof. destruct m as [[[a b]|e]|]; reflexivity. Qed.

(** [ml_kem_keygen] checks the length of an optional seed and then does
    not use it: with no seed or one of 32 bytes the result is that of
    [k_pke_keygen] with eta1 = eta2 = 2, with any other seed a
    ValueError, raised before any key is generated. *)
Theorem ml_kem_keygen_seed_unused
  (fuel : nat) (r1 r2 : bytes) (d : Z) (sK : option bytes) :
  ((sK = None \/ exists s, sK = Some s /\ length s = 32%nat) /\
   ml_kem_keygen fuel r1 r2 d sK = k_pke_keygen fuel r1 r2 d 2 2) \/
  ((exists s, sK = Some s /\ length s <> 32%nat) /\
   ml_kem_keygen fuel r1 r2 d sK
   = Some (Raise (ValueError "Provided sK must be 32 bytes if used."))).
Proof.
  assert (R : cbind (ml_kem_keygen_internal fuel r1 r2 d)
                (fun keys => let (ek, dk) := (keys : ek_pke_t * dk_pke_t) in
                             ret (ek, dk))
              = k_pke_keygen fuel r1 r2 d 2 2).
  { rewrite cbind_rebuild_pair. apply ml_kem_keygen_internal_eq. }
  unfold ml_kem_keygen. destruct sK as [s|].
  - destruct (Nat.eq_dec (length s) 32) as [L|L].
    + left. split; [right; exists s; auto|].
      rewrite L. cbn [Nat.eqb negb]. exact R.
    + right. split; [exists s; auto|].
      replace (length s =? 32)%nat with false
        by (symmetry; apply Nat.eqb_neq; exact L).
      reflexivity.
  - left. split; [left; reflexivity | exact R].
Qed.

(** With key material of 256 coefficients and 1 <= d < 12, whatever the
    random bytes r: [ml_kem_encaps] returns (K, c) where K is the hash of
    k1, the first half of G(H(repr(ek)) + r), and c is the K-PKE
    encryption of k1 with k1 itself as randomness, 64 * d bytes long;
    [ml_kem_decaps] of c with the same d returns the hash of what
    [k_pke_decrypt] returns, 32 bytes. *)
Theorem ml_kem_encaps_then_decaps
  (A t_hat : list Z) (b_enc : bytes) (s1 s2 : list Z) (r : bytes) (d : Z) :
  (256 <= length A)%nat -> (256 <= length t_hat)%nat -> length s1 = 256%nat ->
  1 <= d < 12 ->
  let k1 := fst (G (H (repr_ek_pke (A, t_hat)) ++ r)) in
  exists c m',
    k_pke_encrypt (A, t_hat) k1 k1 d 2 = ret c /\
    ml_kem_encaps_internal (A, t_hat) r d = ret (c, H k1) /\
    ml_kem_encaps r (A, t_hat) d = ret (H k1, c) /\
    length (H k1) = 32%nat /\ Z.of_nat (length c) = 64 * d /\
    k_pke_decrypt (b_enc, s1, s2) c d = ret m' /\
    ml_kem_decaps (b_enc, s1, s2) c d = ret (H m') /\
    length (H m') = 32%nat.
Proof.
  intros LA Lt Ls Hd k1.
  assert (Lk : length k1 = 32%nat) by apply G_fst_length.
  destruct (k_pke_encrypt_returns A t_hat k1 k1 d 2 LA Lt) as [c [E L]].
  { unfold valid_encrypt_params. auto. }
  destruct (k_pke_decrypt_returns b_enc s1 s2 c d Hd Ls) as [m' [E' L']];
    [lia|].
  assert (Ei : ml_kem_encaps_internal (A, t_hat) r d = ret (c, H k1)).
  { unfold ml_kem_encaps_internal. fold k1.
    destruct (G (H (repr_ek_pke (A, t_hat)) ++ r)) as [g1 g2] eqn:EG.
    cbn [fst] in k1. subst k1. rewrite E. reflexivity. }
  exists c, m'. split; [exact E|]. split; [exact Ei|].
  split; [unfold ml_kem_encaps; rewrite Ei; reflexivity|].
  split; [apply H_length|]. split; [lia|]. split; [exact E'|].
  split; [|apply H_length].
  unfold ml_kem_decaps.
  rewrite (ml_kem_decaps_internal_returns _ _ _ _ E'). reflexivity.
Qed.

Lemma ml_kem_encaps_then_decaps_witness :
  let k1 := fst (G (H (repr_ek_pke (repeat 1 256, repeat 2 256)) ++ [])) in
  exists c m',
    k_pke_encrypt (repeat 1 256, repeat 2 256) k1 k1 10 2 = ret c /\
    ml_kem_encaps_internal (repeat 1 256, repeat 2 256) [] 10 = ret (c, H k1) /\
    ml_kem_encaps [] (repeat 1 256, repeat 2 256) 10 = ret (H k1, c) /\
    length (H k1) = 32%nat /\ Z.of_nat (length c) = 64 * 10 /\
    k_pke_decrypt ([], repeat 3 256, []) c 10 = ret m' /\
    ml_kem_decaps ([], repeat 3 256, []) c 10 = ret (H m') /\
    length (H m') = 32%nat.
Proof.
  apply (ml_kem_encaps_then_decaps (repeat 1 256) (repeat 2 256) []
           (repeat 3 256) [] [] 10).
  - rewrite repeat_length. lia.
  - rewrite repeat_length. lia.
  - apply repeat_length.
  - lia.
Defined.

(** ** Termination of key generation *)

Lemma byte_encode_returns_or_raises (F : list Z) (d : Z) :
  length F = 256%nat ->
  (exists B, byte_encode F d = Ok B) \/
  (exists msg, byte_encode F d = Raise (ValueError msg)).
Proof.
  intro LF.
  destruct (Z_lt_dec d 0) as [Hneg|Hd].
  { right. unfold byte_encode, modulus_for, lshift.
    rewrite LF. cbn [Nat.eqb negb].
    replace (d <? 12) with true by (symmetry; apply Z.ltb_lt; lia).
    replace (d <? 0) with true by (symmetry; apply Z.ltb_lt; lia).
    eexists. reflexivity. }
  destruct (Forall_dec _ (in_modulus_dec (modulus_of d)) F) as [HF|HF].
  - left. destruct (byte_encode_ok F d) as [B [E _]];
      [lia | exact LF | exact HF |].
    exists B. exact E.
  - right. unfold byte_encode.
    rewrite LF. cbn [Nat.eqb negb].
    rewrite modulus_for_ok by lia. cbn [bind].
    replace ((256 * d) mod 8 =? 0) with true
      by (symmetry; apply Z.eqb_eq; replace (256 * d) with (32 * d * 8) by lia;
          apply Z.mod_mul; lia).
    cbn [negb]. fold (modulus_of d).
    rewrite byte_encode_loop_rejects by exact HF.
    eexists. reflexivity.
Qed.

Lemma sample_ntt_never_returns (B : bytes) :
  length B = 34%nat ->
  accepts1 (shake128 B 3) || accepts2 (shake128 B 3) = false ->
  forall fuel, sample_ntt fuel B = None.
Proof.
  intros LB Hacc fuel. unfold sample_ntt. rewrite LB. cbn [Nat.eqb negb].
  assert (HC : length (fst (squeeze (absorb XOF_init B) 3)) = 3%nat)
    by (rewrite squeeze_absorbed; apply shake128_length).
  apply orb_false_iff in Hacc as [H1 H2].
  unfold accepts1, accepts2 in H1, H2.
  apply Z.ltb_ge in H1, H2.
  apply sample_ntt_loop_stuck;
    [exact HC | rewrite squeeze_absorbed; exact H1
     | rewrite squeeze_absorbed; exact H2 | cbn [length]; lia].
Qed.

Lemma sample_ntt_always_returns (B : bytes) :
  length B = 34%nat ->
  accepts1 (shake128 B 3) || accepts2 (shake128 B 3) = true ->
  exists F, length F = 256%nat /\
            forall fuel, (256 <= fuel)%nat -> sample_ntt fuel B = ret F.
Proof.
  intros LB Hacc.
  assert (Hdef : forall fuel,
            sample_ntt fuel B = sample_ntt_loop fuel (absorb XOF_init B) []).
  { intro fuel. unfold sample_ntt. rewrite LB. reflexivity. }
  assert (HC : length (fst (squeeze (absorb XOF_init B) 3)) = 3%nat)
    by (rewrite squeeze_absorbed; apply shake128_length).
  destruct (sample_ntt_loop_progress (absorb XOF_init B) HC) with
    (fuel := 256%nat) (coefficients := @nil Z) as [F EF].
  - rewrite squeeze_absorbed. exact Hacc.
  - cbn; lia.
  - cbn; lia.
  - exists F. split.
    + apply (sample_ntt_returns 256 B F). rewrite Hdef. exact EF.
    + intros fuel Hf. rewrite Hdef.
      apply (sample_ntt_loop_more_fuel 256 _ _ _ EF). exact Hf.
Qed.

(** With eta1, eta2 in {2, 3} and 32 random bytes each time, whether
    [k_pke_keygen] comes to an end is decided by the first three bytes C
    of the SHAKE128 stream of r2 + 00 00 alone: if neither candidate of C
    is below q, the sampling loop runs for ever, for every d; otherwise
    256 iterations suffice, and key generation ends with a key pair or
    with a ValueError, the same for every larger bound. *)
Theorem k_pke_keygen_termination (r1 r2 : bytes) (d eta1 eta2 : Z) :
  eta1 = 2 \/ eta1 = 3 -> eta2 = 2 \/ eta2 = 3 ->
  length r1 = 32%nat -> length r2 = 32%nat ->
  (accepts1 (shake128 (r2 ++ [x00; x00]) 3)
   || accepts2 (shake128 (r2 ++ [x00; x00]) 3) = false /\
   forall fuel, k_pke_keygen fuel r1 r2 d eta1 eta2 = None) \/
  (accepts1 (shake128 (r2 ++ [x00; x00]) 3)
   || accepts2 (shake128 (r2 ++ [x00; x00]) 3) = true /\
   exists out,
     (forall fuel, (256 <= fuel)%nat ->
        k_pke_keygen fuel r1 r2 d eta1 eta2 = Some out) /\
     ((exists keys, out = Ok keys) \/ (exists msg, out = Raise (ValueError msg)))).
Proof.
  intros He1 He2 L1 L2.
  assert (LB : length (r2 ++ [x00; x00]) = 34%nat)
    by (rewrite length_app, L2; reflexivity).
  destruct (sample_poly_cbd_ok eta1 (shake256 (r1 ++ [x00]) (Z.to_nat (64 * eta1))))
    as [s1 [Es1 Ls1]]; [exact He1 | apply shake256_length |].
  destruct (sample_poly_cbd_ok eta2 (shake256 (r1 ++ [x01]) (Z.to_nat (64 * eta2))))
    as [s2 [Es2 Ls2]]; [exact He2 | apply shake256_length |].
  assert (Hdef : forall fuel,
            k_pke_keygen fuel r1 r2 d eta1 eta2
            = (A <~ sample_ntt fuel (r2 ++ [x00; x00]) ;;
               s1_hat <~ ntt s1 ;;
               s2_hat <~ ntt s2 ;;
               product <~ lift (multiply_ntts A s1_hat) ;;
               b_enc <~ lift (byte_encode (poly_add product s2_hat) d) ;;
               ret ((A, poly_add product s2_hat), (b_enc, s1, s2)))).
  { intro fuel. unfold k_pke_keygen.
    rewrite !PRF_ok by auto. cbn [cbind lift].
    rewrite Es1, Es2. reflexivity. }
  destruct (accepts1 (shake128 (r2 ++ [x00; x00]) 3)
            || accepts2 (shake128 (r2 ++ [x00; x00]) 3)) eqn:Hacc.
  - right. split; [reflexivity|].
    destruct (sample_ntt_always_returns _ LB Hacc) as [A [LA EA]].
    destruct (ntt_total s1 Ls1) as [s1_hat [E1 L1']].
    destruct (ntt_total s2 Ls2) as [s2_hat [E2 L2']].
    destruct (multiply_ntts_total A s1_hat) as [product [Ep Lp]]; [lia | lia |].
    destruct (byte_encode_returns_or_raises (poly_add product s2_hat) d)
      as [[B EB] | [msg EB]].
    + rewrite poly_add_length. lia.
    + exists (Ok ((A, poly_add product s2_hat), (B, s1, s2))).
      split; [|left; eexists; reflexivity].
      intros fuel Hf. rewrite Hdef, (EA fuel Hf), E1, E2. cbn [cbind ret].
      rewrite Ep. cbn [cbind lift]. rewrite EB. reflexivity.
    + exists (Raise (ValueError msg)).
      split; [|right; eexists; reflexivity].
      intros fuel Hf. rewrite Hdef, (EA fuel Hf), E1, E2. cbn [cbind ret].
      rewrite Ep. cbn [cbind lift]. rewrite EB. reflexivity.
  - left. split; [reflexivity|]. intro fuel.
    rewrite Hdef, (sample_ntt_never_returns _ LB Hacc). reflexivity.
Qed.

Lemma k_pke_keygen_termination_witness :
  (accepts1 (shake128 (zero_bytes 32 ++ [x00; x00]) 3)
   || accepts2 (shake128 (zero_bytes 32 ++ [x00; x00]) 3) = false /\
   forall fuel, k_pke_keygen fuel (zero_bytes 32) (zero_bytes 32) 12 2 3 = None) \/
  (accepts1 (shake128 (zero_bytes 32 ++ [x00; x00]) 3)
   || accepts2 (shake128 (zero_bytes 32 ++ [x00; x00]) 3) = true /\
   exists out,
     (forall fuel, (256 <= fuel)%nat ->
        k_pke_keygen fuel (zero_bytes 32) (zero_bytes 32) 12 2 3 = Some out) /\
     ((exists keys, out = Ok keys) \/ (exists msg, out = Raise (ValueError msg)))).
Proof.
  apply (k_pke_keygen_termination (zero_bytes 32) (zero_bytes 32) 12 2 3).
  - left. reflexivity.
  - right. reflexivity.
  - reflexivity.
  - reflexivity.
Defined.
